(** * KOAssistant translation tooling: PO codec, extraction, merge, validation

    A shallow embedding of [scripts/translate.py] and
    [scripts/validate_translations.py], and the properties of the PO
    codec, the extraction filter, the import/apply merger and the
    validation rules that the specification states about them.

    Python values are modelled as follows.
    - [str] is a list of Unicode code points ([N]); a literal is written
      [lit "..."].
    - a [dict] is an association list in insertion order ([Dict]).
    - code that can raise is written in the error monad [res].
    - objects mutated in place ([POEntry]) are threaded functionally; the
      entry lists built by [parse_po_file] never hold one object twice. *)

From Stdlib Require Import String Ascii.
From Stdlib Require Import List NArith ZArith Lia Bool Arith.
Import ListNotations.

Set Implicit Arguments.

(** ** Python strings *)

Module Py.

Definition char := N.
Definition str := list char.

Definition lit (s : string) : str :=
  map N_of_ascii (list_ascii_of_string s).

Definition LF : char := 10%N.
Definition TAB : char := 9%N.
Definition DQUOTE : char := 34%N.
Definition BSLASH : char := 92%N.

Fixpoint str_eqb (a b : str) : bool :=
  match a, b with
  | [], [] => true
  | x :: a', y :: b' => N.eqb x y && str_eqb a' b'
  | _, _ => false
  end.

(** [s.startswith(p)] *)
Fixpoint startswith (p s : str) : bool :=
  match p, s with
  | [], _ => true
  | x :: p', y :: s' => N.eqb x y && startswith p' s'
  | _ :: _, [] => false
  end.

(** [s.endswith(p)] *)
Definition endswith (p s : str) : bool :=
  startswith (rev p) (rev s).

(** [sub in s], for a non-empty [sub] as everywhere in the scripts. *)
Fixpoint contains (sub s : str) : bool :=
  match s with
  | [] => startswith sub []
  | _ :: t => startswith sub s || contains sub t
  end.

(** [x in l] for a list or set of strings. *)
Definition mem (x : str) (l : list str) : bool :=
  existsb (str_eqb x) l.

(** [str.isspace] on one code point (CPython's [_PyUnicode_IsWhitespace]). *)
Definition isspace (c : char) : bool :=
  ((9 <=? c) && (c <=? 13) || (28 <=? c) && (c <=? 32)
   || (c =? 133) || (c =? 160) || (c =? 5760)
   || (8192 <=? c) && (c <=? 8202)
   || (c =? 8232) || (c =? 8233) || (c =? 8239) || (c =? 8287)
   || (c =? 12288))%N.

Fixpoint lstrip (s : str) : str :=
  match s with
  | c :: t => if isspace c then lstrip t else s
  | [] => []
  end.

Definition rstrip (s : str) : str := rev (lstrip (rev s)).

(** [s.strip()] *)
Definition strip (s : str) : str := rstrip (lstrip s).

Fixpoint lstrip_char (x : char) (s : str) : str :=
  match s with
  | c :: t => if N.eqb c x then lstrip_char x t else s
  | [] => []
  end.

(** [s.rstrip(x)] for a one-character argument *)
Definition rstrip_char (x : char) (s : str) : str :=
  rev (lstrip_char x (rev s)).

(** [s.split(sep)] for a one-character separator: never an empty list. *)
Fixpoint split_char (sep : char) (s : str) : list str :=
  match s with
  | [] => [[]]
  | c :: t =>
      if N.eqb c sep then [] :: split_char sep t
      else match split_char sep t with
           | w :: ws => (c :: w) :: ws
           | [] => [[c]]
           end
  end.

(** [s.split()]: fields separated by runs of whitespace, none empty. *)
Fixpoint split_ws_go (cur : str) (s : str) : list str :=
  match s with
  | [] => match cur with [] => [] | _ => [rev cur] end
  | c :: t =>
      if isspace c
      then match cur with
           | [] => split_ws_go [] t
           | _ => rev cur :: split_ws_go [] t
           end
      else split_ws_go (c :: cur) t
  end.

Definition split_ws (s : str) : list str := split_ws_go [] s.

(** [sep.join(l)] *)
Fixpoint join (sep : str) (l : list str) : str :=
  match l with
  | [] => []
  | [x] => x
  | x :: r => x ++ sep ++ join sep r
  end.

(** [s.replace(old, new)], [old] non-empty: left to right, occurrences
    that do not overlap.  [k] counts the characters of a matched
    occurrence still to be skipped. *)
Fixpoint replace_go (old new : str) (k : nat) (s : str) : str :=
  match s with
  | [] => []
  | c :: t =>
      match k with
      | S k' => replace_go old new k' t
      | O =>
          if startswith old s
          then new ++ replace_go old new (length old - 1) t
          else c :: replace_go old new 0 t
      end
  end.

Definition replace (old new s : str) : str := replace_go old new 0 s.

(** [re.findall(p, s)] for a pattern matching exactly [n] characters,
    given as a test on the text that starts at a position; also the
    occurrences counted by [s.count(sub)]. *)
Fixpoint findall_go (test : str -> bool) (n : nat) (k : nat) (s : str)
  : list str :=
  match s with
  | [] => []
  | _ :: t =>
      match k with
      | S k' => findall_go test n k' t
      | O =>
          if test s
          then firstn n s :: findall_go test n (n - 1) t
          else findall_go test n 0 t
      end
  end.

(** [s.count(sub)], [sub] non-empty *)
Definition count (sub s : str) : nat :=
  length (findall_go (startswith sub) (length sub) 0 s).

(** [s[1:-1]] *)
Definition slice_1_m1 (s : str) : str := removelast (tl s).

(** The code points of the decimal digit zero of every script (Unicode
    14, general category Nd); the digits 1 to 9 of a script follow its
    zero.  These are the characters a pattern's [\d] matches and [int]
    reads. *)
Definition decimal_zeros : list N :=
  [48; 1632; 1776; 1984; 2406; 2534; 2662; 2790; 2918; 3046; 3174; 3302;
   3430; 3558; 3664; 3792; 3872; 4160; 4240; 6112; 6160; 6470; 6608; 6784;
   6800; 6992; 7088; 7232; 7248; 42528; 43216; 43264; 43472; 43504; 43600;
   44016; 65296; 66720; 68912; 69734; 69872; 69942; 70096; 70384; 70736;
   70864; 71248; 71360; 71472; 71904; 72016; 72784; 73040; 73120; 92768;
   92864; 93008; 120782; 120792; 120802; 120812; 120822; 123200; 123632;
   125264; 130032]%N.

Fixpoint decimal_in (zs : list N) (c : char) : option N :=
  match zs with
  | [] => None
  | z :: r =>
      if ((z <=? c) && (c <? z + 10))%N then Some (c - z)%N
      else decimal_in r c
  end.

Definition decimal_value (c : char) : option N := decimal_in decimal_zeros c.

Definition isdecimal (c : char) : bool :=
  match decimal_value c with Some _ => true | None => false end.

(** ** Exceptions *)

Inductive exn := IndexError | ValueError | ZeroDivisionError | KeyError.

Inductive res (A : Type) : Type :=
| Ok (a : A)
| Raise (e : exn).

Arguments Ok {A} a.
Arguments Raise {A} e.

Definition bind {A B : Type} (m : res A) (k : A -> res B) : res B :=
  match m with
  | Ok a => k a
  | Raise e => Raise e
  end.

(** [int(s)] on a run of decimal digits, the only text the scripts pass
    to it; anything else raises [ValueError].  (Python's [int] also takes
    a sign, blanks and underscores, which neither call site produces.) *)
Fixpoint int_digits (acc : N) (s : str) : res N :=
  match s with
  | [] => Ok acc
  | c :: t =>
      match decimal_value c with
      | Some d => int_digits (acc * 10 + d)%N t
      | None => Raise ValueError
      end
  end.

(** The most digits [int] converts ([sys.int_max_str_digits], at its
    default): a longer run, leading zeros counted, raises [ValueError]. *)
Definition int_max_str_digits : nat := 4300.

Definition int (s : str) : res N :=
  match s with
  | [] => Raise ValueError
  | _ =>
      if length s <=? int_max_str_digits then int_digits 0%N s
      else Raise ValueError
  end.

(** [str(n)] and [f"{n}"] for a natural number: decimal, no leading zero. *)
Fixpoint digits_fuel (fuel : nat) (n : N) : str :=
  match fuel with
  | O => []
  | S f =>
      if (n <? 10)%N then [(48 + n)%N]
      else digits_fuel f (n / 10)%N ++ [(48 + n mod 10)%N]
  end.

Definition str_of_N (n : N) : str :=
  digits_fuel (S (N.to_nat (N.log2 n))) n.

(** [str(z)] for an integer *)
Definition str_of_Z (z : Z) : str :=
  match z with
  | Zneg p => 45%N :: str_of_N (Npos p)
  | _ => str_of_N (Z.to_N z)
  end.

(** [l[a:b]] with Python's treatment of negative and excessive bounds. *)
Definition norm_index (len i : Z) : Z :=
  if (i <? 0)%Z then Z.max 0 (i + len) else Z.min i len.

Definition slice {A : Type} (l : list A) (a b : Z) : list A :=
  let n := Z.of_nat (length l) in
  let a' := norm_index n a in
  let b' := norm_index n b in
  firstn (Z.to_nat (b' - a')) (skipn (Z.to_nat a') l).

(** [l[idx] = v]: [IndexError] out of range (for [0 <= idx]). *)
Fixpoint list_set {A : Type} (l : list A) (idx : nat) (v : A)
  : res (list A) :=
  match l, idx with
  | [], _ => Raise IndexError
  | _ :: t, O => Ok (v :: t)
  | x :: t, S i => bind (list_set t i v) (fun t' => Ok (x :: t'))
  end.

(** [l[idx]] *)
Definition list_get {A : Type} (l : list A) (idx : nat) : res A :=
  match nth_error l idx with
  | Some x => Ok x
  | None => Raise IndexError
  end.

(** ** Dictionaries: association lists in insertion order *)

Definition Dict (V : Type) := list (str * V).

Fixpoint dict_get {V : Type} (d : Dict V) (k : str) : option V :=
  match d with
  | [] => None
  | (k', v) :: r => if str_eqb k k' then Some v else dict_get r k
  end.

(** [d[k] = v]: a key already present keeps its position. *)
Fixpoint dict_set {V : Type} (d : Dict V) (k : str) (v : V) : Dict V :=
  match d with
  | [] => [(k, v)]
  | (k', v') :: r =>
      if str_eqb k k' then (k', v) :: r else (k', v') :: dict_set r k v
  end.

(** [k in d] *)
Definition dict_mem {V : Type} (d : Dict V) (k : str) : bool :=
  match dict_get d k with Some _ => true | None => false end.

(** [d.keys()] *)
Definition dict_keys {V : Type} (d : Dict V) : list str := map fst d.

(** [s.add(x)] for a set of strings *)
Definition set_add (s : list str) (x : str) : list str :=
  if mem x s then s else s ++ [x].


(** [d[k].append(v)] on a [defaultdict(list)] *)
Definition dict_append {V : Type} (d : Dict (list V)) (k : str) (v : V)
  : Dict (list V) :=
  match dict_get d k with
  | Some l => dict_set d k (l ++ [v])
  | None => dict_set d k [v]
  end.

(** [set(l)] for a list of strings: its elements, each once *)
Definition set_of (l : list str) : list str := fold_left set_add l [].
End Py.

Import Py.

Notation "x <- m ;; k" := (bind m (fun x => k))
  (at level 61, m at next level, right associativity).

(** [bool(s)] for a string *)
Definition truthy (s : str) : bool :=
  match s with
  | [] => false
  | _ => true
  end.

(** ** translate.py *)

Module Translate.

(** *** class POEntry *)

Record POEntry := {
  comments : list str;
  references : list str;
  flags : list str;
  msgid : str;
  msgid_plural : str;
  msgstr : str;
  msgstr_plural : list str;
  line_number : N;
  is_header : bool
}.

(** [POEntry()] *)
Definition new_POEntry : POEntry :=
  {| comments := []; references := []; flags := []; msgid := [];
     msgid_plural := []; msgstr := []; msgstr_plural := [];
     line_number := 0%N; is_header := false |}.

Definition set_comments (e : POEntry) (v : list str) : POEntry :=
  {| comments := v; references := references e; flags := flags e;
     msgid := msgid e; msgid_plural := msgid_plural e; msgstr := msgstr e;
     msgstr_plural := msgstr_plural e; line_number := line_number e;
     is_header := is_header e |}.

Definition set_references (e : POEntry) (v : list str) : POEntry :=
  {| comments := comments e; references := v; flags := flags e;
     msgid := msgid e; msgid_plural := msgid_plural e; msgstr := msgstr e;
     msgstr_plural := msgstr_plural e; line_number := line_number e;
     is_header := is_header e |}.

Definition set_flags (e : POEntry) (v : list str) : POEntry :=
  {| comments := comments e; references := references e; flags := v;
     msgid := msgid e; msgid_plural := msgid_plural e; msgstr := msgstr e;
     msgstr_plural := msgstr_plural e; line_number := line_number e;
     is_header := is_header e |}.

Definition set_msgid (e : POEntry) (v : str) : POEntry :=
  {| comments := comments e; references := references e; flags := flags e;
     msgid := v; msgid_plural := msgid_plural e; msgstr := msgstr e;
     msgstr_plural := msgstr_plural e; line_number := line_number e;
     is_header := is_header e |}.

Definition set_msgid_plural (e : POEntry) (v : str) : POEntry :=
  {| comments := comments e; references := references e; flags := flags e;
     msgid := msgid e; msgid_plural := v; msgstr := msgstr e;
     msgstr_plural := msgstr_plural e; line_number := line_number e;
     is_header := is_header e |}.

Definition set_msgstr (e : POEntry) (v : str) : POEntry :=
  {| comments := comments e; references := references e; flags := flags e;
     msgid := msgid e; msgid_plural := msgid_plural e; msgstr := v;
     msgstr_plural := msgstr_plural e; line_number := line_number e;
     is_header := is_header e |}.

Definition set_msgstr_plural (e : POEntry) (v : list str) : POEntry :=
  {| comments := comments e; references := references e; flags := flags e;
     msgid := msgid e; msgid_plural := msgid_plural e; msgstr := msgstr e;
     msgstr_plural := v; line_number := line_number e;
     is_header := is_header e |}.

Definition set_line_number (e : POEntry) (v : N) : POEntry :=
  {| comments := comments e; references := references e; flags := flags e;
     msgid := msgid e; msgid_plural := msgid_plural e; msgstr := msgstr e;
     msgstr_plural := msgstr_plural e; line_number := v;
     is_header := is_header e |}.

Definition set_is_header (e : POEntry) (v : bool) : POEntry :=
  {| comments := comments e; references := references e; flags := flags e;
     msgid := msgid e; msgid_plural := msgid_plural e; msgstr := msgstr e;
     msgstr_plural := msgstr_plural e; line_number := line_number e;
     is_header := v |}.

Definition is_fuzzy (e : POEntry) : bool := mem (lit "fuzzy") (flags e).

Definition is_translated (e : POEntry) : bool :=
  truthy (msgstr e) && negb (is_header e).

(** Verified = translated AND not fuzzy (human-approved). *)
Definition is_verified (e : POEntry) : bool :=
  is_translated e && negb (is_fuzzy e).

(** Empty = no translation yet. *)
Definition is_empty (e : POEntry) : bool :=
  negb (truthy (msgstr e)) && negb (is_header e).

(** The loop of [add_fuzzy] that finds the last reference comment. *)
Fixpoint last_ref_idx (cs : list str) (i ref_idx : Z) : Z :=
  match cs with
  | [] => ref_idx
  | c :: r =>
      last_ref_idx r (i + 1)
        (if startswith (lit "#:") c then i else ref_idx)
  end.

(** [l.insert(i, x)] for [0 <= i] *)
Definition list_insert {A : Type} (l : list A) (i : Z) (x : A) : list A :=
  firstn (Z.to_nat i) l ++ x :: skipn (Z.to_nat i) l.

(** [POEntry.add_fuzzy] *)
Definition add_fuzzy (e : POEntry) : POEntry :=
  if negb (mem (lit "fuzzy") (flags e)) then
    let e1 := set_flags e (flags e ++ [lit "fuzzy"]) in
    let has_flag_comment := existsb (startswith (lit "#,")) (comments e1) in
    if has_flag_comment then
      set_comments e1
        (map (fun c => if negb (startswith (lit "#,") c) then c
                       else c ++ lit ", fuzzy")
             (comments e1))
    else
      let ref_idx := last_ref_idx (comments e1) 0 (-1) in
      set_comments e1 (list_insert (comments e1) (ref_idx + 1) (lit "#, fuzzy"))
  else e.

(** *** The escapes of PO strings *)

Definition unescape_po_string (s : str) : str :=
  replace [BSLASH; BSLASH] [BSLASH]
    (replace [BSLASH; DQUOTE] [DQUOTE]
       (replace (BSLASH :: lit "t") [TAB]
          (replace (BSLASH :: lit "n") [LF] s))).

Definition escape_po_string (s : str) : str :=
  replace [TAB] (BSLASH :: lit "t")
    (replace [LF] (BSLASH :: lit "n")
       (replace [DQUOTE] [BSLASH; DQUOTE]
          (replace [BSLASH] [BSLASH; BSLASH] s))).


(** *** parse_po_file *)

(** The text before the last occurrence of [x] in [s], if there is one. *)
Fixpoint upto_last (x : char) (s : str) : option str :=
  match s with
  | [] => None
  | c :: t =>
      match upto_last x t with
      | Some p => Some (c :: p)
      | None => if N.eqb c x then Some [] else None
      end
  end.

Fixpoint take_while (f : char -> bool) (s : str) : str :=
  match s with
  | c :: t => if f c then c :: take_while f t else []
  | [] => []
  end.

(** The [re.match] of the plural field at the start of [line]: the
    text [msgstr[], one or more digits (group 1), a closing bracket, a
    blank, a quote, any characters but line feeds (group 2), a quote.
    The digits are a maximal run, since a bracket must follow them, and
    group 2, being greedy, runs to the last quote before any line feed. *)
Definition match_msgstr_plural (line : str) : option (str * str) :=
  if startswith (lit "msgstr[") line then
    let r := skipn 7 line in
    let ds := take_while isdecimal r in
    let r1 := skipn (length ds) r in
    match ds with
    | [] => None
    | _ =>
        if startswith (lit "] " ++ [DQUOTE]) r1 then
          let body := take_while (fun c => negb (N.eqb c LF)) (skipn 3 r1) in
          match upto_last DQUOTE body with
          | Some g2 => Some (ds, g2)
          | None => None
          end
        else None
    end
  else None.

(** The variables of the scanning loop. *)
Record pstate := {
  entries : list POEntry;
  current_entry : option POEntry;
  current_field : option str;
  line_no : N
}.

Definition init_pstate : pstate :=
  {| entries := []; current_entry := None; current_field := None;
     line_no := 0%N |}.

(** [if current_entry and (current_entry.msgid or current_entry.is_header):
    entries.append(current_entry)] *)
Definition flush (es : list POEntry) (ce : option POEntry) : list POEntry :=
  match ce with
  | Some e => if truthy (msgid e) || is_header e then es ++ [e] else es
  | None => es
  end.

Definition quoted (value : str) : bool :=
  startswith [DQUOTE] value && endswith [DQUOTE] value.

(** [while len(l) <= idx: l.append(empty)], padding with empty strings *)
Definition pad_plural (l : list str) (idx : N) : list str :=
  l ++ repeat [] (S (N.to_nat idx) - length l).

(** The continuation branch: append [value] to the open field. *)
Definition continue_field (e : POEntry) (field : option str) (value : str)
  : res POEntry :=
  match field with
  | None => Ok e
  | Some f =>
      if str_eqb f (lit "msgid") then Ok (set_msgid e (msgid e ++ value))
      else if str_eqb f (lit "msgid_plural")
      then Ok (set_msgid_plural e (msgid_plural e ++ value))
      else if str_eqb f (lit "msgstr")
      then Ok (set_msgstr e (msgstr e ++ value))
      else if truthy f && startswith (lit "msgstr[") f then
        idx <- int (slice f 7 (-1)) ;;
        old <- list_get (msgstr_plural e) (N.to_nat idx) ;;
        pl <- list_set (msgstr_plural e) (N.to_nat idx) (old ++ value) ;;
        Ok (set_msgstr_plural e pl)
      else Ok e
  end.

(** The entry a line is read into: the current one, or, when there is
    none, a new one that starts at line [n]. *)
Definition entry_of (st : pstate) (n : N) : POEntry :=
  match current_entry st with
  | Some e => e
  | None => set_line_number new_POEntry n
  end.

(** One iteration of [for line in f]. *)
Definition parse_line (st : pstate) (raw : str) : res pstate :=
  let n := (line_no st + 1)%N in
  let line := rstrip_char LF raw in
  if negb (truthy (strip line)) then
    Ok {| entries := flush (entries st) (current_entry st);
          current_entry := None; current_field := None; line_no := n |}
  else
    let e := entry_of st n in
    let next e' field :=
      {| entries := entries st; current_entry := Some e';
         current_field := field; line_no := n |} in
    if startswith (lit "#") line then
      let e1 := set_comments e (comments e ++ [line]) in
      let e2 :=
        if startswith (lit "#:") line then
          set_references e1
            (references e1 ++ split_ws (strip (skipn 2 line)))
        else if startswith (lit "#,") line then
          set_flags e1
            (flags e1 ++ map strip (split_char 44%N (strip (skipn 2 line))))
        else e1 in
      Ok (next e2 (current_field st))
    else if startswith (lit "msgid ") line then
      let value := strip (skipn 6 line) in
      let e1 :=
        if quoted value then
          let e' := set_msgid e (unescape_po_string (slice_1_m1 value)) in
          if negb (truthy (msgid e'))
             && match entries st with [] => true | _ => false end
          then set_is_header e' true else e'
        else e in
      Ok (next e1 (Some (lit "msgid")))
    else if startswith (lit "msgid_plural ") line then
      let value := strip (skipn 13 line) in
      let e1 :=
        if quoted value
        then set_msgid_plural e (unescape_po_string (slice_1_m1 value))
        else e in
      Ok (next e1 (Some (lit "msgid_plural")))
    else if startswith (lit "msgstr ") line then
      let value := strip (skipn 7 line) in
      let e1 :=
        if quoted value
        then set_msgstr e (unescape_po_string (slice_1_m1 value))
        else e in
      Ok (next e1 (Some (lit "msgstr")))
    else
      match match_msgstr_plural line with
      | Some (g1, g2) =>
          idx <- int g1 ;;
          let value := unescape_po_string g2 in
          pl <- list_set (pad_plural (msgstr_plural e) idx)
                         (N.to_nat idx) value ;;
          Ok (next (set_msgstr_plural e pl)
                   (Some (lit "msgstr[" ++ str_of_N idx ++ lit "]")))
      | None =>
          if quoted line then
            e1 <- continue_field e (current_field st)
                    (unescape_po_string (slice_1_m1 line)) ;;
            Ok (next e1 (current_field st))
          else Ok (next e (current_field st))
      end.

Fixpoint parse_lines (st : pstate) (ls : list str) : res pstate :=
  match ls with
  | [] => Ok st
  | l :: r => st' <- parse_line st l ;; parse_lines st' r
  end.

(** The lines a text file yields when iterated: each ends with its line
    feed, except possibly the last. *)
Fixpoint readlines_go (cur : str) (s : str) : list str :=
  match s with
  | [] => match cur with [] => [] | _ => [rev cur] end
  | c :: t =>
      if N.eqb c LF then rev (c :: cur) :: readlines_go [] t
      else readlines_go (c :: cur) t
  end.

Definition readlines (text : str) : list str := readlines_go [] text.

(** [parse_po_file], on the text of the file as the text layer hands it
    to the loop (decoded, line ends already translated to line feeds). *)
Definition parse_po_file (text : str) : res (list POEntry) :=
  st <- parse_lines init_pstate (readlines text) ;;
  Ok (flush (entries st) (current_entry st)).

(** *** write_po_file *)

Definition qt (s : str) : str := [DQUOTE] ++ s ++ [DQUOTE].

(** The loop of [format_msgstr_for_po] over [enumerate(parts)]. *)
Fixpoint format_parts (parts : list str) (i len : nat) : list str :=
  match parts with
  | [] => []
  | part :: r =>
      (if i <? len - 1
       then [qt (escape_po_string part ++ BSLASH :: lit "n")]
       else if truthy part then [qt (escape_po_string part)] else [])
      ++ format_parts r (S i) len
  end.

(** [format_msgstr_for_po]: the lines of the msgstr field. *)
Definition format_msgstr_for_po (msgstr : str) : list str :=
  if negb (truthy msgstr) then [lit "msgstr " ++ qt []]
  else if contains [LF] msgstr then
    let parts := split_char LF msgstr in
    (lit "msgstr " ++ qt []) :: format_parts parts 0 (length parts)
  else [lit "msgstr " ++ qt (escape_po_string msgstr)].

(** The flags of a [#,] comment line as the writer reads them. *)
Definition comment_flags (comment : str) : list str :=
  map strip (split_char 44%N (skipn 2 comment)).

(** The writes of the loop over [entry.comments], with the final value
    of [wrote_fuzzy_line]. *)
Fixpoint write_comments (should_remove_fuzzy should_add_fuzzy : bool)
    (cs : list str) (wrote_fuzzy_line : bool) : str * bool :=
  match cs with
  | [] => ([], wrote_fuzzy_line)
  | comment :: r =>
      if startswith (lit "#,") comment then
        let flags0 := comment_flags comment in
        let flags1 :=
          if should_remove_fuzzy
          then filter (fun fl => negb (str_eqb fl (lit "fuzzy"))) flags0
          else flags0 in
        let flags2 :=
          if should_add_fuzzy && negb (mem (lit "fuzzy") flags1)
          then flags1 ++ [lit "fuzzy"] else flags1 in
        let out :=
          match flags2 with
          | [] => []
          | _ => lit "#, " ++ join (lit ", ") flags2 ++ [LF]
          end in
        let (rest, w) :=
          write_comments should_remove_fuzzy should_add_fuzzy r true in
        (out ++ rest, w)
      else
        let (rest, w) :=
          write_comments should_remove_fuzzy should_add_fuzzy r
            wrote_fuzzy_line in
        (comment ++ [LF] ++ rest, w)
  end.

(** The writes of the loop over the parts of a multi-line msgid; [final]
    is [entry.msgid.split(LF)[-1]]. *)
Fixpoint write_msgid_parts (parts : list str) (final : str) : str :=
  match parts with
  | [] => []
  | part :: r =>
      let escaped := escape_po_string part in
      (if negb (str_eqb part final)
       then qt (escaped ++ BSLASH :: lit "n") ++ [LF]
       else if truthy part then qt escaped ++ [LF] else [])
      ++ write_msgid_parts r final
  end.

Definition write_msgid (msgid : str) : str :=
  if contains [LF] msgid || (70 <? length msgid) then
    let parts := split_char LF msgid in
    lit "msgid " ++ qt [] ++ [LF]
    ++ write_msgid_parts parts (last parts [])
  else lit "msgid " ++ qt (escape_po_string msgid) ++ [LF].

(** The writes of the loop over [enumerate(entry.msgstr_plural)]. *)
Fixpoint write_plurals (idx : N) (pl : list str) : str :=
  match pl with
  | [] => []
  | plural :: r =>
      lit "msgstr[" ++ str_of_N idx ++ lit "] "
      ++ qt (escape_po_string plural) ++ [LF]
      ++ write_plurals (idx + 1)%N r
  end.

(** Everything one iteration of the loop over the entries writes,
    apart from the blank line between entries. *)
Definition write_entry (remove_fuzzy_for add_fuzzy_for : list str)
    (entry : POEntry) : str :=
  let should_remove_fuzzy := mem (msgid entry) remove_fuzzy_for in
  let should_add_fuzzy :=
    mem (msgid entry) add_fuzzy_for && negb (is_verified entry) in
  let (cout, wrote_fuzzy_line) :=
    write_comments should_remove_fuzzy should_add_fuzzy
      (comments entry) false in
  cout
  ++ (if should_add_fuzzy && negb wrote_fuzzy_line
      then lit "#, fuzzy" ++ [LF] else [])
  ++ write_msgid (msgid entry)
  ++ (if truthy (msgid_plural entry)
      then lit "msgid_plural " ++ qt (escape_po_string (msgid_plural entry))
           ++ [LF]
      else [])
  ++ concat (map (fun line => line ++ [LF])
               (format_msgstr_for_po (msgstr entry)))
  ++ write_plurals 0 (msgstr_plural entry).

Fixpoint write_entries (remove_fuzzy_for add_fuzzy_for : list str)
    (es : list POEntry) : str :=
  match es with
  | [] => []
  | [entry] => write_entry remove_fuzzy_for add_fuzzy_for entry
  | entry :: r =>
      write_entry remove_fuzzy_for add_fuzzy_for entry ++ [LF]
      ++ write_entries remove_fuzzy_for add_fuzzy_for r
  end.

(** [write_po_file]: the text written to the file.  An omitted option
    is the empty set. *)
Definition write_po_file (entries : list POEntry)
    (remove_fuzzy_for add_fuzzy_for : list str) : str :=
  write_entries remove_fuzzy_for add_fuzzy_for entries.

(** *** filter_entries *)

(** The body of the loop: whether [entry] is appended to the result. *)
Definition filter_keeps (mode : str) (entry : POEntry) : bool :=
  if is_header entry || negb (truthy (msgid entry)) then false
  else if is_verified entry then false
  else if str_eqb mode (lit "empty") then is_empty entry
  else if str_eqb mode (lit "fuzzy") then is_fuzzy entry
  else if str_eqb mode (lit "all") then true
  else false.

Definition filter_entries (entries : list POEntry) (mode : str)
  : list POEntry :=
  filter (filter_keeps mode) entries.

(** *** extract_batch *)

(** One element of the list [extract_batch] returns (a dict in the
    script; the fields are its keys). *)
Record BatchRecord := {
  r_id : Z;
  r_msgid : str;
  r_context : str;
  r_references : list str;
  r_current_msgstr : str;
  r_is_fuzzy : bool;
  r_similar_strings : list str
}.

(** [msgid_to_group]: for every group, for every msgid of the group. *)
Definition build_msgid_to_group (similar_map : Dict (list str)) : Dict str :=
  fold_left
    (fun d (item : str * list str) =>
       fold_left (fun d' m => dict_set d' m (fst item)) (snd item) d)
    similar_map [].

Section Extract.

(** [str.lower], Python's full Unicode lower-casing. *)
Variable str_lower : str -> str.

(** [POEntry.get_context_summary] *)
Definition get_context_summary (e : POEntry) : str :=
  match references e with
  | [] => lit "Unknown context"
  | ref :: _ =>
      match split_char 58%N ref with
      | filename :: _ =>
          if contains (lit "gesture") (str_lower filename)
          then lit "Gesture setting (" ++ filename ++ lit ")"
          else if contains (lit "dialog") (str_lower filename)
          then lit "Dialog UI (" ++ filename ++ lit ")"
          else if contains (lit "settings") (str_lower filename)
          then lit "Settings menu (" ++ filename ++ lit ")"
          else if contains (lit "main.lua") filename
          then lit "Main menu (" ++ filename ++ lit ")"
          else lit "UI element (" ++ filename ++ lit ")"
      | [] => lit "Unknown context"
      end
  end.

(** The sibling strings of [entry]: up to five of its group. *)
Definition similar_of (similar_map : Dict (list str))
    (msgid_to_group : Dict str) (entry : POEntry) : res (list str) :=
  match dict_get msgid_to_group (msgid entry) with
  | Some group =>
      if truthy group then
        match dict_get similar_map group with
        | Some ms =>
            Ok (firstn 5
                  (filter (fun m => negb (str_eqb m (msgid entry))) ms))
        | None => Raise KeyError
        end
      else Ok []
  | None => Ok []
  end.

(** The loop over [enumerate(batch_entries)]. *)
Fixpoint build_records (similar_map : Dict (list str))
    (msgid_to_group : Dict str) (start i : Z) (batch_entries : list POEntry)
  : res (list BatchRecord) :=
  match batch_entries with
  | [] => Ok []
  | entry :: r =>
      similar <- similar_of similar_map msgid_to_group entry ;;
      rest <- build_records similar_map msgid_to_group start (i + 1) r ;;
      Ok ({| r_id := start + i + 1;
             r_msgid := msgid entry;
             r_context := get_context_summary entry;
             r_references := firstn 3 (references entry);
             r_current_msgstr := msgstr entry;
             r_is_fuzzy := is_fuzzy entry;
             r_similar_strings := similar |} :: rest)
  end.

(** [a // b] *)
Definition floordiv (a b : Z) : res Z :=
  if (b =? 0)%Z then Raise ZeroDivisionError else Ok (a / b)%Z.

Definition extract_batch (entries : list POEntry) (batch_num batch_size : Z)
    (similar_map : Dict (list str)) (mode : str)
  : res (list BatchRecord * Z) :=
  let translatable := filter_entries entries mode in
  let len := Z.of_nat (length translatable) in
  total_batches <-
    (match translatable with
     | [] => Ok 0%Z
     | _ => floordiv (len + batch_size - 1) batch_size
     end) ;;
  if ((batch_num <? 1) || (total_batches <? batch_num))%Z
  then Ok ([], total_batches)
  else
    let start := ((batch_num - 1) * batch_size)%Z in
    let end_ := Z.min (start + batch_size) len in
    let batch_entries := slice translatable start end_ in
    let msgid_to_group := build_msgid_to_group similar_map in
    result <- build_records similar_map msgid_to_group start 0 batch_entries ;;
    Ok (result, total_batches).

End Extract.

(** *** import_translations *)

(** One element of the imported list: the values of its keys [msgid] and
    [msgstr], [None] for a key that is absent or null. *)
Record Item := {
  item_msgid : option str;
  item_msgstr : option str
}.

(** The imported document: the lists under the keys [translations] and
    [entries], where present. *)
Record ImportData := {
  data_translations : option (list Item);
  data_entries : option (list Item)
}.

(** The two messages added to the error list: [Entry missing msgid:]
    with the item, and [Unknown msgid:] with the first 50 characters of
    the id. *)
Inductive import_error :=
| Entry_missing_msgid (item : Item)
| Unknown_msgid (prefix : str).

(** [{e.msgid: e for e in entries if e.msgid}] *)
Definition build_msgid_to_entry (entries : list POEntry) : Dict POEntry :=
  fold_left
    (fun d e => if truthy (msgid e) then dict_set d (msgid e) e else d)
    entries [].


(** The three results the loop over the items accumulates. *)
Record ImportState := {
  translations : Dict str;
  errors : list import_error;
  skipped_verified : list str
}.

(** One iteration of [for item in items]. *)
Definition import_item (msgid_to_entry : Dict POEntry) (st : ImportState)
    (item : Item) : ImportState :=
  let missing :=
    {| translations := translations st;
       errors := errors st ++ [Entry_missing_msgid item];
       skipped_verified := skipped_verified st |} in
  match item_msgid item with
  | None => missing
  | Some msgid =>
      if negb (truthy msgid) then missing
      else
        match dict_get msgid_to_entry msgid with
        | None =>
            {| translations := translations st;
               errors := errors st ++ [Unknown_msgid (firstn 50 msgid)];
               skipped_verified := skipped_verified st |}
        | Some entry =>
            if is_verified entry then
              {| translations := translations st;
                 errors := errors st;
                 skipped_verified := set_add (skipped_verified st) msgid |}
            else
              match item_msgstr item with
              | Some msgstr =>
                  {| translations := dict_set (translations st) msgid msgstr;
                     errors := errors st;
                     skipped_verified := skipped_verified st |}
              | None => st
              end
        end
  end.

(** [data.get(translations, data.get(entries, []))] *)
Definition import_items (data : ImportData) : list Item :=
  match data_translations data with
  | Some l => l
  | None => match data_entries data with Some l => l | None => [] end
  end.

Definition import_translations (data : ImportData) (entries : list POEntry)
  : ImportState :=
  fold_left (import_item (build_msgid_to_entry entries)) (import_items data)
    {| translations := []; errors := []; skipped_verified := [] |}.

(** *** apply_translations *)

(** One iteration: the entry as the loop leaves it, and whether it was
    written. *)
Definition apply_entry (translations : Dict str) (entry : POEntry)
  : POEntry * bool :=
  match dict_get translations (msgid entry) with
  | Some t =>
      if is_verified entry then (entry, false)
      else (set_msgstr entry t, true)
  | None => (entry, false)
  end.

(** [apply_translations]: the entries after the loop and the count it
    returns. *)
Fixpoint apply_translations (entries : list POEntry)
    (translations : Dict str) : list POEntry * nat :=
  match entries with
  | [] => ([], 0)
  | entry :: r =>
      let (entry', written) := apply_entry translations entry in
      let (r', applied) := apply_translations r translations in
      (entry' :: r', if written then S applied else applied)
  end.

(** *** The apply command of [main] *)

(** [all_translations.update(translations)] *)
Definition dict_update {V : Type} (d d' : Dict V) : Dict V :=
  fold_left (fun acc kv => dict_set acc (fst kv) (snd kv)) d' d.

(** The loop over the input files of the apply command. *)
Definition import_all (files : list ImportData) (entries : list POEntry)
  : ImportState :=
  fold_left
    (fun acc data =>
       let r := import_translations data entries in
       {| translations := dict_update (translations acc) (translations r);
          errors := errors acc ++ errors r;
          skipped_verified :=
            fold_left set_add (skipped_verified r) (skipped_verified acc) |})
    files {| translations := []; errors := []; skipped_verified := [] |}.

(** The apply command without [--dry-run], from the merged translations
    on: apply them, choose the fuzzy handling from [--verified], and
    write the file.  Returns the entries in memory and the text written. *)
Definition main_apply (verified : bool) (entries : list POEntry)
    (all_translations : Dict str) : list POEntry * str :=
  let (entries', applied) := apply_translations entries all_translations in
  let remove_fuzzy := if verified then dict_keys all_translations else [] in
  let add_fuzzy := if verified then [] else dict_keys all_translations in
  (entries', write_po_file entries' remove_fuzzy add_fuzzy).

(** *** find_similar_strings *)

(** The chain of tests of the loop body: the group a source string is
    appended to, if any. *)
Definition similar_group (msgid : str) : option str :=
  if startswith (lit "KOAssistant:") msgid
  then Some (lit "KOAssistant: gestures")
  else if contains (lit "Menu") msgid
          && (contains (lit "Remove") msgid || contains (lit "Add") msgid)
  then Some (lit "Menu actions")
  else if contains (lit "Popup") msgid
          && (contains (lit "Remove") msgid || contains (lit "Add") msgid)
  then Some (lit "Popup actions")
  else if endswith (lit "Settings") msgid
          || endswith (lit "Settings...") msgid
  then Some (lit "Settings items")
  else if contains (lit "Reset") msgid || contains (lit "Restore") msgid
  then Some (lit "Reset/Restore actions")
  else None.

(** One iteration of the loop over the entries. *)
Definition similar_step (groups : Dict (list str)) (entry : POEntry)
  : Dict (list str) :=
  if is_header entry || negb (truthy (msgid entry)) then groups
  else
    match similar_group (msgid entry) with
    | Some g => dict_append groups g (msgid entry)
    | None => groups
    end.

Definition find_similar_strings (entries : list POEntry)
  : Dict (list str) :=
  fold_left similar_step entries [].

(** *** get_status *)

(** The dictionary [get_status] returns; the fields are its keys. *)
Record Status := {
  total : nat;
  translated : nat;
  fuzzy : nat;
  verified : nat;
  empty : nat
}.

Definition get_status (entries : list POEntry) : Status :=
  let translatable :=
    filter (fun e => truthy (msgid e) && negb (is_header e)) entries in
  {| total := length translatable;
     translated := length (filter (fun e => truthy (msgstr e)) translatable);
     fuzzy := length (filter is_fuzzy translatable);
     verified := length (filter is_verified translatable);
     empty :=
       length (filter (fun e => negb (truthy (msgstr e))) translatable) |}.
End Translate.

(** ** validate_translations.py *)

Module Validate.

Definition BRAND_NAMES : list str :=
  map lit
    ["KOAssistant"; "KOReader"; "Claude"; "GPT"; "Gemini"; "OpenAI";
     "Anthropic"; "DeepSeek"; "Ollama"; "Groq"; "Mistral"; "xAI";
     "OpenRouter"; "Qwen"; "Kimi"; "Together"; "Fireworks"; "SambaNova";
     "Cohere"; "Doubao"]%string.

Definition TECHNICAL_TERMS : list str :=
  map lit ["API"; "token"; "tokens"; "cache"; "caching"; "streaming"]%string.

(** *** class POEntry *)

Record POEntry := {
  comments : list str;
  msgid : str;
  msgid_plural : str;
  msgstr : str;
  msgstr_plural : list str;
  fuzzy : bool;
  line_number : N;
  references : list str
}.

Definition new_POEntry : POEntry :=
  {| comments := []; msgid := []; msgid_plural := []; msgstr := [];
     msgstr_plural := []; fuzzy := false; line_number := 0%N;
     references := [] |}.

Definition set_comments (e : POEntry) (v : list str) : POEntry :=
  {| comments := v; msgid := msgid e; msgid_plural := msgid_plural e;
     msgstr := msgstr e; msgstr_plural := msgstr_plural e; fuzzy := fuzzy e;
     line_number := line_number e; references := references e |}.

Definition set_msgid (e : POEntry) (v : str) : POEntry :=
  {| comments := comments e; msgid := v; msgid_plural := msgid_plural e;
     msgstr := msgstr e; msgstr_plural := msgstr_plural e; fuzzy := fuzzy e;
     line_number := line_number e; references := references e |}.

Definition set_msgid_plural (e : POEntry) (v : str) : POEntry :=
  {| comments := comments e; msgid := msgid e; msgid_plural := v;
     msgstr := msgstr e; msgstr_plural := msgstr_plural e; fuzzy := fuzzy e;
     line_number := line_number e; references := references e |}.

Definition set_msgstr (e : POEntry) (v : str) : POEntry :=
  {| comments := comments e; msgid := msgid e;
     msgid_plural := msgid_plural e; msgstr := v;
     msgstr_plural := msgstr_plural e; fuzzy := fuzzy e;
     line_number := line_number e; references := references e |}.

Definition set_msgstr_plural (e : POEntry) (v : list str) : POEntry :=
  {| comments := comments e; msgid := msgid e;
     msgid_plural := msgid_plural e; msgstr := msgstr e;
     msgstr_plural := v; fuzzy := fuzzy e;
     line_number := line_number e; references := references e |}.

Definition set_fuzzy (e : POEntry) (v : bool) : POEntry :=
  {| comments := comments e; msgid := msgid e;
     msgid_plural := msgid_plural e; msgstr := msgstr e;
     msgstr_plural := msgstr_plural e; fuzzy := v;
     line_number := line_number e; references := references e |}.

Definition set_line_number (e : POEntry) (v : N) : POEntry :=
  {| comments := comments e; msgid := msgid e;
     msgid_plural := msgid_plural e; msgstr := msgstr e;
     msgstr_plural := msgstr_plural e; fuzzy := fuzzy e;
     line_number := v; references := references e |}.

Definition set_references (e : POEntry) (v : list str) : POEntry :=
  {| comments := comments e; msgid := msgid e;
     msgid_plural := msgid_plural e; msgstr := msgstr e;
     msgstr_plural := msgstr_plural e; fuzzy := fuzzy e;
     line_number := line_number e; references := v |}.

(** *** parse_po_file *)

Definition unescape_po_string (s : str) : str :=
  replace [BSLASH; BSLASH] [BSLASH]
    (replace [BSLASH; DQUOTE] [DQUOTE]
       (replace (BSLASH :: lit "t") [TAB]
          (replace (BSLASH :: lit "n") [LF] s))).

Record pstate := {
  entries : list POEntry;
  current_entry : option POEntry;
  current_field : option str;
  line_no : N
}.

Definition init_pstate : pstate :=
  {| entries := []; current_entry := None; current_field := None;
     line_no := 0%N |}.

(** [if current_entry and current_entry.msgid:
    entries.append(current_entry)] *)
Definition flush (es : list POEntry) (ce : option POEntry) : list POEntry :=
  match ce with
  | Some e => if truthy (msgid e) then es ++ [e] else es
  | None => es
  end.

Definition continue_field (e : POEntry) (field : option str) (value : str)
  : res POEntry :=
  match field with
  | None => Ok e
  | Some f =>
      if str_eqb f (lit "msgid") then Ok (set_msgid e (msgid e ++ value))
      else if str_eqb f (lit "msgid_plural")
      then Ok (set_msgid_plural e (msgid_plural e ++ value))
      else if str_eqb f (lit "msgstr")
      then Ok (set_msgstr e (msgstr e ++ value))
      else if truthy f && startswith (lit "msgstr[") f then
        idx <- int (slice f 7 (-1)) ;;
        old <- list_get (msgstr_plural e) (N.to_nat idx) ;;
        pl <- list_set (msgstr_plural e) (N.to_nat idx) (old ++ value) ;;
        Ok (set_msgstr_plural e pl)
      else Ok e
  end.

Definition entry_of (st : pstate) (n : N) : POEntry :=
  match current_entry st with
  | Some e => e
  | None => set_line_number new_POEntry n
  end.

Definition parse_line (st : pstate) (raw : str) : res pstate :=
  let n := (line_no st + 1)%N in
  let line := rstrip_char LF raw in
  if negb (truthy (strip line)) then
    Ok {| entries := flush (entries st) (current_entry st);
          current_entry := None; current_field := None; line_no := n |}
  else
    let e := entry_of st n in
    let next e' field :=
      {| entries := entries st; current_entry := Some e';
         current_field := field; line_no := n |} in
    if startswith (lit "#") line then
      let e1 := set_comments e (comments e ++ [line]) in
      let e2 :=
        if startswith (lit "#, ") line && contains (lit "fuzzy") line
        then set_fuzzy e1 true else e1 in
      let e3 :=
        if startswith (lit "#: ") line
        then set_references e2 (references e2 ++ [skipn 3 line])
        else e2 in
      Ok (next e3 (current_field st))
    else if startswith (lit "msgid ") line then
      let value := strip (skipn 6 line) in
      let e1 :=
        if Translate.quoted value
        then set_msgid e (unescape_po_string (slice_1_m1 value))
        else e in
      Ok (next e1 (Some (lit "msgid")))
    else if startswith (lit "msgid_plural ") line then
      let value := strip (skipn 13 line) in
      let e1 :=
        if Translate.quoted value
        then set_msgid_plural e
               (unescape_po_string (slice_1_m1 value))
        else e in
      Ok (next e1 (Some (lit "msgid_plural")))
    else if startswith (lit "msgstr ") line then
      let value := strip (skipn 7 line) in
      let e1 :=
        if Translate.quoted value
        then set_msgstr e (unescape_po_string (slice_1_m1 value))
        else e in
      Ok (next e1 (Some (lit "msgstr")))
    else if startswith (lit "msgstr[") line then
      match Translate.match_msgstr_plural line with
      | Some (g1, g2) =>
          idx <- int g1 ;;
          let value := unescape_po_string g2 in
          pl <- list_set (Translate.pad_plural (msgstr_plural e) idx)
                         (N.to_nat idx) value ;;
          Ok (next (set_msgstr_plural e pl)
                   (Some (lit "msgstr[" ++ str_of_N idx ++ lit "]")))
      | None => Ok (next e (current_field st))
      end
    else if Translate.quoted line then
      e1 <- continue_field e (current_field st)
              (unescape_po_string (slice_1_m1 line)) ;;
      Ok (next e1 (current_field st))
    else Ok (next e (current_field st)).

Fixpoint parse_lines (st : pstate) (ls : list str) : res pstate :=
  match ls with
  | [] => Ok st
  | l :: r => st' <- parse_line st l ;; parse_lines st' r
  end.

Definition parse_po_file (text : str) : res (list POEntry) :=
  st <- parse_lines init_pstate (Translate.readlines text) ;;
  Ok (flush (entries st) (current_entry st)).


(** *** class ValidationResult *)

Record ValidationResult := {
  errors : list str;
  warnings : list str;
  info : list str
}.

Definition new_ValidationResult : ValidationResult :=
  {| errors := []; warnings := []; info := [] |}.

(** [f"Line {line}: " if line else the empty string] *)
Definition line_prefix (line : N) : str :=
  if (line =? 0)%N then [] else lit "Line " ++ str_of_N line ++ lit ": ".

(** [f"[{check_name}] {prefix}{message}"] *)
Definition format_issue (check_name message : str) (line : N) : str :=
  lit "[" ++ check_name ++ lit "] " ++ line_prefix line ++ message.

Definition add_error (r : ValidationResult) (check_name message : str)
    (line : N) : ValidationResult :=
  {| errors := errors r ++ [format_issue check_name message line];
     warnings := warnings r; info := info r |}.

Definition add_warning (r : ValidationResult) (check_name message : str)
    (line : N) : ValidationResult :=
  {| errors := errors r;
     warnings := warnings r ++ [format_issue check_name message line];
     info := info r |}.

(** [passed]: no error *)
Definition passed (r : ValidationResult) : bool :=
  match errors r with [] => true | _ => false end.

(** *** validate_entry *)

(** [f"%{i}"] *)
Definition placeholder (i : N) : str := 37%N :: str_of_N i.

(** The message of a placeholder mismatch. *)
Definition mismatch_message (pattern : str) (msgid_count msgstr_count : nat)
  : str :=
  pattern ++ lit " count mismatch: msgid has "
  ++ str_of_N (N.of_nat msgid_count) ++ lit ", msgstr has "
  ++ str_of_N (N.of_nat msgstr_count).

(** Check 1, one iteration of [for i in range(1, 10)]. *)
Definition check_placeholder (e : POEntry) (r : ValidationResult) (i : N)
  : ValidationResult :=
  let pattern := placeholder i in
  let msgid_count := count pattern (msgid e) in
  let msgstr_count := count pattern (msgstr e) in
  if negb (msgid_count =? msgstr_count)
  then add_error r (lit "PLACEHOLDER_MISMATCH")
         (mismatch_message pattern msgid_count msgstr_count) (line_number e)
  else r.

(** The pattern [%[1-9]] at the start of a text. *)
Definition numbered_at (s : str) : bool :=
  match s with
  | 37%N :: c :: _ => ((49 <=? c) && (c <=? 57))%N
  | _ => false
  end.

(** The pattern [%[sdf]] at the start of a text. *)
Definition printf_at (s : str) : bool :=
  match s with
  | 37%N :: c :: _ => ((c =? 115) || (c =? 100) || (c =? 102))%N
  | _ => false
  end.

(** [re.search(p, s)] for a pattern tested at each position *)
Definition re_search (test : str -> bool) (s : str) : bool :=
  match findall_go test 2 0 s with [] => false | _ => true end.

(** [repr] of a list of strings that hold no quote and no escape *)
Definition repr_list (l : list str) : str :=
  lit "[" ++ join (lit ", ") (map (fun w => lit "'" ++ w ++ lit "'") l)
  ++ lit "]".

(** Check 2 *)
Definition check_wrong_format (e : POEntry) (r : ValidationResult)
  : ValidationResult :=
  if re_search numbered_at (msgid e) then
    let wrong_placeholders := findall_go printf_at 2 0 (msgstr e) in
    match wrong_placeholders with
    | [] => r
    | _ =>
        add_error r (lit "WRONG_PLACEHOLDER_FORMAT")
          (lit "msgstr uses " ++ repr_list wrong_placeholders
           ++ lit " but msgid uses %1 format")
          (line_number e)
    end
  else r.

(** The table of known mistranslations of a brand. *)
Definition mistranslations (brand : str) : list str :=
  if str_eqb brand (lit "KOAssistant") then
    [lit "KOAsistente"; lit "KOAssistent"; lit "KOAssistente";
     lit "KO" ++ [21161; 25163]%N;
     [1605; 1587; 1575; 1593; 1583]%N ++ lit " KO"]
  else [].

(** Check 3, one iteration of [for brand in BRAND_NAMES]. *)
Definition check_brand (e : POEntry) (r : ValidationResult) (brand : str)
  : ValidationResult :=
  if contains brand (msgid e) && negb (contains brand (msgstr e)) then
    match find (fun alt => contains alt (msgstr e)) (mistranslations brand)
    with
    | Some found_mistranslation =>
        add_error r (lit "BRAND_NAME_TRANSLATED")
          (lit "'" ++ brand ++ lit "' translated as '"
           ++ found_mistranslation ++ lit "' - should be preserved")
          (line_number e)
    | None =>
        add_warning r (lit "BRAND_NAME_MISSING")
          (lit "'" ++ brand ++ lit "' not found in translation (msgid: "
           ++ firstn 40 (msgid e) ++ lit "...)")
          (line_number e)
    end
  else r.

Section Checks.

(** [re.search(rf'\b{term}\b', text, re.IGNORECASE)]: the term as a
    whole word of the text, whatever the case, by Unicode's tables. *)
Variable re_search_word : str -> str -> bool.

(** Check 4, one iteration of [for term in TECHNICAL_TERMS]. *)
Definition check_term (e : POEntry) (r : ValidationResult) (term : str)
  : ValidationResult :=
  if re_search_word term (msgid e) && negb (re_search_word term (msgstr e))
  then add_warning r (lit "TECHNICAL_TERM_TRANSLATED")
         (lit "'" ++ term ++ lit "' appears translated (original: "
          ++ firstn 40 (msgid e) ++ lit "...)")
         (line_number e)
  else r.

(** Check 5 *)
Definition check_newlines (e : POEntry) (r : ValidationResult)
  : ValidationResult :=
  let msgid_newlines := count [LF] (msgid e) in
  let msgstr_newlines := count [LF] (msgstr e) in
  if negb (msgid_newlines =? msgstr_newlines)
  then add_warning r (lit "NEWLINE_MISMATCH")
         (lit "Newline count mismatch: msgid has "
          ++ str_of_N (N.of_nat msgid_newlines) ++ lit ", msgstr has "
          ++ str_of_N (N.of_nat msgstr_newlines))
         (line_number e)
  else r.

(** [validate_entry(entry, result, lang_code)]: the result after the
    call. *)
Definition validate_entry (entry : POEntry) (result : ValidationResult)
    (lang_code : str) : ValidationResult :=
  if negb (truthy (msgid entry)) then result
  else if negb (truthy (msgstr entry)) then
    add_warning result (lit "EMPTY_TRANSLATION")
      (lit "Untranslated: " ++ firstn 50 (msgid entry) ++ lit "...")
      (line_number entry)
  else
    let r1 := fold_left (check_placeholder entry)
                [1; 2; 3; 4; 5; 6; 7; 8; 9]%N result in
    let r2 := check_wrong_format entry r1 in
    let r3 := fold_left (check_brand entry) BRAND_NAMES r2 in
    let r4 := fold_left (check_term entry) TECHNICAL_TERMS r3 in
    check_newlines entry r4.

End Checks.

(** *** check_duplicates and validate_language *)

Definition add_info (r : ValidationResult) (check_name message : str)
  : ValidationResult :=
  {| errors := errors r; warnings := warnings r;
     info := info r ++ [lit "[" ++ check_name ++ lit "] " ++ message] |}.

(** The first loop of [check_duplicates]: the ids and lines of the
    entries, by translation. *)
Definition dup_step (groups : Dict (list (str * N))) (entry : POEntry)
  : Dict (list (str * N)) :=
  if truthy (msgstr entry) && truthy (msgid entry) then
    if 10 <? length (msgstr entry)
    then dict_append groups (msgstr entry) (msgid entry, line_number entry)
    else groups
  else groups.

Section Language.

Variable re_search_word : str -> str -> bool.

(** [repr] of a list of strings, as an f-string prints it. *)
Variable repr_strs : list str -> str.

(** [str(e)] for an exception. *)
Variable exn_text : exn -> str.

(** The second loop of [check_duplicates], one iteration; the warning
    carries no line. *)
Definition dup_warn (r : ValidationResult) (item : str * list (str * N))
  : ValidationResult :=
  let msgstr := fst item in
  let msgid_list := snd item in
  if 1 <? length msgid_list then
    let unique_msgids := set_of (map fst msgid_list) in
    if 1 <? length unique_msgids then
      let lines := map (fun m => str_of_N (snd m)) msgid_list in
      let msgids_preview :=
        map (fun m => firstn 30 (fst m)) (firstn 3 msgid_list) in
      add_warning r (lit "DUPLICATE_TRANSLATION")
        (lit "Same translation for different strings (lines "
         ++ join (lit ", ") (firstn 5 lines) ++ lit "): "
         ++ repr_strs msgids_preview ++ lit "... -> '"
         ++ firstn 40 msgstr ++ lit "...'")
        0
    else r
  else r.

Definition check_duplicates (entries : list POEntry)
    (result : ValidationResult) : ValidationResult :=
  fold_left dup_warn (fold_left dup_step entries []) result.

(** [validate_language], from the text of the file of the language on
    (the file exists). *)
Definition validate_language (lang_code : str) (text : str)
  : ValidationResult :=
  match parse_po_file text with
  | Ok entries =>
      let r1 :=
        add_info new_ValidationResult (lit "PARSE")
          (lit "Parsed " ++ str_of_N (N.of_nat (length entries))
           ++ lit " entries") in
      let translated :=
        length (filter (fun e => truthy (msgstr e) && truthy (msgid e))
                  entries) in
      let fuzzy_count := length (filter fuzzy entries) in
      let empty :=
        length (filter (fun e => negb (truthy (msgstr e))
                                 && truthy (msgid e)) entries) in
      let r2 :=
        add_info r1 (lit "STATS")
          (lit "Translated: " ++ str_of_N (N.of_nat translated)
           ++ lit ", Fuzzy: " ++ str_of_N (N.of_nat fuzzy_count)
           ++ lit ", Empty: " ++ str_of_N (N.of_nat empty)) in
      let r3 :=
        fold_left
          (fun r entry => validate_entry re_search_word entry r lang_code)
          entries r2 in
      check_duplicates entries r3
  | Raise e =>
      add_error new_ValidationResult (lit "PARSE_ERROR")
        (lit "Failed to parse file: " ++ exn_text e) 0
  end.

End Language.
End Validate.

(** * Sample inputs *)

Module Samples.

Import Translate.

(** The lines of a text, each closed by a line feed. *)
Definition text_of (lines : list str) : str :=
  concat (map (fun l => l ++ [LF]) lines).

(** A quoted literal. *)
Definition q (s : string) : str := qt (lit s).

(** An entry with the given id, translation, flags and comments. *)
Definition entry (id tr : str) (fl cs : list str) : POEntry :=
  {| comments := cs; references := []; flags := fl; msgid := id;
     msgid_plural := []; msgstr := tr; msgstr_plural := [];
     line_number := 1%N; is_header := false |}.

(** The two characters backslash, n. *)
Definition backslash_n : str := BSLASH :: lit "n".

(** A file with a header and one entry whose id has two equal lines. *)
Definition two_equal_lines_text : str :=
  text_of
    [lit "msgid " ++ q "";
     lit "msgstr " ++ qt (lit "Language: fr" ++ backslash_n);
     [];
     lit "msgid " ++ qt (lit "a" ++ backslash_n ++ lit "a");
     lit "msgstr " ++ q "x"].

(** An untranslated entry, and the translation an import supplies. *)
Definition cancel_entry : POEntry := entry (lit "Cancel") [] [] [].

Definition cancel_translations : Dict str := [(lit "Cancel", lit "Annuler")].

(** A verified entry followed by an untranslated one with the same id. *)
Definition save_verified : POEntry :=
  entry (lit "Save") (lit "Enregistrer") [] [].

Definition save_untranslated : POEntry := entry (lit "Save") [] [] [].

Definition save_import : ImportData :=
  {| data_translations :=
       Some [{| item_msgid := Some (lit "Save");
                item_msgstr := Some (lit "Sauver") |}];
     data_entries := None |}.

(** An untranslated entry with a reference and a translator's note. *)
Definition noted_entry : POEntry :=
  {| comments := [lit "#: main.lua:10"; lit "# shown in the menu"];
     references := [lit "main.lua:10"]; flags := []; msgid := lit "Open";
     msgid_plural := []; msgstr := []; msgstr_plural := [];
     line_number := 1%N; is_header := false |}.

(** An untranslated entry with a translator's note only. *)
Definition note_only_entry : POEntry :=
  {| comments := [lit "# shown in the menu"];
     references := []; flags := []; msgid := lit "Open";
     msgid_plural := []; msgstr := []; msgstr_plural := [];
     line_number := 1%N; is_header := false |}.

(** A source with a placeholder, not translated yet. *)
Definition untranslated_placeholder : Validate.POEntry :=
  Validate.set_msgid Validate.new_POEntry (lit "Delete %1 item(s)?").

(** The scenario of the cache size. *)
Definition cache_entry : Validate.POEntry :=
  Validate.set_msgstr
    (Validate.set_msgid Validate.new_POEntry (lit "Cache size: %1 MB"))
    (lit "Taille du cache : %d Mo").

(** The two errors of the scenario. *)
Definition cache_mismatch_error : str :=
  lit "[PLACEHOLDER_MISMATCH] %1 count mismatch: "
  ++ lit "msgid has 1, msgstr has 0".

Definition cache_format_error : str :=
  lit "[WRONG_PLACEHOLDER_FORMAT] msgstr uses ['%d'] "
  ++ lit "but msgid uses %1 format".


(** Two ids of one group, and an id of another. *)
Definition gesture_entries : list POEntry :=
  [entry (lit "KOAssistant: Chat") [] [] [];
   entry (lit "Reset settings") [] [] [];
   entry (lit "KOAssistant: Translate") [] [] []].

(** Two ids with one translation of more than ten characters. *)
Definition same_translation_entries : list Validate.POEntry :=
  [Validate.set_msgstr
     (Validate.set_msgid Validate.new_POEntry (lit "Clear history"))
     (lit "Effacer l'historique");
   Validate.set_msgstr
     (Validate.set_msgid Validate.new_POEntry (lit "Delete history"))
     (lit "Effacer l'historique")].

(** A file for the validator: a header, a translated entry and an
    untranslated one. *)
Definition three_entries_text : str :=
  text_of
    [lit "msgid " ++ q "";
     lit "msgstr " ++ qt (lit "Language: fr" ++ backslash_n);
     [];
     lit "msgid " ++ q "Cache size: %1 MB";
     lit "msgstr " ++ q "Taille du cache : %d Mo";
     [];
     lit "msgid " ++ q "Open";
     lit "msgstr " ++ q ""].
(** A header, an entry marked fuzzy whose texts hold quotes and a line
    feed, and an entry with plural forms. *)
Definition round_trip_entries : list POEntry :=
  [{| comments := []; references := []; flags := []; msgid := [];
      msgid_plural := []; msgstr := lit "Language: fr" ++ [LF];
      msgstr_plural := []; line_number := 1%N; is_header := true |};
   {| comments := [lit "#: main.lua:10"; lit "#, fuzzy"];
      references := [lit "main.lua:10"]; flags := [lit "fuzzy"];
      msgid := lit "Say " ++ qt (lit "hi"); msgid_plural := [];
      msgstr := lit "Dis " ++ qt (lit "salut") ++ [LF] ++ lit "encore";
      msgstr_plural := []; line_number := 4%N; is_header := false |};
   {| comments := []; references := []; flags := [];
      msgid := lit "%1 file"; msgid_plural := lit "%1 files";
      msgstr := []; msgstr_plural := [lit "%1 fichier"; lit "%1 fichiers"];
      line_number := 11%N; is_header := false |}].


End Samples.

(** * Notions used by the statements *)

Module Notions.

Import Translate.

(** The body of the comprehension that indexes the entries by id. *)
Definition index_step (d : Dict POEntry) (e : POEntry) : Dict POEntry :=
  if truthy (msgid e) then dict_set d (msgid e) e else d.

(** Every id of the mapping resolves, in the index, to an entry that is
    not verified. *)
Definition keys_unverified (idx : Dict POEntry) (tr : Dict str) : Prop :=
  forall k, dict_get tr k <> None ->
    exists e, dict_get idx k = Some e /\ is_verified e = false.

(** What the writer emits for one comment line: a flags line is written
    again from its flags, without fuzzy when it is to be removed, with
    fuzzy when it is to be added, and not at all when no flag is left;
    any other line is written as it is. *)
Definition rewrite_comment (should_remove_fuzzy should_add_fuzzy : bool)
    (comment : str) : str :=
  if startswith (lit "#,") comment then
    let flags0 := comment_flags comment in
    let flags1 :=
      if should_remove_fuzzy
      then filter (fun fl => negb (str_eqb fl (lit "fuzzy"))) flags0
      else flags0 in
    let flags2 :=
      if should_add_fuzzy && negb (mem (lit "fuzzy") flags1)
      then flags1 ++ [lit "fuzzy"] else flags1 in
    match flags2 with
    | [] => []
    | _ => lit "#, " ++ join (lit ", ") flags2 ++ [LF]
    end
  else comment ++ [LF].

(** What the writer emits for an entry after its comments. *)
Definition entry_body (entry : POEntry) : str :=
  write_msgid (msgid entry)
  ++ (if truthy (msgid_plural entry)
      then lit "msgid_plural " ++ qt (escape_po_string (msgid_plural entry))
           ++ [LF]
      else [])
  ++ concat (map (fun line => line ++ [LF])
               (format_msgstr_for_po (msgstr entry)))
  ++ write_plurals 0 (msgstr_plural entry).

(** Whether the entry has a flags comment line. *)
Definition has_flags_line (entry : POEntry) : bool :=
  existsb (startswith (lit "#,")) (comments entry).

(** Whether a comment line is a reference line. *)
Definition is_reference (c : str) : bool := startswith (lit "#:") c.







(** Every value of the dictionary is one of the keys [K]. *)
Definition vals_in (K : list str) (d : Dict str) : Prop :=
  forall m g, dict_get d m = Some g -> In g K.

(** The sibling strings of an entry, where [similar_of] returns. *)
Definition similar_strings_of (similar_map : Dict (list str))
    (entry : POEntry) : list str :=
  match similar_of similar_map (build_msgid_to_group similar_map) entry with
  | Ok l => l
  | Raise _ => []
  end.

(** The records of the entries of [l], in order, the first of them with
    the display id [z + 1]. *)
Fixpoint records_from (str_lower : str -> str)
    (similar_map : Dict (list str)) (z : Z) (l : list POEntry)
  : list BatchRecord :=
  match l with
  | [] => []
  | entry :: r =>
      {| r_id := z + 1;
         r_msgid := msgid entry;
         r_context := get_context_summary str_lower entry;
         r_references := firstn 3 (references entry);
         r_current_msgstr := msgstr entry;
         r_is_fuzzy := is_fuzzy entry;
         r_similar_strings := similar_strings_of similar_map entry |}
      :: records_from str_lower similar_map (z + 1) r
  end.

(** The records of one batch, where [extract_batch] returns. *)
Definition batch_records (str_lower : str -> str) (entries : list POEntry)
    (batch_num batch_size : Z) (similar_map : Dict (list str)) (mode : str)
  : list BatchRecord :=
  match extract_batch str_lower entries batch_num batch_size similar_map mode
  with
  | Ok (records, _) => records
  | Raise _ => []
  end.

(** The errors of a result that a given check has reported. *)
Definition errors_of (check : str) (r : Validate.ValidationResult)
  : list str :=
  filter (startswith (lit "[" ++ check ++ lit "]")) (Validate.errors r).

(** The errors of the checks 1 to 3 on an entry, from a fresh result. *)
Definition entry_errors (e : Validate.POEntry) : list str :=
  Validate.errors
    (fold_left (Validate.check_brand e) Validate.BRAND_NAMES
       (Validate.check_wrong_format e
          (fold_left (Validate.check_placeholder e)
             [1; 2; 3; 4; 5; 6; 7; 8; 9]%N Validate.new_ValidationResult))).

End Notions.

(** * Further notions *)

Module MoreNotions.

Import Translate.

(** The five kinds of characters the escapes tell apart. *)
Inductive char_kind := KBackslash | KQuote | KLineFeed | KTab | KPlain.

Definition kind_of (c : char) : char_kind :=
  if (c =? 92)%N then KBackslash
  else if (c =? 34)%N then KQuote
  else if (c =? 10)%N then KLineFeed
  else if (c =? 9)%N then KTab
  else KPlain.

(** What [escape_po_string] writes for one character. *)
Definition esc_char (c : char) : str :=
  match kind_of c with
  | KBackslash => [BSLASH; BSLASH]
  | KQuote => [BSLASH; DQUOTE]
  | KLineFeed => BSLASH :: lit "n"
  | KTab => BSLASH :: lit "t"
  | KPlain => [c]
  end.

(** The same after the first, the second and the third replacement of
    [unescape_po_string]. *)
Definition esc_char1 (c : char) : str :=
  match kind_of c with
  | KBackslash => [BSLASH; BSLASH]
  | KQuote => [BSLASH; DQUOTE]
  | KLineFeed => [LF]
  | KTab => BSLASH :: lit "t"
  | KPlain => [c]
  end.

Definition esc_char2 (c : char) : str :=
  match kind_of c with
  | KBackslash => [BSLASH; BSLASH]
  | KQuote => [BSLASH; DQUOTE]
  | _ => [c]
  end.

Definition esc_char3 (c : char) : str :=
  match kind_of c with
  | KBackslash => [BSLASH; BSLASH]
  | _ => [c]
  end.

(** No backslash of the text is directly followed by the letter n or
    the letter t. *)
Fixpoint backslashes_plain (s : str) : bool :=
  match s with
  | [] => true
  | c :: t =>
      negb ((c =? 92)%N
            && match t with
               | d :: _ => ((d =? 110) || (d =? 116))%N
               | [] => false
               end)
      && backslashes_plain t
  end.


(** The invariant of the scanning loop on the header flag: the entries
    read so far have an id or are the header, none but the first is the
    header, and neither is the open entry once an entry has been read. *)
Definition header_ok (st : pstate) : Prop :=
  Forall (fun e => truthy (msgid e) || is_header e = true) (entries st)
  /\ Forall (fun e => is_header e = false) (tl (entries st))
  /\ (entries st <> [] ->
      forall e, current_entry st = Some e -> is_header e = false).

(** [P] holds of the result of a computation that returns. *)
Definition ok_then {A : Type} (P : A -> Prop) (m : res A) : Prop :=
  match m with
  | Ok a => P a
  | Raise _ => True
  end.

(** What the results of an import hold, for the items [L] it may have
    read: a translation under an id comes from an item with that id, and
    the index by id resolves the id to an entry that is not verified;
    a skipped id resolves to a verified entry. *)
Definition import_ok (idx : Dict POEntry) (L : list Item) (st : ImportState)
  : Prop :=
  (forall k t,
     dict_get (translations st) k = Some t ->
     (exists e, dict_get idx k = Some e /\ is_verified e = false)
     /\ exists it, In it L /\ item_msgid it = Some k
                   /\ item_msgstr it = Some t)
  /\ (forall k,
        In k (skipped_verified st) ->
        exists e, dict_get idx k = Some e /\ is_verified e = true).

(** The ids [find_similar_strings] files under the group [g]: those of
    the entries that pass its guard and fall under the rule of [g], in
    the order of the file. *)
Definition group_ids (g : str) (es : list POEntry) : list str :=
  map msgid
    (filter
       (fun e =>
          negb (is_header e || negb (truthy (msgid e)))
          && match similar_group (msgid e) with
             | Some g' => str_eqb g g'
             | None => false
             end) es).

(** The names of the groups. *)
Definition group_names : list str :=
  [lit "KOAssistant: gestures"; lit "Menu actions"; lit "Popup actions";
   lit "Settings items"; lit "Reset/Restore actions"].

(** The ids and lines the duplicate check collects under the
    translation [s]. *)
Definition same_translation (s : str) (es : list Validate.POEntry)
  : list (str * N) :=
  map (fun e => (Validate.msgid e, Validate.line_number e))
    (filter
       (fun e =>
          truthy (Validate.msgstr e) && truthy (Validate.msgid e)
          && (10 <? length (Validate.msgstr e))
          && str_eqb s (Validate.msgstr e)) es).

(** Two entries with an id each, different ids, and one translation of
    more than ten characters. *)
Definition duplicate_pair (e1 e2 : Validate.POEntry) : Prop :=
  Validate.msgstr e1 = Validate.msgstr e2
  /\ 10 < length (Validate.msgstr e1)
  /\ Validate.msgid e1 <> []
  /\ Validate.msgid e2 <> []
  /\ Validate.msgid e1 <> Validate.msgid e2.

(** The test of the second loop of [check_duplicates] on an item. *)
Definition dup_reported (item : str * list (str * N)) : bool :=
  (1 <? length (snd item))
  && (1 <? length (set_of (map fst (snd item)))).

(** The tags of the errors [validate_entry] can add. *)
Definition entry_error_tag (m : str) : Prop :=
  startswith (lit "[PLACEHOLDER_MISMATCH] ") m = true
  \/ startswith (lit "[WRONG_PLACEHOLDER_FORMAT] ") m = true
  \/ startswith (lit "[BRAND_NAME_TRANSLATED] ") m = true.

(** A check that appends the same errors, all of them [P], to whatever
    result it is given. *)
Definition appends (P : str -> Prop)
    (f : Validate.ValidationResult -> Validate.ValidationResult) : Prop :=
  exists l, Forall P l
            /\ forall r, Validate.errors (f r) = Validate.errors r ++ l.

(** What the two readers of the scripts both keep of an entry: the
    comment lines, the id and its plural, the translation and its plural
    forms, and the line the entry starts at. *)
Definition translate_core (e : POEntry)
  : list str * str * str * str * list str * N :=
  (comments e, msgid e, msgid_plural e, msgstr e, msgstr_plural e,
   line_number e).

Definition validate_core (e : Validate.POEntry)
  : list str * str * str * str * list str * N :=
  (Validate.comments e, Validate.msgid e, Validate.msgid_plural e,
   Validate.msgstr e, Validate.msgstr_plural e, Validate.line_number e).

(** The states of the two scanning loops after the same lines. *)
Definition parsers_related (t : pstate) (v : Validate.pstate) : Prop :=
  map validate_core (Validate.entries v)
  = map translate_core (filter (fun e => truthy (msgid e)) (entries t))
  /\ option_map validate_core (Validate.current_entry v)
     = option_map translate_core (current_entry t)
  /\ Validate.current_field v = current_field t
  /\ Validate.line_no v = line_no t.

(** Two computations end alike: with related results, or with the same
    exception. *)
Definition related_res {A B : Type} (R : A -> B -> Prop) (a : res A)
    (b : res B) : Prop :=
  match a, b with
  | Ok x, Ok y => R x y
  | Raise x, Raise y => x = y
  | _, _ => False
  end.

(** What a file keeps of an entry: its comment lines, the id and its
    plural, the translation and its plural forms. *)
Definition entry_text (e : POEntry)
  : list str * str * str * str * list str :=
  (comments e, msgid e, msgid_plural e, msgstr e, msgstr_plural e).

(** The text [text] is made of whole lines, and they take the scanning
    loop from the state [st] to the state [st']. *)
Definition runs (st : pstate) (text : str) (st' : pstate) : Prop :=
  forall rest,
    parse_lines st (readlines (text ++ rest))
    = parse_lines st' (readlines rest).

(** The loop has read the entries [E]; the entry the next line is read
    into holds [t], with header flag [h]. *)
Definition at_entry (E : list POEntry) (st : pstate)
    (t : list str * str * str * str * list str) (h : bool) : Prop :=
  entries st = E
  /\ entry_text (entry_of st 0) = t
  /\ is_header (entry_of st 0) = h.

(** The same, with an entry open. *)
Definition reads (E : list POEntry) (st : pstate)
    (t : list str * str * str * str * list str) (h : bool) : Prop :=
  entries st = E
  /\ exists e, current_entry st = Some e /\ entry_text e = t
               /\ is_header e = h.

(** A comment line the writer gives back as it is: it starts with the
    comment sign and holds no line feed, and a flags line has the form
    the writer gives to flags lines. *)
Definition comment_kept (c : str) : Prop :=
  startswith (lit "#") c = true
  /\ ~ In LF c
  /\ (startswith (lit "#,") c = true ->
      lit "#, " ++ join (lit ", ") (comment_flags c) = c).

(** A text the file layer returns as it was written: it holds no
    carriage return, which would come back as a line feed. *)
Definition stored (s : str) : Prop := ~ In 13%N s.

(** The entries the theorem on writing and reading is about.  The
    last condition keeps the index of every plural form within the
    digits [int] converts. *)
Definition round_trip_entry (e : POEntry) : Prop :=
  Forall (fun c => comment_kept c /\ stored c) (comments e)
  /\ ~ In LF (msgid e)
  /\ Forall (fun s => backslashes_plain s = true /\ stored s)
       (msgid e :: msgid_plural e :: msgstr e :: msgstr_plural e)
  /\ (N.of_nat (length (msgstr_plural e))
      <= 10 ^ N.of_nat int_max_str_digits)%N.
End MoreNotions.

(** * Properties *)

Unset Implicit Arguments.

(** ** Facts on Python's strings, lists and dictionaries *)

Module PyFacts.

Lemma str_eqb_eq (a b : str) : str_eqb a b = true <-> a = b.
Proof.
  revert b; induction a as [|x a IH]; intros [|y b]; simpl;
    try (split; [discriminate | discriminate]); try tauto.
  rewrite andb_true_iff, N.eqb_eq, IH.
  split; [intros [-> ->]; reflexivity | intros H; inversion H; auto].
Qed.

Lemma str_eqb_refl (a : str) : str_eqb a a = true.
Proof. apply str_eqb_eq; reflexivity. Qed.

Lemma str_eqb_neq (a b : str) : str_eqb a b = false <-> a <> b.
Proof.
  rewrite <- str_eqb_eq. destruct (str_eqb a b); split; congruence.
Qed.

Lemma mem_In (x : str) (l : list str) : mem x l = true <-> In x l.
Proof.
  unfold mem. rewrite existsb_exists. split.
  - intros (y & Hy & E). apply str_eqb_eq in E. subst; assumption.
  - intros H. exists x. split; [assumption | apply str_eqb_refl].
Qed.

Lemma startswith_app (p s : str) : startswith p (p ++ s) = true.
Proof.
  induction p as [|x p IH]; simpl; [reflexivity|].
  rewrite N.eqb_refl; assumption.
Qed.

Lemma startswith_prefix (p s : str) :
  startswith p s = true <-> exists t, s = p ++ t.
Proof.
  revert s; induction p as [|x p IH]; intros s; simpl.
  - split; [intros _; exists s; reflexivity | reflexivity].
  - destruct s as [|y s].
    + split; [discriminate | intros (t & E); discriminate].
    + rewrite andb_true_iff, N.eqb_eq, IH. split.
      * intros (-> & t & ->). exists t; reflexivity.
      * intros (t & E). inversion E; subst. split; [reflexivity | eauto].
Qed.

(** *** Decimal numerals *)

Lemma decimal_value_ascii (d : N) :
  (d < 10)%N -> decimal_value (48 + d)%N = Some d.
Proof.
  intros H.
  assert (E : (d = 0 \/ d = 1 \/ d = 2 \/ d = 3 \/ d = 4 \/ d = 5 \/ d = 6
               \/ d = 7 \/ d = 8 \/ d = 9)%N) by lia.
  repeat (destruct E as [-> | E]; [reflexivity|]). subst; reflexivity.
Qed.

Lemma int_digits_app (s t : str) (acc : N) :
  int_digits acc (s ++ t) = bind (int_digits acc s) (fun v => int_digits v t).
Proof.
  revert acc; induction s as [|c s IH]; intros acc; simpl; [reflexivity|].
  destruct (decimal_value c); [apply IH | reflexivity].
Qed.

Lemma digits_fuel_value (fuel : nat) :
  forall n, (n < 2 ^ N.of_nat fuel)%N ->
    int_digits 0%N (digits_fuel fuel n) = Ok n.
Proof.
  induction fuel as [|f IH]; intros n Hn.
  - simpl in Hn. assert (n = 0%N) by lia. subst. reflexivity.
  - cbn [digits_fuel]. destruct (N.ltb_spec n 10) as [Hlt | Hge].
    + cbn [int_digits]. rewrite decimal_value_ascii by assumption.
      reflexivity.
    + rewrite int_digits_app, IH; cbn [bind int_digits].
      * rewrite decimal_value_ascii by (apply N.mod_lt; lia).
        f_equal. pose proof (N.div_mod n 10). lia.
      * rewrite Nnat.Nat2N.inj_succ, N.pow_succ_r' in Hn.
        apply N.Div0.div_lt_upper_bound. lia.
Qed.

Lemma digits_fuel_nonempty (fuel : nat) (n : N) :
  digits_fuel (S fuel) n <> [].
Proof.
  cbn [digits_fuel]. destruct (n <? 10)%N; [discriminate|].
  intros E. apply app_eq_nil in E. destruct E; discriminate.
Qed.

Lemma str_of_N_nonempty (n : N) : str_of_N n <> [].
Proof. apply digits_fuel_nonempty. Qed.

(** [int(str(n)) == n], for a numeral within the digit limit *)
Lemma int_str_of_N (n : N) :
  (length (str_of_N n) <= int_max_str_digits)%nat ->
  int (str_of_N n) = Ok n.
Proof.
  intros L. unfold int. pose proof (str_of_N_nonempty n) as Hne.
  destruct (str_of_N n) eqn:E; [congruence|]. rewrite <- E in *.
  rewrite (proj2 (Nat.leb_le _ _) L).
  unfold str_of_N. apply digits_fuel_value.
  rewrite Nnat.Nat2N.inj_succ, Nnat.N2Nat.id.
  destruct n as [|p]; [reflexivity|].
  apply N.log2_spec. lia.
Qed.




Lemma digits_fuel_length (fuel : nat) :
  forall n k,
    (n < 10 ^ N.of_nat k)%N -> (1 <= k)%nat ->
    (length (digits_fuel fuel n) <= k)%nat.
Proof.
  induction fuel as [|f IH]; intros n k Hn Hk; cbn [digits_fuel length];
    [lia|].
  destruct (N.ltb_spec n 10) as [Hlt | Hge]; [cbn [length]; lia|].
  rewrite length_app. cbn [length].
  destruct k as [|[|k]]; [lia | cbn in Hn; lia |].
  rewrite Nnat.Nat2N.inj_succ, N.pow_succ_r' in Hn.
  assert (L : (length (digits_fuel f (n / 10)) <= S k)%nat).
  { apply IH; [|lia]. apply N.Div0.div_lt_upper_bound. exact Hn. }
  lia.
Qed.

(** Numbers below the power of ten of the limit are written within the
    digit limit. *)
Lemma str_of_N_within (n : N) :
  (n < 10 ^ N.of_nat int_max_str_digits)%N ->
  (length (str_of_N n) <= int_max_str_digits)%nat.
Proof.
  intros H. unfold str_of_N. apply digits_fuel_length; [exact H|].
  unfold int_max_str_digits. lia.
Qed.



(** *** Dictionaries and sets *)

Lemma dict_get_set_same {V : Type} (d : Dict V) (k : str) (v : V) :
  dict_get (dict_set d k v) k = Some v.
Proof.
  induction d as [|[k' v'] d IH]; simpl.
  - rewrite str_eqb_refl; reflexivity.
  - destruct (str_eqb k k') eqn:E; simpl; rewrite E; [reflexivity | exact IH].
Qed.

Lemma dict_get_set_other {V : Type} (d : Dict V) (k k' : str) (v : V) :
  k <> k' -> dict_get (dict_set d k v) k' = dict_get d k'.
Proof.
  intros Hne. induction d as [|[k0 v0] d IH]; simpl.
  - apply not_eq_sym in Hne. apply str_eqb_neq in Hne. rewrite Hne.
    reflexivity.
  - destruct (str_eqb k k0) eqn:E; simpl.
    + apply str_eqb_eq in E. subst k0.
      apply not_eq_sym in Hne. apply str_eqb_neq in Hne. rewrite Hne.
      reflexivity.
    + destruct (str_eqb k' k0); [reflexivity | exact IH].
Qed.

Lemma dict_get_In_keys {V : Type} (d : Dict V) (k : str) :
  In k (dict_keys d) <-> dict_get d k <> None.
Proof.
  unfold dict_keys. induction d as [|[k' v'] d IH]; simpl.
  - split; [tauto | congruence].
  - destruct (str_eqb k k') eqn:E.
    + apply str_eqb_eq in E. subst. split; [discriminate | auto].
    + apply str_eqb_neq in E. rewrite <- IH. split.
      * intros [H | H]; [congruence | assumption].
      * auto.
Qed.

Lemma mem_set_add (s : list str) (x y : str) :
  mem x (set_add s y) = mem x s || str_eqb x y.
Proof.
  unfold set_add. destruct (mem y s) eqn:E.
  - destruct (str_eqb x y) eqn:Exy; [|rewrite orb_false_r; reflexivity].
    apply str_eqb_eq in Exy. subst. rewrite E. reflexivity.
  - unfold mem. rewrite existsb_app. simpl. rewrite orb_false_r.
    reflexivity.
Qed.

(** *** Searching *)

Lemma findall_of_contains (test : str -> bool) (n : nat) (sub s : str) :
  (forall t, startswith sub t = true -> test t = true) ->
  sub <> [] ->
  contains sub s = true -> findall_go test n 0 s <> [].
Proof.
  intros Ht Hne. induction s as [|c s IH]; simpl.
  - destruct sub; [congruence | discriminate].
  - intros H. apply orb_true_iff in H. destruct H as [H | H].
    + replace (test (c :: s)) with true; [discriminate|].
      symmetry. apply Ht. exact H.
    + destruct (test (c :: s)); [discriminate | apply IH, H].
Qed.

(** *** Indexing *)





(** *** Blank lines *)

Lemma lstrip_keeps (c : char) (s : str) :
  isspace c = false -> In c s -> In c (lstrip s).
Proof.
  intros Hc. induction s as [|a s IH]; [tauto|]. cbn [lstrip].
  destruct (isspace a) eqn:A; [|tauto].
  intros [-> | H]; [congruence | exact (IH H)].
Qed.

Lemma nonblank (c : char) (s : str) :
  isspace c = false -> In c s -> truthy (strip s) = true.
Proof.
  intros Hc H. unfold strip, rstrip.
  apply (lstrip_keeps c _ Hc), in_rev, (lstrip_keeps c _ Hc), in_rev in H.
  destruct (rev (lstrip (rev (lstrip s)))); [contradiction | reflexivity].
Qed.

End PyFacts.

(** ** translate.py *)

Module TranslateFacts.

Import Translate PyFacts Samples Notions.

(** *** The escapes *)

(** C4.  Unescaping does not invert escaping: the source text made of a
    backslash and the letter n is escaped to two backslashes and n, and
    the first replacement of [unescape_po_string] then reads the second
    backslash with the n as a line feed.  The claim asks for
    [unescape_po_string (escape_po_string s) = s] for every [s]. *)
Lemma unescape_escape_backslash_n :
  escape_po_string backslash_n = BSLASH :: backslash_n
  /\ unescape_po_string (escape_po_string backslash_n) = [BSLASH; LF]
  /\ unescape_po_string (escape_po_string backslash_n) <> backslash_n.
Proof. repeat split; vm_compute; congruence. Qed.

(** *** The round trip *)

(** C3.  Decoding, encoding and decoding again does not give back the
    entries of the first decoding: an id with the two equal lines [a]
    and [a] is written as two continuation lines without the line feed
    between them, since the writer recognises the last line by its text,
    and is read back as [aa]. *)
Lemma roundtrip_loses_line_break :
  exists es es',
    parse_po_file two_equal_lines_text = Ok es
    /\ write_po_file es [] []
       = text_of [lit "msgid " ++ q ""; lit "msgstr " ++ q "";
                  qt (lit "Language: fr" ++ backslash_n);
                  []; lit "msgid " ++ q ""; q "a"; q "a";
                  lit "msgstr " ++ q "x"]
    /\ parse_po_file (write_po_file es [] []) = Ok es'
    /\ map msgid es = [[]; lit "a" ++ [LF] ++ lit "a"]
    /\ map msgid es' = [[]; lit "aa"].
Proof.
  eexists. eexists.
  split; [vm_compute; reflexivity|].
  split; [vm_compute; reflexivity|].
  split; [vm_compute; reflexivity|].
  split; vm_compute; reflexivity.
Qed.


(** *** The fuzzy flag after an apply *)

(** C2.  On the path of unreviewed translations the fuzzy flag is not
    set on an entry that was empty: [apply_translations] has filled the
    translation when [write_po_file] tests [is_verified], so the entry
    counts as verified, no flags line is written, and the file read
    again holds the translation as a verified one.  The claim asks for
    the fuzzy flag on every id the apply has written. *)
Lemma unreviewed_apply_leaves_entry_verified :
  fst (apply_translations [cancel_entry] cancel_translations)
  = [set_msgstr cancel_entry (lit "Annuler")]
  /\ snd (apply_translations [cancel_entry] cancel_translations) = 1
  /\ snd (main_apply false [cancel_entry] cancel_translations)
     = text_of [lit "msgid " ++ q "Cancel"; lit "msgstr " ++ q "Annuler"]
  /\ exists e,
       parse_po_file (snd (main_apply false [cancel_entry] cancel_translations))
       = Ok [e]
       /\ msgstr e = lit "Annuler"
       /\ is_fuzzy e = false
       /\ is_verified e = true.
Proof.
  split; [vm_compute; reflexivity|].
  split; [vm_compute; reflexivity|].
  split; [vm_compute; reflexivity|].
  eexists. split; [vm_compute; reflexivity|].
  repeat split; vm_compute; reflexivity.
Qed.

(** *** The index of the entries by id *)

Lemma truthy_nonempty (s : str) : truthy s = true <-> s <> [].
Proof. destruct s; simpl; split; congruence. Qed.

Lemma build_msgid_to_entry_snoc (es : list POEntry) (e : POEntry) :
  build_msgid_to_entry (es ++ [e])
  = index_step (build_msgid_to_entry es) e.
Proof. unfold build_msgid_to_entry. rewrite fold_left_app. reflexivity. Qed.

(** What the index holds under an id is an entry of the list with that
    id, and the id is not empty. *)
Lemma lookup_sound (es : list POEntry) (m : str) (e : POEntry) :
  dict_get (build_msgid_to_entry es) m = Some e ->
  In e es /\ msgid e = m /\ truthy m = true.
Proof.
  revert e. induction es as [|x es IH] using rev_ind; intros e H.
  - discriminate.
  - rewrite build_msgid_to_entry_snoc in H. unfold index_step in H.
    destruct (truthy (msgid x)) eqn:T.
    + destruct (str_eqb (msgid x) m) eqn:E.
      * apply str_eqb_eq in E. subst m. rewrite dict_get_set_same in H.
        inversion H; subst. rewrite in_app_iff; simpl. auto.
      * apply str_eqb_neq in E. rewrite dict_get_set_other in H by assumption.
        destruct (IH _ H) as (? & ? & ?). rewrite in_app_iff. auto.
    + destruct (IH _ H) as (? & ? & ?). rewrite in_app_iff. auto.
Qed.

(** The index holds, under an id, the last entry that carries it. *)
Lemma lookup_last (l1 l2 : list POEntry) (e : POEntry) :
  truthy (msgid e) = true ->
  (forall e', In e' l2 -> msgid e' <> msgid e) ->
  dict_get (build_msgid_to_entry (l1 ++ e :: l2)) (msgid e) = Some e.
Proof.
  intros T. induction l2 as [|x l2 IH] using rev_ind; intros H.
  - rewrite build_msgid_to_entry_snoc. unfold index_step. rewrite T.
    apply dict_get_set_same.
  - replace (l1 ++ e :: l2 ++ [x]) with ((l1 ++ e :: l2) ++ [x])
      by (rewrite <- app_assoc; reflexivity).
    rewrite build_msgid_to_entry_snoc. unfold index_step.
    assert (Hx : msgid x <> msgid e)
      by (apply H; rewrite in_app_iff; simpl; auto).
    assert (IH' : dict_get (build_msgid_to_entry (l1 ++ e :: l2)) (msgid e)
                  = Some e)
      by (apply IH; intros e' He'; apply H; rewrite in_app_iff; auto).
    destruct (truthy (msgid x)); [|exact IH'].
    rewrite dict_get_set_other by assumption. exact IH'.
Qed.

(** With ids that are unique in the file, the index holds every entry
    under its id. *)
Lemma lookup_unique (es : list POEntry) (e : POEntry) :
  NoDup (map msgid es) -> In e es -> truthy (msgid e) = true ->
  dict_get (build_msgid_to_entry es) (msgid e) = Some e.
Proof.
  intros ND Hin T. apply in_split in Hin. destruct Hin as (l1 & l2 & ->).
  apply lookup_last; [assumption|].
  intros e' He' E. rewrite map_app in ND. simpl in ND.
  apply NoDup_remove_2 in ND. apply ND. rewrite in_app_iff. right.
  rewrite <- E. apply in_map. assumption.
Qed.

(** *** import_translations *)

Lemma import_item_keys (idx : Dict POEntry) (st : ImportState) (it : Item) :
  keys_unverified idx (translations st) ->
  keys_unverified idx (translations (import_item idx st it)).
Proof.
  intros I. unfold import_item.
  destruct (item_msgid it) as [m|]; [|exact I].
  destruct (truthy m); simpl; [|exact I].
  destruct (dict_get idx m) as [e|] eqn:L; [|exact I].
  destruct (is_verified e) eqn:V; [exact I|].
  destruct (item_msgstr it) as [t|]; [|exact I].
  simpl. intros k Hk. destruct (str_eqb m k) eqn:E.
  - apply str_eqb_eq in E. subst k. eauto.
  - apply str_eqb_neq in E. rewrite dict_get_set_other in Hk by assumption.
    apply I; assumption.
Qed.

Lemma import_fold_keys (idx : Dict POEntry) (items : list Item) :
  forall st, keys_unverified idx (translations st) ->
    keys_unverified idx (translations (fold_left (import_item idx) items st)).
Proof.
  induction items as [|it items IH]; intros st I; simpl; [exact I|].
  apply IH, import_item_keys, I.
Qed.

Lemma import_translations_keys (data : ImportData) (es : list POEntry) :
  keys_unverified (build_msgid_to_entry es)
    (translations (import_translations data es)).
Proof.
  unfold import_translations. apply import_fold_keys.
  intros k Hk. simpl in Hk. congruence.
Qed.

Lemma import_item_skipped_mono (idx : Dict POEntry) (st : ImportState)
    (it : Item) (m : str) :
  mem m (skipped_verified st) = true ->
  mem m (skipped_verified (import_item idx st it)) = true.
Proof.
  intros H. unfold import_item.
  destruct (item_msgid it) as [k|]; [|exact H].
  destruct (truthy k); simpl; [|exact H].
  destruct (dict_get idx k) as [e|]; [|exact H].
  destruct (is_verified e); [|destruct (item_msgstr it); exact H].
  simpl. rewrite mem_set_add, H. reflexivity.
Qed.

Lemma import_fold_skipped_mono (idx : Dict POEntry) (items : list Item)
    (m : str) :
  forall st, mem m (skipped_verified st) = true ->
    mem m (skipped_verified (fold_left (import_item idx) items st)) = true.
Proof.
  induction items as [|it items IH]; intros st H; simpl; [exact H|].
  apply IH, import_item_skipped_mono, H.
Qed.

Lemma import_item_skips (idx : Dict POEntry) (st : ImportState) (it : Item)
    (m : str) (e : POEntry) :
  item_msgid it = Some m -> dict_get idx m = Some e ->
  truthy m = true -> is_verified e = true ->
  mem m (skipped_verified (import_item idx st it)) = true.
Proof.
  intros Hm L T V. unfold import_item. rewrite Hm, T, L, V. simpl.
  rewrite mem_set_add, str_eqb_refl. apply orb_true_r.
Qed.

Lemma import_fold_skips (idx : Dict POEntry) (items : list Item) (it : Item)
    (m : str) (e : POEntry) :
  In it items -> item_msgid it = Some m -> dict_get idx m = Some e ->
  truthy m = true -> is_verified e = true ->
  forall st,
    mem m (skipped_verified (fold_left (import_item idx) items st)) = true.
Proof.
  intros Hin Hm L T V. induction items as [|x items IH]; [contradiction|].
  intros st. simpl. destruct Hin as [-> | Hin].
  - apply import_fold_skipped_mono. eapply import_item_skips; eassumption.
  - apply IH; assumption.
Qed.

(** *** apply_translations and filter_entries *)

Lemma apply_translations_map (es : list POEntry) (tr : Dict str) :
  fst (apply_translations es tr) = map (fun e => fst (apply_entry tr e)) es.
Proof.
  induction es as [|e es IH]; simpl; [reflexivity|].
  destruct (apply_entry tr e) as [e' w].
  destruct (apply_translations es tr) as [r n]. simpl in *.
  rewrite IH. reflexivity.
Qed.

Lemma apply_entry_verified (tr : Dict str) (e : POEntry) :
  is_verified e = true -> apply_entry tr e = (e, false).
Proof.
  intros V. unfold apply_entry. rewrite V.
  destruct (dict_get tr (msgid e)); reflexivity.
Qed.

Lemma filter_keeps_verified (mode : str) (e : POEntry) :
  is_verified e = true -> filter_keeps mode e = false.
Proof.
  intros V. unfold filter_keeps. rewrite V.
  destruct (is_header e || negb (truthy (msgid e))); reflexivity.
Qed.

Lemma lookup_exists (es : list POEntry) (e : POEntry) :
  In e es -> truthy (msgid e) = true ->
  exists e', dict_get (build_msgid_to_entry es) (msgid e) = Some e'.
Proof.
  intros Hin T. induction es as [|x es IH] using rev_ind; [contradiction|].
  rewrite build_msgid_to_entry_snoc. unfold index_step.
  apply in_app_iff in Hin. destruct Hin as [Hin | [-> | []]].
  - destruct (IH Hin) as (e' & He'). destruct (truthy (msgid x)); [|eauto].
    destruct (str_eqb (msgid x) (msgid e)) eqn:E.
    + apply str_eqb_eq in E. rewrite <- E, dict_get_set_same. eauto.
    + apply str_eqb_neq in E. rewrite dict_get_set_other by assumption. eauto.
  - rewrite T, dict_get_set_same. eauto.
Qed.

(** *** The protection of verified entries *)

(** C1.  In a file whose ids are unique, for every entry [e] that is
    verified: no mode of [filter_entries] keeps it;
    [import_translations] never places its id in the mapping it
    returns, and records the id among the skipped ids as soon as an item
    carries it; and [apply_translations] leaves the entry as it is,
    whatever the mapping holds under its id. *)
Theorem verified_entry_protected (es : list POEntry) (e : POEntry) :
  NoDup (map msgid es) ->
  In e es -> is_verified e = true ->
  (forall mode, ~ In e (filter_entries es mode))
  /\ (forall data,
        dict_get (translations (import_translations data es)) (msgid e)
        = None
        /\ (forall it, In it (import_items data) ->
                       item_msgid it = Some (msgid e) ->
                       truthy (msgid e) = true ->
                       mem (msgid e)
                         (skipped_verified (import_translations data es))
                       = true))
  /\ (forall tr i,
        nth_error es i = Some e ->
        nth_error (fst (apply_translations es tr)) i = Some e).
Proof.
  intros ND Hin V.
  assert (Hl : forall e',
             dict_get (build_msgid_to_entry es) (msgid e) = Some e' ->
             is_verified e' = true).
  { intros e' L. destruct (truthy (msgid e)) eqn:T.
    - rewrite (lookup_unique es e ND Hin T) in L. inversion L; subst.
      assumption.
    - apply lookup_sound in L. destruct L as (_ & _ & T'). congruence. }
  split; [|split].
  - intros mode H. unfold filter_entries in H. apply filter_In in H.
    destruct H as [_ H]. rewrite filter_keeps_verified in H by assumption.
    discriminate.
  - intros data. split.
    + destruct (dict_get (translations (import_translations data es))
                  (msgid e)) as [t|] eqn:G; [|reflexivity].
      destruct (import_translations_keys data es (msgid e))
        as (e' & L & V'); [congruence|].
      rewrite (Hl _ L) in V'. discriminate.
    + intros it Hit Hm T.
      destruct (lookup_exists es e Hin T) as (e' & L).
      unfold import_translations.
      eapply import_fold_skips; try eassumption. apply Hl, L.
  - intros tr i H. rewrite apply_translations_map.
    rewrite nth_error_map, H. simpl.
    rewrite apply_entry_verified by assumption. reflexivity.
Qed.

Lemma verified_entry_protected_witness :
  NoDup (map msgid [save_verified; cancel_entry])
  /\ In save_verified [save_verified; cancel_entry]
  /\ is_verified save_verified = true
  /\ ~ In save_verified
       (filter_entries [save_verified; cancel_entry] (lit "all"))
  /\ dict_get
       (translations
          (import_translations save_import [save_verified; cancel_entry]))
       (msgid save_verified) = None
  /\ mem (msgid save_verified)
       (skipped_verified
          (import_translations save_import [save_verified; cancel_entry]))
     = true.
Proof.
  assert (ND : NoDup (map msgid [save_verified; cancel_entry])).
  { repeat constructor; cbn [In map]; [|tauto].
    intros [E | []]. discriminate E. }
  assert (Hin : In save_verified [save_verified; cancel_entry])
    by (left; reflexivity).
  assert (V : is_verified save_verified = true) by reflexivity.
  pose proof (verified_entry_protected [save_verified; cancel_entry]
                save_verified ND Hin V) as (F & I & _).
  split; [exact ND|]. split; [exact Hin|]. split; [exact V|].
  split; [exact (F (lit "all"))|].
  split; [exact (proj1 (I save_import))|].
  apply (proj2 (I save_import)
           {| item_msgid := Some (lit "Save");
              item_msgstr := Some (lit "Sauver") |});
    [left; reflexivity | reflexivity | reflexivity].
Defined.

(** Outside such files: when a verified entry is followed by an entry
    with the same id that is not verified, the index by id holds the
    later entry, and the import places the id in the mapping and skips
    nothing. *)
Lemma duplicate_id_resolves_to_last :
  In save_verified [save_verified; save_untranslated]
  /\ is_verified save_verified = true
  /\ dict_get
       (translations
          (import_translations save_import [save_verified; save_untranslated]))
       (msgid save_verified) = Some (lit "Sauver")
  /\ skipped_verified
       (import_translations save_import [save_verified; save_untranslated])
     = [].
Proof.
  split; [left; reflexivity|]. repeat split; vm_compute; reflexivity.
Qed.

(** *** Items without a translation *)

(** C10.  An item whose id resolves, in the index by id, to an entry
    that is not verified, and whose translation is absent or null,
    leaves the three results of the import as they are: the iteration
    on it changes nothing, and the import of a list that holds it, under
    either key of the document, equals the import of the list without
    it. *)
Theorem null_translation_dropped (es : list POEntry) (it : Item) (m : str)
    (e : POEntry) :
  item_msgid it = Some m ->
  dict_get (build_msgid_to_entry es) m = Some e ->
  is_verified e = false ->
  item_msgstr it = None ->
  (forall st, import_item (build_msgid_to_entry es) st it = st)
  /\ (forall l1 l2 other,
        import_translations
          {| data_translations := Some (l1 ++ it :: l2);
             data_entries := other |} es
        = import_translations
            {| data_translations := Some (l1 ++ l2);
               data_entries := other |} es)
  /\ (forall l1 l2,
        import_translations
          {| data_translations := None;
             data_entries := Some (l1 ++ it :: l2) |} es
        = import_translations
            {| data_translations := None;
               data_entries := Some (l1 ++ l2) |} es).
Proof.
  intros Hm L V Hs.
  assert (Hstep : forall st, import_item (build_msgid_to_entry es) st it = st).
  { intros st. unfold import_item.
    destruct (lookup_sound es m e L) as (_ & _ & T).
    rewrite Hm, T, L, V, Hs. reflexivity. }
  split; [exact Hstep|].
  split; intros; unfold import_translations, import_items; simpl;
    rewrite !fold_left_app; simpl; rewrite Hstep; reflexivity.
Qed.

Lemma null_translation_dropped_witness :
  import_item (build_msgid_to_entry [save_untranslated])
    {| translations := []; errors := []; skipped_verified := [] |}
    {| item_msgid := Some (lit "Save"); item_msgstr := None |}
  = {| translations := []; errors := []; skipped_verified := [] |}.
Proof.
  apply (proj1 (null_translation_dropped [save_untranslated]
                  {| item_msgid := Some (lit "Save"); item_msgstr := None |}
                  (lit "Save") save_untranslated
                  eq_refl eq_refl eq_refl eq_refl)).
Defined.

(** *** The flags line in the written file *)

Lemma write_comments_spec (rm add : bool) (cs : list str) :
  forall w,
    write_comments rm add cs w
    = (concat (map (rewrite_comment rm add) cs),
       w || existsb (startswith (lit "#,")) cs).
Proof.
  induction cs as [|c cs IH]; intros w.
  - cbn. rewrite orb_false_r. reflexivity.
  - cbn [write_comments map concat existsb]. unfold rewrite_comment at 1.
    destruct (startswith (lit "#,") c) eqn:E; rewrite IH;
      cbv beta iota zeta; cbn [orb].
    + rewrite orb_true_r. reflexivity.
    + rewrite <- app_assoc. reflexivity.
Qed.

Lemma write_entry_spec (rm add : list str) (e : POEntry) :
  write_entry rm add e
  = concat (map (rewrite_comment (mem (msgid e) rm)
                   (mem (msgid e) add && negb (is_verified e)))
              (comments e))
    ++ (if mem (msgid e) add && negb (is_verified e)
           && negb (has_flags_line e)
        then lit "#, fuzzy" ++ [LF] else [])
    ++ entry_body e.
Proof.
  unfold write_entry. rewrite write_comments_spec. reflexivity.
Qed.

Lemma rewrite_comment_plain (rm add : bool) (cs : list str) :
  existsb (startswith (lit "#,")) cs = false ->
  concat (map (rewrite_comment rm add) cs) = text_of cs.
Proof.
  unfold text_of. induction cs as [|c cs IH]; [reflexivity|].
  cbn [existsb map concat]. intros H.
  apply orb_false_iff in H. destruct H as [Hc Hcs].
  unfold rewrite_comment at 1. rewrite Hc, IH by assumption. reflexivity.
Qed.

Lemma last_ref_idx_app (a b : list str) :
  forall i ref,
    last_ref_idx (a ++ b) i ref
    = last_ref_idx b (i + Z.of_nat (length a)) (last_ref_idx a i ref).
Proof.
  induction a as [|c a IH]; intros i ref.
  - simpl. rewrite Z.add_0_r. reflexivity.
  - cbn [app last_ref_idx length]. rewrite IH. f_equal. lia.
Qed.

Lemma last_ref_idx_none (l : list str) :
  existsb is_reference l = false ->
  forall i ref, last_ref_idx l i ref = ref.
Proof.
  induction l as [|c l IH]; intros H i ref; [reflexivity|].
  cbn [existsb] in H. apply orb_false_iff in H. destruct H as [Hc Hl].
  cbn [last_ref_idx]. unfold is_reference in Hc. rewrite Hc. apply IH, Hl.
Qed.

Lemma list_insert_after (A : Type) (l1 l2 : list A) (r x : A) :
  list_insert (l1 ++ r :: l2) (Z.of_nat (length l1) + 1) x
  = l1 ++ r :: x :: l2.
Proof.
  unfold list_insert.
  replace (Z.to_nat (Z.of_nat (length l1) + 1)) with (length l1 + 1)%nat
    by lia.
  replace (l1 ++ r :: l2) with ((l1 ++ [r]) ++ l2)
    by (rewrite <- app_assoc; reflexivity).
  assert (L : length (l1 ++ [r]) = (length l1 + 1)%nat)
    by (rewrite length_app; reflexivity).
  rewrite <- L, firstn_app, skipn_app, firstn_all, skipn_all.
  rewrite Nat.sub_diag. simpl. rewrite app_nil_r, <- app_assoc. reflexivity.
Qed.

(** C9, as the code has it.  The writer emits, for an entry, its comment
    lines in order, each flags line written again from its flags and
    every other line as it is, then a [#, fuzzy] line when fuzzy is to
    be added and the entry has no flags line, then the fields.  So the
    flags line it makes up comes after all the comments of the entry,
    just before the id.  The place after the last reference comment, or
    the start of the comments without one, is where [add_fuzzy] puts the
    line in the comments of an entry in memory. *)
Theorem fuzzy_line_written (rm add : list str) (e : POEntry) :
  write_entry rm add e
  = concat (map (rewrite_comment (mem (msgid e) rm)
                   (mem (msgid e) add && negb (is_verified e)))
              (comments e))
    ++ (if mem (msgid e) add && negb (is_verified e)
           && negb (has_flags_line e)
        then lit "#, fuzzy" ++ [LF] else [])
    ++ entry_body e
  /\ (forall sr sa c, startswith (lit "#,") c = false ->
                      rewrite_comment sr sa c = c ++ [LF])
  /\ (mem (msgid e) add && negb (is_verified e) = true ->
      has_flags_line e = false ->
      write_entry rm add e
      = text_of (comments e) ++ lit "#, fuzzy" ++ [LF] ++ entry_body e)
  /\ (is_fuzzy e = false -> has_flags_line e = false ->
      (existsb is_reference (comments e) = false ->
       comments (add_fuzzy e) = lit "#, fuzzy" :: comments e)
      /\ (forall l1 r l2,
            comments e = l1 ++ r :: l2 ->
            is_reference r = true -> existsb is_reference l2 = false ->
            comments (add_fuzzy e) = l1 ++ r :: lit "#, fuzzy" :: l2)).
Proof.
  split; [apply write_entry_spec|].
  split.
  { intros sr sa c Hc. unfold rewrite_comment. rewrite Hc. reflexivity. }
  split.
  { intros Ha Hf. rewrite write_entry_spec, Ha, Hf. simpl.
    unfold has_flags_line in Hf. rewrite rewrite_comment_plain by assumption.
    reflexivity. }
  intros Hz Hf. unfold is_fuzzy in Hz. unfold has_flags_line in Hf.
  assert (Hadd : comments (add_fuzzy e)
                 = list_insert (comments e)
                     (last_ref_idx (comments e) 0 (-1) + 1) (lit "#, fuzzy")).
  { unfold add_fuzzy. rewrite Hz. cbn [negb]. cbv zeta.
    cbn [comments set_flags]. rewrite Hf. reflexivity. }
  split.
  - intros Hr. rewrite Hadd, last_ref_idx_none by assumption. reflexivity.
  - intros l1 r l2 E Hr Hl2. rewrite Hadd, E.
    rewrite last_ref_idx_app. cbn [last_ref_idx].
    unfold is_reference in Hr. rewrite Hr.
    rewrite last_ref_idx_none by assumption.
    rewrite Z.add_0_l. apply list_insert_after.
Qed.

Lemma fuzzy_line_written_witness :
  mem (msgid noted_entry) [lit "Open"] && negb (is_verified noted_entry)
  = true
  /\ has_flags_line noted_entry = false
  /\ write_entry [] [lit "Open"] noted_entry
     = text_of (comments noted_entry) ++ lit "#, fuzzy" ++ [LF]
       ++ entry_body noted_entry
  /\ comments (add_fuzzy noted_entry)
     = [lit "#: main.lua:10"; lit "#, fuzzy"; lit "# shown in the menu"].
Proof.
  pose proof (fuzzy_line_written [] [lit "Open"] noted_entry)
    as (_ & _ & W & A).
  split; [reflexivity|]. split; [reflexivity|].
  split; [exact (W eq_refl eq_refl)|].
  exact (proj2 (A eq_refl eq_refl) [] (lit "#: main.lua:10")
           [lit "# shown in the menu"] eq_refl eq_refl eq_refl).
Defined.

(** C9, as the claim has it, fails on an entry with a note after its
    reference, and on an entry with a note and no reference: fuzzy is to
    be added, there is no flags line, and the line made up is written
    after the note, not after the reference or before the note. *)
Lemma fuzzy_line_after_all_comments :
  (mem (msgid noted_entry) [lit "Open"] && negb (is_verified noted_entry)
   = true
   /\ has_flags_line noted_entry = false
   /\ write_entry [] [lit "Open"] noted_entry
      = text_of [lit "#: main.lua:10"; lit "# shown in the menu";
                 lit "#, fuzzy"; lit "msgid " ++ q "Open";
                 lit "msgstr " ++ q ""]
   /\ write_entry [] [lit "Open"] noted_entry
      <> text_of [lit "#: main.lua:10"; lit "#, fuzzy";
                  lit "# shown in the menu"; lit "msgid " ++ q "Open";
                  lit "msgstr " ++ q ""])
  /\ (has_flags_line note_only_entry = false
      /\ write_entry [] [lit "Open"] note_only_entry
         = text_of [lit "# shown in the menu"; lit "#, fuzzy";
                    lit "msgid " ++ q "Open"; lit "msgstr " ++ q ""]
      /\ write_entry [] [lit "Open"] note_only_entry
         <> text_of [lit "#, fuzzy"; lit "# shown in the menu";
                     lit "msgid " ++ q "Open"; lit "msgstr " ++ q ""]).
Proof.
  repeat split; try (vm_compute; reflexivity); vm_compute; discriminate.
Qed.

(** *** extract_batch: the records *)

Lemma vals_in_set (K : list str) (d : Dict str) (m g : str) :
  vals_in K d -> In g K -> vals_in K (dict_set d m g).
Proof.
  intros Hd Hg m' g' H. destruct (str_eqb m m') eqn:E.
  - apply str_eqb_eq in E. subst m'. rewrite dict_get_set_same in H.
    inversion H; subst; assumption.
  - apply str_eqb_neq in E. rewrite dict_get_set_other in H by assumption.
    eapply Hd; eassumption.
Qed.

Lemma vals_in_group (K : list str) (g : str) (ms : list str) :
  In g K -> forall d, vals_in K d ->
  vals_in K (fold_left (fun d' m => dict_set d' m g) ms d).
Proof.
  intros Hg. induction ms as [|m ms IH]; intros d Hd; simpl; [exact Hd|].
  apply IH, vals_in_set; assumption.
Qed.

Lemma vals_in_groups (K : list str) (items : Dict (list str)) :
  (forall it, In it items -> In (fst it) K) ->
  forall d, vals_in K d ->
  vals_in K
    (fold_left
       (fun d (item : str * list str) =>
          fold_left (fun d' m => dict_set d' m (fst item)) (snd item) d)
       items d).
Proof.
  induction items as [|it items IH]; intros HK d Hd; simpl; [exact Hd|].
  apply IH; [intros; apply HK; right; assumption|].
  apply vals_in_group; [apply HK; left; reflexivity | exact Hd].
Qed.

(** Every group of [msgid_to_group] is a key of [similar_map]. *)
Lemma build_msgid_to_group_vals (similar_map : Dict (list str)) :
  vals_in (dict_keys similar_map) (build_msgid_to_group similar_map).
Proof.
  unfold build_msgid_to_group. apply vals_in_groups.
  - intros it Hit. unfold dict_keys. apply in_map. exact Hit.
  - intros m g H. discriminate.
Qed.

(** So the lookup of the group never raises [KeyError]. *)
Lemma similar_of_ok (similar_map : Dict (list str)) (e : POEntry) :
  similar_of similar_map (build_msgid_to_group similar_map) e
  = Ok (similar_strings_of similar_map e).
Proof.
  unfold similar_strings_of.
  destruct (similar_of similar_map (build_msgid_to_group similar_map) e)
    as [l | x] eqn:E; [reflexivity | exfalso].
  unfold similar_of in E.
  destruct (dict_get (build_msgid_to_group similar_map) (msgid e))
    as [g|] eqn:G; [|discriminate].
  destruct (truthy g); [|discriminate].
  destruct (dict_get similar_map g) eqn:S; [discriminate|].
  apply build_msgid_to_group_vals in G.
  apply dict_get_In_keys in G. congruence.
Qed.

Lemma build_records_ok lower (similar_map : Dict (list str))
    (l : list POEntry) :
  forall start i,
    build_records lower similar_map (build_msgid_to_group similar_map)
      start i l
    = Ok (records_from lower similar_map (start + i) l).
Proof.
  induction l as [|e l IH]; intros start i; [reflexivity|].
  cbn [build_records records_from]. rewrite similar_of_ok. cbn [bind].
  rewrite IH. cbn [bind]. rewrite Z.add_assoc. reflexivity.
Qed.

Lemma records_from_app lower (similar_map : Dict (list str))
    (a b : list POEntry) :
  forall z,
    records_from lower similar_map z (a ++ b)
    = records_from lower similar_map z a
      ++ records_from lower similar_map (z + Z.of_nat (length a)) b.
Proof.
  induction a as [|e a IH]; intros z.
  - simpl. rewrite Z.add_0_r. reflexivity.
  - cbn [app records_from length]. rewrite IH. do 3 f_equal. lia.
Qed.

Lemma records_from_ids lower (similar_map : Dict (list str))
    (l : list POEntry) :
  forall z,
    map r_id (records_from lower similar_map z l)
    = map (fun i => z + Z.of_nat i)%Z (seq 1 (length l)).
Proof.
  induction l as [|e l IH]; intros z; [reflexivity|].
  cbn [records_from map length seq r_id]. rewrite IH. f_equal.
  rewrite <- (seq_shift (length l) 1), map_map. apply map_ext.
  intros i. lia.
Qed.

Lemma records_from_entries lower (similar_map : Dict (list str))
    (l : list POEntry) :
  forall z,
    map (fun r => (r_msgid r, r_current_msgstr r, r_is_fuzzy r))
      (records_from lower similar_map z l)
    = map (fun e => (msgid e, msgstr e, is_fuzzy e)) l.
Proof.
  induction l as [|e l IH]; intros z; [reflexivity|].
  cbn [records_from map]. rewrite IH. reflexivity.
Qed.

(** *** extract_batch: the batches *)

Lemma firstn_min_length (A : Type) (x : nat) (l : list A) :
  firstn (Nat.min x (length l)) l = firstn x l.
Proof.
  destruct (Nat.le_gt_cases x (length l)) as [H | H].
  - rewrite Nat.min_l by assumption. reflexivity.
  - rewrite Nat.min_r by lia. rewrite firstn_all, firstn_all2 by lia.
    reflexivity.
Qed.

Lemma firstn_plus (A : Type) (a b : nat) :
  forall l : list A, firstn (a + b) l = firstn a l ++ firstn b (skipn a l).
Proof.
  induction a as [|a IH]; intros l; [reflexivity|].
  destruct l as [|x l]; simpl.
  - rewrite firstn_nil. reflexivity.
  - rewrite IH. reflexivity.
Qed.

(** A slice between bounds that lie in the list. *)
Lemma slice_within (A : Type) (l : list A) (a b : Z) :
  (0 <= a <= Z.of_nat (length l))%Z -> (0 <= b <= Z.of_nat (length l))%Z ->
  slice l a b = firstn (Z.to_nat (b - a)) (skipn (Z.to_nat a) l).
Proof.
  intros Ha Hb. unfold slice, norm_index.
  destruct (Z.ltb_spec a 0); [lia|]. destruct (Z.ltb_spec b 0); [lia|].
  rewrite !Z.min_l by lia. reflexivity.
Qed.

(** The number of batches is the quotient rounded up. *)
Lemma ceil_bounds (n bs : Z) :
  (0 <= n)%Z -> (1 <= bs)%Z ->
  (n <= (n + bs - 1) / bs * bs < n + bs)%Z.
Proof.
  intros Hn Hbs.
  pose proof (Z.div_mod (n + bs - 1) bs ltac:(lia)) as E.
  pose proof (Z.mod_pos_bound (n + bs - 1) bs ltac:(lia)) as B.
  lia.
Qed.

(** What [extract_batch] returns for a batch size of at least one. *)
Lemma extract_batch_value lower (es : list POEntry) (k bs : Z)
    (sim : Dict (list str)) (mode : str) :
  (1 <= bs)%Z ->
  let l := filter_entries es mode in
  let total := ((Z.of_nat (length l) + bs - 1) / bs)%Z in
  extract_batch lower es k bs sim mode
  = Ok (if ((k <? 1) || (total <? k))%Z then []
        else records_from lower sim ((k - 1) * bs)
               (firstn (Z.to_nat bs) (skipn (Z.to_nat ((k - 1) * bs)) l)),
        total).
Proof.
  intros Hbs l total. unfold extract_batch. fold l.
  assert (Ht : (match l with
                | [] => Ok 0%Z
                | _ => floordiv (Z.of_nat (length l) + bs - 1) bs
                end) = Ok total).
  { unfold floordiv. destruct (Z.eqb_spec bs 0); [lia|].
    destruct l eqn:El; [|reflexivity].
    unfold total. simpl. rewrite Z.div_small by lia. reflexivity. }
  rewrite Ht. cbn [bind].
  destruct ((k <? 1) || (total <? k))%Z eqn:R; [reflexivity|].
  apply orb_false_iff in R. destruct R as [R1 R2].
  apply Z.ltb_ge in R1. apply Z.ltb_ge in R2.
  pose proof (ceil_bounds (Z.of_nat (length l)) bs ltac:(lia) Hbs) as C.
  fold total in C.
  assert (Hs : (0 <= (k - 1) * bs < Z.of_nat (length l))%Z) by nia.
  rewrite build_records_ok. cbn [bind]. rewrite Z.add_0_r.
  rewrite slice_within by lia.
  replace (Z.to_nat
             (Z.min ((k - 1) * bs + bs) (Z.of_nat (length l))
              - (k - 1) * bs))
    with (Nat.min (Z.to_nat bs)
            (length (skipn (Z.to_nat ((k - 1) * bs)) l)))
    by (rewrite length_skipn; lia).
  rewrite firstn_min_length. reflexivity.
Qed.

(** The batches 1 to [t], one after the other, are the records of the
    first [t] times [batch_size] filtered entries. *)
Lemma batches_prefix lower (es : list POEntry) (bs : Z)
    (sim : Dict (list str)) (mode : str) :
  (1 <= bs)%Z ->
  let l := filter_entries es mode in
  forall t : nat,
    (Z.of_nat t <= (Z.of_nat (length l) + bs - 1) / bs)%Z ->
    flat_map (fun k => batch_records lower es (Z.of_nat k) bs sim mode)
      (seq 1 t)
    = records_from lower sim 0 (firstn (t * Z.to_nat bs) l).
Proof.
  intros Hbs l.
  pose proof (ceil_bounds (Z.of_nat (length l)) bs ltac:(lia) Hbs) as C.
  induction t as [|t IH]; intros Ht; [reflexivity|].
  rewrite seq_S, flat_map_app, IH by lia. cbn [flat_map].
  rewrite app_nil_r. unfold batch_records.
  rewrite extract_batch_value by assumption. fold l.
  destruct (Z.ltb_spec (Z.of_nat (1 + t)) 1) as [|_]; [lia|].
  destruct (Z.ltb_spec ((Z.of_nat (length l) + bs - 1) / bs)
              (Z.of_nat (1 + t))) as [|_]; [lia|].
  cbn [orb].
  replace (S t * Z.to_nat bs)%nat with (t * Z.to_nat bs + Z.to_nat bs)%nat
    by lia.
  rewrite firstn_plus, records_from_app.
  assert (Hlen : (t * Z.to_nat bs <= length l)%nat) by nia.
  rewrite length_firstn, Nat.min_l by assumption.
  replace ((Z.of_nat (1 + t) - 1) * bs)%Z
    with (Z.of_nat (t * Z.to_nat bs)) by nia.
  rewrite Nat2Z.id. reflexivity.
Qed.

(** C6.  For a batch size of at least one, [extract_batch] returns for
    every batch number, with the same count of batches, which is the
    count of filtered entries divided by the batch size and rounded up
    (0 when nothing is left by the filter); a number outside 1 to that
    count gives no record; and the batches 1 to the count, one after the
    other, are the records of the filtered entries in their order, each
    entry once, the record at position [i] of the filtered entries
    carrying the display id [i] (from 1) and the id, translation and
    fuzzy state of that entry. *)
Theorem batches_partition lower (es : list POEntry) (bs : Z)
    (sim : Dict (list str)) (mode : str) :
  (1 <= bs)%Z ->
  exists total : Z,
    (Z.of_nat (length (filter_entries es mode)) <= total * bs
     < Z.of_nat (length (filter_entries es mode)) + bs)%Z
    /\ (filter_entries es mode = [] -> total = 0%Z)
    /\ (forall k,
          exists recs,
            extract_batch lower es k bs sim mode = Ok (recs, total)
            /\ ((k < 1 \/ total < k)%Z -> recs = []))
    /\ flat_map (fun k => batch_records lower es (Z.of_nat k) bs sim mode)
         (seq 1 (Z.to_nat total))
       = records_from lower sim 0 (filter_entries es mode)
    /\ map r_id (records_from lower sim 0 (filter_entries es mode))
       = map Z.of_nat (seq 1 (length (filter_entries es mode)))
    /\ map (fun r => (r_msgid r, r_current_msgstr r, r_is_fuzzy r))
         (records_from lower sim 0 (filter_entries es mode))
       = map (fun e => (msgid e, msgstr e, is_fuzzy e))
           (filter_entries es mode).
Proof.
  intros Hbs.
  pose proof (ceil_bounds (Z.of_nat (length (filter_entries es mode))) bs
                ltac:(lia) Hbs) as C.
  exists ((Z.of_nat (length (filter_entries es mode)) + bs - 1) / bs)%Z.
  split; [exact C|]. split.
  { intros E. rewrite E. simpl. apply Z.div_small. lia. }
  split.
  { intros k. eexists. split; [apply extract_batch_value; assumption|].
    intros R. cbv zeta.
    destruct (Z.ltb_spec k 1); [reflexivity|].
    destruct (Z.ltb_spec
                ((Z.of_nat (length (filter_entries es mode)) + bs - 1) / bs)
                k); [reflexivity | lia]. }
  split.
  { rewrite batches_prefix by (assumption || lia).
    rewrite firstn_all2; [reflexivity|]. nia. }
  split; [|apply records_from_entries].
  rewrite records_from_ids. apply map_ext. intros i. lia.
Qed.

Lemma batches_partition_witness :
  (1 <= 1)%Z
  /\ exists total : Z,
       flat_map
         (fun k =>
            batch_records (fun s => s) [cancel_entry] (Z.of_nat k) 1 []
              (lit "all"))
         (seq 1 (Z.to_nat total))
       = records_from (fun s => s) [] 0
           (filter_entries [cancel_entry] (lit "all")).
Proof.
  assert (H : (1 <= 1)%Z) by (apply Z.le_refl).
  split; [exact H|].
  destruct (batches_partition (fun s => s) [cancel_entry] 1 []
              (lit "all") H) as (total & _ & _ & _ & P & _).
  exists total. exact P.
Defined.

(** *** When parse_po_file returns *)









Ltac entry_fields :=
  cbn [current_entry current_field entries line_no msgstr_plural
       set_comments set_references set_flags set_msgid set_msgid_plural
       set_msgstr set_msgstr_plural set_line_number set_is_header].






(** *** The fuzzy flag after an apply, in general *)

(** On the path of unreviewed translations, for an entry the apply has
    written: fuzzy is added exactly when the new translation is empty,
    the entry is the header, or the entry carries the flag already.  An
    entry that was empty and gets a translation is thus written without
    the flag. *)
Lemma unreviewed_flag_condition (tr : Dict str) (e : POEntry) (t : str) :
  dict_get tr (msgid e) = Some t ->
  mem (msgid (set_msgstr e t)) (dict_keys tr)
  && negb (is_verified (set_msgstr e t))
  = negb (truthy t && negb (is_header e)) || is_fuzzy e.
Proof.
  intros G.
  assert (M : mem (msgid e) (dict_keys tr) = true).
  { apply mem_In, dict_get_In_keys. congruence. }
  unfold is_verified, is_translated, is_fuzzy.
  cbn [msgid msgstr is_header flags set_msgstr]. rewrite M.
  destruct (truthy t), (is_header e), (mem (lit "fuzzy") (flags e));
    reflexivity.
Qed.

(** On the path of verified translations, a flags line of a written
    entry is written without fuzzy, or not at all. *)
Lemma reviewed_flags_line (c : str) :
  startswith (lit "#,") c = true ->
  rewrite_comment true false c = []
  \/ exists fl,
       rewrite_comment true false c
       = lit "#, " ++ join (lit ", ") fl ++ [LF]
       /\ ~ In (lit "fuzzy") fl.
Proof.
  intros H. unfold rewrite_comment. rewrite H. cbn [andb].
  destruct (filter (fun fl => negb (str_eqb fl (lit "fuzzy")))
              (comment_flags c)) as [|x fl] eqn:E; [left; reflexivity|].
  right. exists (x :: fl). split; [reflexivity|].
  rewrite <- E. intros Hin. apply filter_In in Hin. destruct Hin as [_ Hin].
  rewrite str_eqb_refl in Hin. discriminate.
Qed.
End TranslateFacts.

(** ** validate_translations.py *)

Module ValidateFacts.

Import Validate PyFacts Samples Notions.

(** *** The errors that the checks add *)

Lemma check_placeholder_keeps (e : POEntry) (r : ValidationResult) (i : N)
    (x : str) :
  In x (errors r) -> In x (errors (check_placeholder e r i)).
Proof.
  intros H. unfold check_placeholder.
  destruct (negb _); simpl; [rewrite in_app_iff; auto | exact H].
Qed.

Lemma fold_placeholder_keeps (e : POEntry) (l : list N) (x : str) :
  forall r, In x (errors r) ->
    In x (errors (fold_left (check_placeholder e) l r)).
Proof.
  induction l as [|i l IH]; intros r H; simpl; [exact H|].
  apply IH, check_placeholder_keeps, H.
Qed.

Lemma check_wrong_format_keeps (e : POEntry) (r : ValidationResult)
    (x : str) :
  In x (errors r) -> In x (errors (check_wrong_format e r)).
Proof.
  intros H. unfold check_wrong_format.
  destruct (re_search numbered_at (msgid e)); [|exact H].
  destruct (findall_go printf_at 2 0 (msgstr e)); [exact H|].
  simpl. rewrite in_app_iff; auto.
Qed.

Lemma check_brand_keeps (e : POEntry) (r : ValidationResult) (b x : str) :
  In x (errors r) -> In x (errors (check_brand e r b)).
Proof.
  intros H. unfold check_brand.
  destruct (_ && _); [|exact H].
  destruct (find _ _); simpl; [rewrite in_app_iff; auto | exact H].
Qed.

Lemma fold_brand_keeps (e : POEntry) (l : list str) (x : str) :
  forall r, In x (errors r) -> In x (errors (fold_left (check_brand e) l r)).
Proof.
  induction l as [|b l IH]; intros r H; simpl; [exact H|].
  apply IH, check_brand_keeps, H.
Qed.

Lemma fold_term_errors re (e : POEntry) (l : list str) :
  forall r, errors (fold_left (check_term re e) l r) = errors r.
Proof.
  induction l as [|t l IH]; intros r; simpl; [reflexivity|].
  rewrite IH. unfold check_term. destruct (_ && _); reflexivity.
Qed.

(** The errors of [validate_entry] on a translated entry are those of
    the checks 1 to 3: the later checks only warn. *)
Lemma validate_entry_errors re (e : POEntry) (lang : str) :
  truthy (msgid e) = true -> truthy (msgstr e) = true ->
  errors (validate_entry re e new_ValidationResult lang) = entry_errors e.
Proof.
  intros Hi Hs. unfold validate_entry, entry_errors. rewrite Hi, Hs.
  cbn [negb]. cbv zeta. unfold check_newlines.
  destruct (negb _); cbn [errors add_warning]; apply fold_term_errors.
Qed.

(** A mismatch at one of the tokens adds its error. *)
Lemma fold_placeholder_reports (e : POEntry) (l : list N) (i : N) :
  In i l ->
  count (placeholder i) (msgid e) <> count (placeholder i) (msgstr e) ->
  forall r,
    In (format_issue (lit "PLACEHOLDER_MISMATCH")
          (mismatch_message (placeholder i)
             (count (placeholder i) (msgid e))
             (count (placeholder i) (msgstr e)))
          (line_number e))
       (errors (fold_left (check_placeholder e) l r)).
Proof.
  intros Hin Hne. induction l as [|j l IH]; [contradiction|].
  intros r. simpl. destruct Hin as [-> | Hin]; [|apply IH, Hin].
  apply fold_placeholder_keeps. unfold check_placeholder.
  apply Nat.eqb_neq in Hne. rewrite Hne. simpl.
  rewrite in_app_iff. right. left. reflexivity.
Qed.

Lemma in_one_to_nine (i : N) :
  (1 <= i <= 9)%N -> In i [1; 2; 3; 4; 5; 6; 7; 8; 9]%N.
Proof.
  intros H.
  assert (E : (i = 1 \/ i = 2 \/ i = 3 \/ i = 4 \/ i = 5 \/ i = 6 \/ i = 7
               \/ i = 8 \/ i = 9)%N) by lia.
  simpl. intuition.
Qed.


Lemma mismatch_issue_tagged (m : str) (line : N) :
  startswith (lit "[" ++ lit "PLACEHOLDER_MISMATCH" ++ lit "]")
    (format_issue (lit "PLACEHOLDER_MISMATCH") m line) = true.
Proof.
  apply startswith_prefix. unfold format_issue.
  exists (lit " " ++ line_prefix line ++ m).
  change (lit "] ") with (lit "]" ++ lit " ").
  rewrite <- !app_assoc. reflexivity.
Qed.

(** *** The placeholder counts *)

(** C7, as the code has it.  For an entry whose source and translation
    are both non-empty: when [validate_entry] reports no
    [PLACEHOLDER_MISMATCH] error, each token [%1] to [%9] occurs as
    often in the translation as in the source; and a token whose counts
    differ has its error, which names the token and both counts. *)
Theorem placeholder_counts_checked re (e : POEntry) (lang : str) :
  truthy (msgid e) = true ->
  truthy (msgstr e) = true ->
  (errors_of (lit "PLACEHOLDER_MISMATCH")
     (validate_entry re e new_ValidationResult lang) = [] ->
   forall i, (1 <= i <= 9)%N ->
     count (placeholder i) (msgid e) = count (placeholder i) (msgstr e))
  /\ (forall i, (1 <= i <= 9)%N ->
        count (placeholder i) (msgid e) <> count (placeholder i) (msgstr e) ->
        In (format_issue (lit "PLACEHOLDER_MISMATCH")
              (mismatch_message (placeholder i)
                 (count (placeholder i) (msgid e))
                 (count (placeholder i) (msgstr e)))
              (line_number e))
           (errors (validate_entry re e new_ValidationResult lang))).
Proof.
  intros Hi Hs.
  assert (Hrep : forall i, (1 <= i <= 9)%N ->
            count (placeholder i) (msgid e) <> count (placeholder i) (msgstr e)
            -> In (format_issue (lit "PLACEHOLDER_MISMATCH")
                     (mismatch_message (placeholder i)
                        (count (placeholder i) (msgid e))
                        (count (placeholder i) (msgstr e)))
                     (line_number e))
                  (errors (validate_entry re e new_ValidationResult lang))).
  { intros i Hb Hne. rewrite validate_entry_errors by assumption.
    unfold entry_errors.
    apply fold_brand_keeps, check_wrong_format_keeps.
    apply fold_placeholder_reports; [apply in_one_to_nine, Hb | exact Hne]. }
  split; [|exact Hrep].
  intros Hnone i Hb.
  destruct (Nat.eq_dec (count (placeholder i) (msgid e))
                       (count (placeholder i) (msgstr e))) as [E | Hne];
    [exact E | exfalso].
  pose proof (Hrep i Hb Hne) as Hin.
  assert (Hf : In (format_issue (lit "PLACEHOLDER_MISMATCH")
                     (mismatch_message (placeholder i)
                        (count (placeholder i) (msgid e))
                        (count (placeholder i) (msgstr e)))
                     (line_number e))
                  (errors_of (lit "PLACEHOLDER_MISMATCH")
                     (validate_entry re e new_ValidationResult lang))).
  { unfold errors_of. apply filter_In. split; [exact Hin|].
    apply mismatch_issue_tagged. }
  rewrite Hnone in Hf. contradiction.
Qed.

Lemma placeholder_counts_checked_witness :
  truthy (msgid cache_entry) = true
  /\ truthy (msgstr cache_entry) = true
  /\ In (cache_mismatch_error)
        (errors (validate_entry (fun _ _ => false) cache_entry
                   new_ValidationResult (lit "fr"))).
Proof.
  split; [reflexivity|]. split; [reflexivity|].
  apply (proj2 (placeholder_counts_checked (fun _ _ => false) cache_entry
                  (lit "fr") eq_refl eq_refl) 1%N).
  - lia.
  - vm_compute. discriminate.
Defined.

(** C7, as the claim has it, fails on an entry that is not translated:
    [validate_entry] stops after the warning of the empty translation
    and reports no error, while the source holds [%1] once and the
    translation never. *)
Lemma untranslated_entry_reports_no_mismatch :
  truthy (msgid untranslated_placeholder) = true
  /\ (forall re lang,
        errors (validate_entry re untranslated_placeholder
                  new_ValidationResult lang) = [])
  /\ (forall re lang,
        errors_of (lit "PLACEHOLDER_MISMATCH")
          (validate_entry re untranslated_placeholder
             new_ValidationResult lang) = [])
  /\ count (placeholder 1) (msgid untranslated_placeholder) = 1
  /\ count (placeholder 1) (msgstr untranslated_placeholder) = 0.
Proof.
  split; [reflexivity|]. split; [intros; reflexivity|].
  split; [intros; reflexivity|]. split; reflexivity.
Qed.

(** *** The printf-style tokens *)

Lemma numbered_of_placeholder (i : N) (s : str) :
  (1 <= i <= 9)%N -> contains (placeholder i) s = true ->
  re_search numbered_at s = true.
Proof.
  intros Hb Hc. unfold re_search.
  assert (Hne : findall_go numbered_at 2 0 s <> []).
  { eapply findall_of_contains; [| |exact Hc].
    - intros t Ht.
      assert (E : (i = 1 \/ i = 2 \/ i = 3 \/ i = 4 \/ i = 5 \/ i = 6
                   \/ i = 7 \/ i = 8 \/ i = 9)%N) by lia.
      repeat (destruct E as [-> | E];
              [apply startswith_prefix in Ht; destruct Ht as (u & ->);
               reflexivity|]).
      subst. apply startswith_prefix in Ht. destruct Ht as (u & ->).
      reflexivity.
    - discriminate. }
  destruct (findall_go numbered_at 2 0 s); [congruence | reflexivity].
Qed.

Lemma printf_of_contains (s : str) :
  contains (lit "%s") s = true \/ contains (lit "%d") s = true
  \/ contains (lit "%f") s = true ->
  findall_go printf_at 2 0 s <> [].
Proof.
  intros [H | [H | H]];
    (eapply findall_of_contains; [| |exact H];
     [intros t Ht; apply startswith_prefix in Ht; destruct Ht as (u & ->);
      reflexivity
     | discriminate]).
Qed.

(** C8.  For an entry whose source holds one of the tokens [%1] to [%9]
    and whose translation is non-empty: when the translation holds
    [%s], [%d] or [%f], [validate_entry] reports a
    [WRONG_PLACEHOLDER_FORMAT] error, which lists the printf-style
    tokens found.  On the source [Cache size: %1 MB] with the
    translation [Taille du cache : %d Mo] the errors are the mismatch of
    [%1] (1 against 0) and the wrong format. *)
Theorem printf_placeholder_reported re (e : POEntry) (lang : str) :
  (exists i, (1 <= i <= 9)%N /\ contains (placeholder i) (msgid e) = true) ->
  truthy (msgstr e) = true ->
  (contains (lit "%s") (msgstr e) = true
   \/ contains (lit "%d") (msgstr e) = true
   \/ contains (lit "%f") (msgstr e) = true) ->
  (findall_go printf_at 2 0 (msgstr e) <> []
   /\ In (format_issue (lit "WRONG_PLACEHOLDER_FORMAT")
            (lit "msgstr uses "
             ++ repr_list (findall_go printf_at 2 0 (msgstr e))
             ++ lit " but msgid uses %1 format")
            (line_number e))
         (errors (validate_entry re e new_ValidationResult lang)))
  /\ errors (validate_entry re cache_entry new_ValidationResult (lit "fr"))
     = [cache_mismatch_error;
        cache_format_error].
Proof.
  intros (i & Hb & Hc) Hs Hp. split.
  - pose proof (printf_of_contains _ Hp) as Hne. split; [exact Hne|].
    assert (Hi : truthy (msgid e) = true).
    { destruct (msgid e); [|reflexivity].
      unfold placeholder in Hc. simpl in Hc. discriminate. }
    rewrite validate_entry_errors by assumption. unfold entry_errors.
    apply fold_brand_keeps. unfold check_wrong_format.
    rewrite (numbered_of_placeholder i _ Hb Hc).
    destruct (findall_go printf_at 2 0 (msgstr e)) eqn:E; [congruence|].
    simpl. rewrite in_app_iff. right. left. reflexivity.
  - rewrite validate_entry_errors by reflexivity. vm_compute. reflexivity.
Qed.

Lemma printf_placeholder_reported_witness :
  (exists i, (1 <= i <= 9)%N
             /\ contains (placeholder i) (msgid cache_entry) = true)
  /\ truthy (msgstr cache_entry) = true
  /\ contains (lit "%d") (msgstr cache_entry) = true
  /\ In (cache_format_error)
        (errors (validate_entry (fun _ _ => false) cache_entry
                   new_ValidationResult (lit "fr"))).
Proof.
  assert (H1 : exists i, (1 <= i <= 9)%N
                 /\ contains (placeholder i) (msgid cache_entry) = true).
  { exists 1%N. split; [lia | reflexivity]. }
  split; [exact H1|]. split; [reflexivity|]. split; [reflexivity|].
  exact (proj2 (proj1 (printf_placeholder_reported (fun _ _ => false)
                         cache_entry (lit "fr") H1 eq_refl
                         (or_intror (or_introl eq_refl))))).
Defined.

(** *** When parse_po_file returns *)



Ltac entry_fields :=
  cbn [current_entry current_field entries line_no msgstr_plural
       set_comments set_references set_fuzzy set_msgid set_msgid_plural
       set_msgstr set_msgstr_plural set_line_number].





End ValidateFacts.

(** ** The two decoders *)

Module ParserFacts.

Import PyFacts Samples Notions.




End ParserFacts.

(** ** The escapes, in general *)

Module EscapeFacts.

Import Translate PyFacts MoreNotions.

Lemma kind_of_spec (c : char) :
  match kind_of c with
  | KBackslash => c = 92%N
  | KQuote => c = 34%N
  | KLineFeed => c = 10%N
  | KTab => c = 9%N
  | KPlain => c <> 92%N /\ c <> 34%N /\ c <> 10%N /\ c <> 9%N
  end.
Proof.
  unfold kind_of.
  destruct (N.eqb_spec c 92); [assumption|].
  destruct (N.eqb_spec c 34); [assumption|].
  destruct (N.eqb_spec c 10); [assumption|].
  destruct (N.eqb_spec c 9); [assumption|]. auto.
Qed.

(** Replacing one character is a map over the characters. *)
Lemma replace_char (x : char) (new s : str) :
  replace [x] new s
  = flat_map (fun c => if (x =? c)%N then new else [c]) s.
Proof.
  unfold replace. induction s as [|c s IH]; [reflexivity|].
  cbn [replace_go flat_map startswith length Nat.sub].
  rewrite andb_true_r. destruct (x =? c)%N; rewrite IH; reflexivity.
Qed.

Lemma flat_map_compose (A B C : Type) (f : A -> list B) (g : B -> list C)
    (l : list A) :
  flat_map g (flat_map f l) = flat_map (fun a => flat_map g (f a)) l.
Proof.
  induction l as [|a l IH]; [reflexivity|].
  cbn [flat_map]. rewrite flat_map_app, IH. reflexivity.
Qed.

(** [escape_po_string] writes the text character by character. *)
Lemma escape_by_char (s : str) :
  escape_po_string s = flat_map esc_char s.
Proof.
  unfold escape_po_string. rewrite !replace_char, !flat_map_compose.
  apply flat_map_ext. intros c. unfold esc_char.
  pose proof (kind_of_spec c) as K.
  destruct (kind_of c).
  - subst c. reflexivity.
  - subst c. reflexivity.
  - subst c. reflexivity.
  - subst c. reflexivity.
  - destruct K as (K1 & K2 & K3 & K4).
    cbn [flat_map app]. unfold BSLASH, DQUOTE, LF, TAB.
    apply not_eq_sym in K1, K2, K3, K4.
    apply N.eqb_neq in K1, K2, K3, K4.
    rewrite K1. cbn [flat_map app]. rewrite K2. cbn [flat_map app].
    rewrite K3. cbn [flat_map app]. rewrite K4. reflexivity.
Qed.


(** *** Replacing a pattern of two characters, step by step *)

Lemma replace2_skip (p q : char) (new : str) (x : char) (rest : str) :
  x <> p ->
  replace_go [p; q] new 0 (x :: rest) = x :: replace_go [p; q] new 0 rest.
Proof.
  intros H. cbn [replace_go startswith].
  apply not_eq_sym in H. apply N.eqb_neq in H. rewrite H. reflexivity.
Qed.

Lemma replace2_hit (p q : char) (new rest : str) :
  replace_go [p; q] new 0 (p :: q :: rest)
  = new ++ replace_go [p; q] new 0 rest.
Proof.
  cbn [replace_go startswith length Nat.sub].
  rewrite !N.eqb_refl. reflexivity.
Qed.

Lemma replace2_miss (p q : char) (new rest : str) :
  match rest with y :: _ => y <> q | [] => True end ->
  replace_go [p; q] new 0 (p :: rest) = p :: replace_go [p; q] new 0 rest.
Proof.
  intros H. cbn [replace_go startswith]. rewrite N.eqb_refl.
  destruct rest as [|y rest]; [reflexivity|].
  apply not_eq_sym in H. apply N.eqb_neq in H. rewrite H. reflexivity.
Qed.

(** The first character of an escaped text is a backslash or the first
    character of the text. *)
Lemma head_esc_char (q : char) (t : str) :
  q <> 92%N ->
  match t with d :: _ => d <> q | [] => True end ->
  match flat_map esc_char t with y :: _ => y <> q | [] => True end.
Proof.
  intros Hq H. destruct t as [|d t]; [exact I|].
  cbn [flat_map]. unfold esc_char. pose proof (kind_of_spec d) as K.
  destruct (kind_of d); cbn [app lit map list_ascii_of_string];
    try (intros E; apply Hq; symmetry; exact E); exact H.
Qed.

Lemma head_esc_char1 (t : str) :
  match t with d :: _ => d <> 116%N | [] => True end ->
  match flat_map esc_char1 t with y :: _ => y <> 116%N | [] => True end.
Proof.
  intros H. destruct t as [|d t]; [exact I|].
  cbn [flat_map]. unfold esc_char1. pose proof (kind_of_spec d) as K.
  destruct (kind_of d); cbn [app lit map list_ascii_of_string];
    try discriminate; exact H.
Qed.

Lemma head_esc_char2 (t : str) :
  match flat_map esc_char2 t with y :: _ => y <> 34%N | [] => True end.
Proof.
  destruct t as [|d t]; [exact I|].
  cbn [flat_map]. unfold esc_char2. pose proof (kind_of_spec d) as K.
  destruct (kind_of d); cbn [app]; try discriminate;
    try (subst d; discriminate).
  destruct K as (_ & K & _). exact K.
Qed.

Lemma backslashes_plain_cons (c : char) (t : str) :
  backslashes_plain (c :: t) = true ->
  backslashes_plain t = true
  /\ (c = 92%N ->
      match t with d :: _ => d <> 110%N /\ d <> 116%N | [] => True end).
Proof.
  cbn [backslashes_plain]. intros H. apply andb_true_iff in H.
  destruct H as [H Ht]. split; [exact Ht|]. intros ->.
  destruct t as [|d t]; [exact I|].
  cbn in H. apply negb_true_iff, orb_false_iff in H. destruct H as [H1 H2].
  apply N.eqb_neq in H1, H2. auto.
Qed.

(** *** The four replacements of unescape_po_string *)

Lemma unescape_pass1 (s : str) :
  backslashes_plain s = true ->
  replace (BSLASH :: lit "n") [LF] (flat_map esc_char s)
  = flat_map esc_char1 s.
Proof.
  unfold replace, LF. change (BSLASH :: lit "n") with [92%N; 110%N].
  induction s as [|c s IH]; intros H; [reflexivity|].
  apply backslashes_plain_cons in H. destruct H as [Hs Hc].
  cbn [flat_map]. unfold esc_char at 1, esc_char1 at 1.
  pose proof (kind_of_spec c) as K.
  destruct (kind_of c); unfold BSLASH, DQUOTE, LF;
    cbn [app lit map list_ascii_of_string N_of_ascii N_of_digits].
  - rewrite replace2_miss by discriminate.
    rewrite replace2_miss by
      (apply head_esc_char; [discriminate|];
       specialize (Hc K); destruct s; [exact I | tauto]).
    do 2 f_equal. exact (IH Hs).
  - rewrite replace2_miss by discriminate.
    rewrite replace2_skip by discriminate.
    do 2 f_equal. exact (IH Hs).
  - change (N_of_ascii "n") with 110%N. rewrite replace2_hit.
    cbn [app]. f_equal. exact (IH Hs).
  - change (N_of_ascii "t") with 116%N.
    rewrite replace2_miss by discriminate.
    rewrite replace2_skip by discriminate.
    do 2 f_equal. exact (IH Hs).
  - rewrite replace2_skip by tauto. f_equal. exact (IH Hs).
Qed.

Lemma unescape_pass2 (s : str) :
  backslashes_plain s = true ->
  replace (BSLASH :: lit "t") [TAB] (flat_map esc_char1 s)
  = flat_map esc_char2 s.
Proof.
  unfold replace, TAB. change (BSLASH :: lit "t") with [92%N; 116%N].
  induction s as [|c s IH]; intros H; [reflexivity|].
  apply backslashes_plain_cons in H. destruct H as [Hs Hc].
  cbn [flat_map]. unfold esc_char1 at 1, esc_char2 at 1.
  pose proof (kind_of_spec c) as K.
  destruct (kind_of c); unfold BSLASH, DQUOTE, LF;
    cbn [app lit map list_ascii_of_string N_of_ascii N_of_digits].
  - rewrite replace2_miss by discriminate.
    rewrite replace2_miss by
      (apply head_esc_char1; specialize (Hc K); destruct s;
       [exact I | tauto]).
    do 2 f_equal. exact (IH Hs).
  - rewrite replace2_miss by discriminate.
    rewrite replace2_skip by discriminate.
    do 2 f_equal. exact (IH Hs).
  - rewrite replace2_skip by discriminate. subst c.
    f_equal. exact (IH Hs).
  - change (N_of_ascii "t") with 116%N. rewrite replace2_hit.
    cbn [app]. subst c. f_equal. exact (IH Hs).
  - rewrite replace2_skip by tauto. f_equal. exact (IH Hs).
Qed.

Lemma unescape_pass3 (s : str) :
  replace [BSLASH; DQUOTE] [DQUOTE] (flat_map esc_char2 s)
  = flat_map esc_char3 s.
Proof.
  unfold replace, BSLASH, DQUOTE.
  induction s as [|c s IH]; [reflexivity|].
  cbn [flat_map]. unfold esc_char2 at 1, esc_char3 at 1.
  pose proof (kind_of_spec c) as K.
  destruct (kind_of c); unfold BSLASH, DQUOTE; cbn [app].
  - rewrite replace2_miss by discriminate.
    rewrite replace2_miss by apply head_esc_char2.
    do 2 f_equal. exact IH.
  - rewrite replace2_hit. cbn [app]. subst c. f_equal. exact IH.
  - rewrite replace2_skip by (subst c; discriminate). f_equal. exact IH.
  - rewrite replace2_skip by (subst c; discriminate). f_equal. exact IH.
  - rewrite replace2_skip by tauto. f_equal. exact IH.
Qed.

Lemma unescape_pass4 (s : str) :
  replace [BSLASH; BSLASH] [BSLASH] (flat_map esc_char3 s) = s.
Proof.
  unfold replace, BSLASH.
  induction s as [|c s IH]; [reflexivity|].
  cbn [flat_map]. unfold esc_char3 at 1.
  pose proof (kind_of_spec c) as K.
  destruct (kind_of c); unfold BSLASH; cbn [app];
    try (rewrite replace2_hit; cbn [app]; subst c; f_equal; exact IH);
    try (rewrite replace2_skip by (subst c; discriminate);
         f_equal; exact IH).
  rewrite replace2_skip by tauto. f_equal. exact IH.
Qed.

(** X1.  Unescaping gives back what was escaped when no backslash of the
    text is directly followed by the letter n or the letter t; texts
    without a backslash are of that kind. *)
Theorem unescape_escape_plain (s : str) :
  backslashes_plain s = true ->
  unescape_po_string (escape_po_string s) = s.
Proof.
  intros H. unfold unescape_po_string. rewrite escape_by_char.
  rewrite unescape_pass1, unescape_pass2 by assumption.
  rewrite unescape_pass3. apply unescape_pass4.
Qed.

Lemma unescape_escape_plain_witness :
  backslashes_plain (lit "a" ++ [DQUOTE; LF; BSLASH; BSLASH; TAB]) = true
  /\ unescape_po_string
       (escape_po_string (lit "a" ++ [DQUOTE; LF; BSLASH; BSLASH; TAB]))
     = lit "a" ++ [DQUOTE; LF; BSLASH; BSLASH; TAB].
Proof.
  split; [reflexivity|].
  exact (unescape_escape_plain
           (lit "a" ++ [DQUOTE; LF; BSLASH; BSLASH; TAB]) eq_refl).
Defined.

(** X2.  The escaped text holds no line feed and no tab, and it is empty
    only for the empty text.  A carriage return is not escaped: the
    escaped text holds one exactly when the text does. *)
Theorem escape_removes_lf_tab (s : str) :
  ~ In LF (escape_po_string s)
  /\ ~ In TAB (escape_po_string s)
  /\ (escape_po_string s = [] <-> s = [])
  /\ (In 13%N (escape_po_string s) <-> In 13%N s).
Proof.
  rewrite escape_by_char.
  assert (A : forall x, (x = LF \/ x = TAB) -> ~ In x (flat_map esc_char s)).
  { intros x Hx Hin. apply in_flat_map in Hin.
    destruct Hin as (c & _ & Hc). unfold esc_char in Hc.
    pose proof (kind_of_spec c) as K.
    destruct (kind_of c); unfold BSLASH, DQUOTE, LF, TAB in *;
      cbn in Hc; destruct Hx; subst x; intuition congruence. }
  split; [apply A; auto|]. split; [apply A; auto|]. split.
  - split; [|intros ->; reflexivity].
    destruct s as [|c s]; [reflexivity|]. cbn [flat_map]. unfold esc_char.
    destruct (kind_of c); discriminate.
  - rewrite in_flat_map. split.
    + intros (c & Hin & Hc). unfold esc_char in Hc.
      pose proof (kind_of_spec c) as K.
      destruct (kind_of c); unfold BSLASH, DQUOTE in *; cbn in Hc;
        try (intuition discriminate).
      destruct Hc as [<- | []]. exact Hin.
    + intros Hin. exists 13%N. split; [exact Hin | left; reflexivity].
Qed.
End EscapeFacts.

(** ** The entries the decoder returns *)

Module DecodeFacts.

Import Translate PyFacts Notions MoreNotions.

Lemma continue_field_header (e e' : POEntry) (f : option str) (v : str) :
  continue_field e f v = Ok e' -> is_header e' = is_header e.
Proof.
  unfold continue_field. destruct f as [f|]; [|intros H; inversion H; auto].
  destruct (str_eqb f (lit "msgid")); [intros H; inversion H; auto|].
  destruct (str_eqb f (lit "msgid_plural")); [intros H; inversion H; auto|].
  destruct (str_eqb f (lit "msgstr")); [intros H; inversion H; auto|].
  destruct (truthy f && startswith (lit "msgstr[") f);
    [|intros H; inversion H; auto].
  destruct (int _); cbn [bind]; [|discriminate].
  destruct (list_get _ _); cbn [bind]; [|discriminate].
  destruct (list_set _ _ _); cbn [bind]; [|discriminate].
  intros H; inversion H; auto.
Qed.

Lemma flush_header_ok (st : pstate) :
  header_ok st ->
  Forall (fun e => truthy (msgid e) || is_header e = true)
    (flush (entries st) (current_entry st))
  /\ Forall (fun e => is_header e = false)
       (tl (flush (entries st) (current_entry st))).
Proof.
  intros (A & B & C). unfold flush.
  destruct (current_entry st) as [e|]; [|auto].
  destruct (truthy (msgid e) || is_header e) eqn:K; [|auto].
  split.
  - apply Forall_app. split; [exact A|]. constructor; [exact K | constructor].
  - destruct (entries st) as [|x r] eqn:E; [constructor|].
    cbn [app tl] in *. apply Forall_app. split; [exact B|].
    constructor; [|constructor]. apply C; [discriminate | reflexivity].
Qed.

(** What a step that keeps the entries and the header flag of the open
    entry needs. *)
Lemma header_ok_next (st : pstate) (e' : POEntry) (f : option str) (n : N) :
  header_ok st ->
  (entries st <> [] -> is_header e' = false) ->
  header_ok {| entries := entries st; current_entry := Some e';
               current_field := f; line_no := n |}.
Proof.
  intros (A & B & C) H. split; [exact A|]. split; [exact B|].
  cbn [entries current_entry]. intros Hne x Hx. inversion Hx; subst. auto.
Qed.

Lemma entry_of_header (st : pstate) (n : N) :
  header_ok st -> entries st <> [] -> is_header (entry_of st n) = false.
Proof.
  intros (_ & _ & C) Hne. unfold entry_of.
  destruct (current_entry st) as [e|] eqn:E; [|reflexivity].
  apply C; [exact Hne | reflexivity].
Qed.

Lemma ok_then_bind (A B : Type) (P : B -> Prop) (m : res A)
    (k : A -> res B) :
  ok_then (fun a => ok_then P (k a)) m -> ok_then P (bind m k).
Proof. destruct m; simpl; auto. Qed.

Lemma ok_then_elim (A : Type) (P : A -> Prop) (m : res A) (a : A) :
  ok_then P m -> m = Ok a -> P a.
Proof. intros H ->. exact H. Qed.

Lemma parse_line_header_ok (st : pstate) (raw : str) :
  header_ok st -> ok_then header_ok (parse_line st raw).
Proof.
  intros Inv. pose proof (entry_of_header st (line_no st + 1) Inv) as He.
  unfold parse_line. cbv zeta.
  set (e := entry_of st (line_no st + 1)) in *.
  set (line := rstrip_char LF raw).
  destruct (negb (truthy (strip line))).
  { destruct (flush_header_ok st Inv) as (A & B).
    split; [exact A|]. split; [exact B|]. intros _ x Hx. discriminate. }
  destruct (startswith (lit "#") line).
  { apply header_ok_next; [exact Inv|]. intros Hne.
    destruct (startswith (lit "#:") line);
      [|destruct (startswith (lit "#,") line)]; apply He, Hne. }
  destruct (startswith (lit "msgid ") line).
  { apply header_ok_next; [exact Inv|]. intros Hne.
    destruct (quoted _); [|apply He, Hne].
    destruct (entries st); [congruence|].
    rewrite andb_false_r. apply He, Hne. }
  destruct (startswith (lit "msgid_plural ") line).
  { apply header_ok_next; [exact Inv|]. intros Hne.
    destruct (quoted _); apply He, Hne. }
  destruct (startswith (lit "msgstr ") line).
  { apply header_ok_next; [exact Inv|]. intros Hne.
    destruct (quoted _); apply He, Hne. }
  destruct (match_msgstr_plural line) as [[g1 g2]|].
  { apply ok_then_bind. destruct (int g1); [|exact I].
    apply ok_then_bind. destruct (list_set _ _ _); [|exact I].
    apply header_ok_next; [exact Inv|]. intros Hne. apply He, Hne. }
  destruct (quoted line).
  { apply ok_then_bind.
    destruct (continue_field e (current_field st) _) as [e1|] eqn:C;
      [|exact I].
    apply header_ok_next; [exact Inv|]. intros Hne.
    rewrite (continue_field_header _ _ _ _ C). apply He, Hne. }
  apply header_ok_next; [exact Inv|]. exact He.
Qed.

Lemma parse_lines_header_ok (ls : list str) :
  forall st, header_ok st -> ok_then header_ok (parse_lines st ls).
Proof.
  induction ls as [|l ls IH]; intros st Inv; [exact Inv|].
  cbn [parse_lines]. apply ok_then_bind.
  pose proof (parse_line_header_ok st l Inv) as H.
  destruct (parse_line st l) as [st1|]; [|exact I].
  apply IH, H.
Qed.

(** X3.  Every entry [parse_po_file] returns has a non-empty id or is
    the header, and no entry but the first is the header. *)
Theorem parsed_entries_shape (text : str) (es : list POEntry) :
  parse_po_file text = Ok es ->
  Forall (fun e => truthy (msgid e) || is_header e = true) es
  /\ Forall (fun e => is_header e = false) (tl es).
Proof.
  unfold parse_po_file.
  assert (I0 : header_ok init_pstate).
  { split; [constructor|]. split; [constructor|].
    intros Hne. contradiction Hne. reflexivity. }
  pose proof (parse_lines_header_ok (readlines text) init_pstate I0) as P.
  destruct (parse_lines init_pstate (readlines text)) as [st|];
    cbn [bind]; [|discriminate].
  intros H. injection H as <-. apply flush_header_ok. exact P.
Qed.


Lemma parsed_entries_shape_witness :
  exists es,
    parse_po_file Samples.two_equal_lines_text = Ok es
    /\ Forall (fun e => is_header e = false) (tl es).
Proof.
  eexists. split; [vm_compute; reflexivity|].
  refine (proj2 (parsed_entries_shape Samples.two_equal_lines_text _ _)).
  vm_compute. reflexivity.
Defined.
End DecodeFacts.

(** ** Filtering, counting and batching *)

Module ExtractFacts.

Import Translate PyFacts Notions MoreNotions.

(** X4.  The mode [all] keeps exactly the entries that the mode [empty]
    or the mode [fuzzy] keeps; a mode of another name keeps nothing; and
    whatever the mode, the entries kept come in the order of the file,
    have an id, and are neither the header nor verified. *)
Theorem filter_modes (es : list POEntry) (mode : str) :
  (forall e,
     filter_keeps (lit "all") e
     = filter_keeps (lit "empty") e || filter_keeps (lit "fuzzy") e)
  /\ (mode <> lit "empty" -> mode <> lit "fuzzy" -> mode <> lit "all" ->
      filter_entries es mode = [])
  /\ Forall (fun e => truthy (msgid e) = true /\ is_header e = false
                      /\ is_verified e = false)
       (filter_entries es mode)
  /\ (exists keep, filter_entries es mode = filter keep es).
Proof.
  split; [|split; [|split]].
  - intros e. unfold filter_keeps.
    change (str_eqb (lit "all") (lit "empty")) with false.
    change (str_eqb (lit "all") (lit "fuzzy")) with false.
    change (str_eqb (lit "all") (lit "all")) with true.
    change (str_eqb (lit "empty") (lit "empty")) with true.
    change (str_eqb (lit "fuzzy") (lit "empty")) with false.
    change (str_eqb (lit "fuzzy") (lit "fuzzy")) with true.
    unfold is_verified, is_translated, is_empty, is_fuzzy.
    destruct (is_header e), (truthy (msgid e)), (truthy (msgstr e)),
      (mem (lit "fuzzy") (flags e)); reflexivity.
  - intros H1 H2 H3. unfold filter_entries.
    apply str_eqb_neq in H1, H2, H3.
    induction es as [|e es IH]; [reflexivity|]. cbn [filter].
    unfold filter_keeps at 1. rewrite H1, H2, H3.
    destruct (is_header e || negb (truthy (msgid e)));
      [|destruct (is_verified e)]; exact IH.
  - apply Forall_forall. intros e H. unfold filter_entries in H.
    apply filter_In in H. destruct H as [_ H]. unfold filter_keeps in H.
    destruct (is_header e) eqn:Hh; [discriminate|].
    destruct (truthy (msgid e)) eqn:Hm; [|discriminate].
    destruct (is_verified e) eqn:Hv; [discriminate|]. auto.
  - exists (filter_keeps mode). reflexivity.
Qed.

Lemma filter_modes_witness :
  lit "done" <> lit "empty"
  /\ filter_entries [Samples.cancel_entry] (lit "done") = [].
Proof.
  assert (H1 : lit "done" <> lit "empty") by discriminate.
  assert (H2 : lit "done" <> lit "fuzzy") by discriminate.
  assert (H3 : lit "done" <> lit "all") by discriminate.
  split; [exact H1|].
  exact (proj1 (proj2 (filter_modes [Samples.cancel_entry] (lit "done")))
           H1 H2 H3).
Defined.

Lemma count_split (A : Type) (p q : A -> bool) (l : list A) :
  length (filter p l)
  = length (filter (fun x => p x && q x) l)
    + length (filter (fun x => p x && negb (q x)) l).
Proof.
  induction l as [|x l IH]; [reflexivity|]. cbn [filter].
  destruct (p x), (q x); cbn [andb negb length]; lia.
Qed.

Lemma filter_twice (A : Type) (p q : A -> bool) (l : list A) :
  filter q (filter p l) = filter (fun x => p x && q x) l.
Proof.
  induction l as [|x l IH]; [reflexivity|]. cbn [filter].
  destruct (p x); cbn [filter andb]; [destruct (q x)|]; rewrite IH;
    reflexivity.
Qed.

Lemma filter_same (A : Type) (p q : A -> bool) (l : list A) :
  (forall x, p x = q x) -> length (filter p l) = length (filter q l).
Proof. intros H. rewrite (filter_ext p q H). reflexivity. Qed.

(** X5.  The counts of [get_status] add up, and they are the counts of
    what the modes extract: every string is translated or empty, the
    verified ones are among the translated, the empty and the fuzzy
    counts are the sizes of the modes [empty] and [fuzzy], and the total
    is the verified count plus the size of the mode [all]. *)
Theorem status_counts (es : list POEntry) :
  total (get_status es) = translated (get_status es) + empty (get_status es)
  /\ verified (get_status es) <= translated (get_status es)
  /\ empty (get_status es) = length (filter_entries es (lit "empty"))
  /\ fuzzy (get_status es) = length (filter_entries es (lit "fuzzy"))
  /\ total (get_status es)
     = verified (get_status es) + length (filter_entries es (lit "all")).
Proof.
  unfold get_status, filter_entries.
  cbn [total translated empty fuzzy verified].
  rewrite !filter_twice.
  set (t := fun e : POEntry => truthy (msgid e) && negb (is_header e)).
  split; [|split; [|split; [|split]]].
  - apply (count_split _ t (fun e => truthy (msgstr e))).
  - rewrite (count_split _ (fun e => t e && truthy (msgstr e)) is_verified).
    rewrite (filter_same _ (fun e => t e && is_verified e)
               (fun e => (t e && truthy (msgstr e)) && is_verified e)); [lia|].
    intros e. unfold t, is_verified, is_translated.
    destruct (truthy (msgid e)), (is_header e), (truthy (msgstr e));
      reflexivity.
  - apply filter_same. intros e. unfold t, filter_keeps.
    change (str_eqb (lit "empty") (lit "empty")) with true.
    unfold is_verified, is_translated, is_empty.
    destruct (truthy (msgid e)), (is_header e), (truthy (msgstr e)),
      (is_fuzzy e); reflexivity.
  - apply filter_same. intros e. unfold t, filter_keeps.
    change (str_eqb (lit "fuzzy") (lit "empty")) with false.
    change (str_eqb (lit "fuzzy") (lit "fuzzy")) with true.
    unfold is_verified, is_translated, is_fuzzy.
    destruct (truthy (msgid e)), (is_header e), (truthy (msgstr e)),
      (mem (lit "fuzzy") (flags e)); reflexivity.
  - rewrite (count_split _ t is_verified). f_equal.
    apply filter_same. intros e. unfold t, filter_keeps.
    change (str_eqb (lit "all") (lit "empty")) with false.
    change (str_eqb (lit "all") (lit "fuzzy")) with false.
    change (str_eqb (lit "all") (lit "all")) with true.
    destruct (truthy (msgid e)), (is_header e), (is_verified e);
      reflexivity.
Qed.


Lemma records_from_length lower (sim : Dict (list str)) (l : list POEntry) :
  forall z, length (records_from lower sim z l) = length l.
Proof.
  induction l as [|e l IH]; intros z; [reflexivity|].
  cbn [records_from length]. rewrite IH. reflexivity.
Qed.

(** X6.  For a batch size of at least one, a batch never holds more
    records than the batch size, every batch before the last holds
    exactly that many, and a batch is empty exactly when its number is
    outside 1 to the count of batches: an empty result always means a
    wrong batch number. *)
Theorem batch_sizes lower (es : list POEntry) (k bs : Z)
    (sim : Dict (list str)) (mode : str) (recs : list BatchRecord)
    (count : Z) :
  (1 <= bs)%Z ->
  extract_batch lower es k bs sim mode = Ok (recs, count) ->
  (Z.of_nat (length recs) <= bs)%Z
  /\ ((1 <= k < count)%Z -> Z.of_nat (length recs) = bs)
  /\ (recs = [] <-> (k < 1 \/ count < k)%Z).
Proof.
  intros Hbs H.
  rewrite (TranslateFacts.extract_batch_value lower es k bs sim mode Hbs) in H.
  cbv zeta in H. injection H as Hr Hc.
  pose proof (TranslateFacts.ceil_bounds
                (Z.of_nat (length (filter_entries es mode))) bs
                ltac:(lia) Hbs) as C.
  rewrite Hc in Hr, C.
  destruct (Z.ltb_spec k 1) as [K1 | K1]; cbn [orb] in Hr.
  { subst recs. cbn [length]. split; [lia|]. split; [lia|].
    split; [auto | reflexivity]. }
  destruct (Z.ltb_spec count k) as [K2 | K2].
  { subst recs. cbn [length]. split; [lia|]. split; [lia|].
    split; [auto | reflexivity]. }
  assert (L : Z.of_nat (length recs)
              = Z.min bs (Z.of_nat (length (filter_entries es mode))
                          - (k - 1) * bs)).
  { subst recs. rewrite records_from_length, length_firstn, length_skipn.
    nia. }
  split; [lia|]. split; [nia|]. split.
  - intros E. subst recs. rewrite E in L. cbn [length] in L. nia.
  - lia.
Qed.

Lemma batch_sizes_witness :
  (1 <= 1)%Z
  /\ exists recs count,
       extract_batch (fun s => s) [Samples.cancel_entry] 1 1 [] (lit "all")
       = Ok (recs, count)
       /\ (Z.of_nat (length recs) <= 1)%Z.
Proof.
  assert (H : (1 <= 1)%Z) by (apply Z.le_refl).
  split; [exact H|]. eexists. eexists.
  split; [vm_compute; reflexivity|].
  refine (proj1 (batch_sizes (fun s => s) [Samples.cancel_entry] 1 1 []
                   (lit "all") _ _ H _)).
  vm_compute. reflexivity.
Defined.

(** X7.  With a batch size of zero [extract_batch] raises
    [ZeroDivisionError] as soon as the filter leaves an entry, whatever
    the batch number; when the filter leaves nothing it returns no
    record and a count of zero for every batch size and number. *)
Theorem batch_size_zero lower (es : list POEntry) (k bs : Z)
    (sim : Dict (list str)) (mode : str) :
  (filter_entries es mode <> [] ->
   extract_batch lower es k 0 sim mode = Raise ZeroDivisionError)
  /\ (filter_entries es mode = [] ->
      extract_batch lower es k bs sim mode = Ok ([], 0%Z)).
Proof.
  unfold extract_batch. split; intros H.
  - destruct (filter_entries es mode); [congruence | reflexivity].
  - rewrite H. cbn [bind length]. 
    destruct ((k <? 1) || (0 <? k))%Z eqn:R; [reflexivity|].
    apply orb_false_iff in R. destruct R as [R1 R2].
    apply Z.ltb_ge in R1, R2. lia.
Qed.

Lemma batch_size_zero_witness :
  filter_entries [Samples.cancel_entry] (lit "all") <> []
  /\ extract_batch (fun s => s) [Samples.cancel_entry] 1 0 [] (lit "all")
     = Raise ZeroDivisionError.
Proof.
  assert (H : filter_entries [Samples.cancel_entry] (lit "all") <> [])
    by discriminate.
  split; [exact H|].
  exact (proj1 (batch_size_zero (fun s => s) [Samples.cancel_entry] 1 0 []
                  (lit "all")) H).
Defined.

Lemma In_firstn (A : Type) (n : nat) (x : A) :
  forall l, In x (firstn n l) -> In x l.
Proof.
  induction n as [|n IH]; intros [|y l] H; simpl in H; try contradiction.
  destruct H as [-> | H]; [left; reflexivity | right; apply IH, H].
Qed.

Lemma similar_strings_facts (sim : Dict (list str)) (e : POEntry) :
  length (similar_strings_of sim e) <= 5
  /\ ~ In (msgid e) (similar_strings_of sim e)
  /\ (similar_strings_of sim e = []
      \/ exists g ms, dict_get sim g = Some ms
                      /\ incl (similar_strings_of sim e) ms).
Proof.
  unfold similar_strings_of, similar_of.
  destruct (dict_get (build_msgid_to_group sim) (msgid e)) as [g|];
    [|cbn; auto with arith].
  destruct (truthy g); [|cbn; auto with arith].
  destruct (dict_get sim g) as [ms|] eqn:G; [|cbn; auto with arith].
  split; [apply firstn_le_length|]. split.
  - intros H. apply In_firstn, filter_In in H. destruct H as [_ H].
    rewrite str_eqb_refl in H. discriminate.
  - right. exists g, ms. split; [exact G|].
    intros x H. apply In_firstn, filter_In in H. tauto.
Qed.

Lemma records_from_details lower (sim : Dict (list str)) (l : list POEntry) :
  forall z,
    Forall (fun r =>
              length (r_similar_strings r) <= 5
              /\ ~ In (r_msgid r) (r_similar_strings r)
              /\ length (r_references r) <= 3
              /\ (r_similar_strings r = []
                  \/ exists g ms, dict_get sim g = Some ms
                                  /\ incl (r_similar_strings r) ms))
      (records_from lower sim z l).
Proof.
  induction l as [|e l IH]; intros z; [constructor|].
  cbn [records_from]. constructor; [|apply IH].
  cbn [r_similar_strings r_msgid r_references].
  destruct (similar_strings_facts sim e) as (A & B & C).
  repeat split; try assumption. apply firstn_le_length.
Qed.

(** X8.  Every record of a batch lists at most three references and at
    most five sibling strings; the siblings never include the record's
    own source string, and they all come from one group of the
    similarity map. *)
Theorem record_details lower (es : list POEntry) (k bs : Z)
    (sim : Dict (list str)) (mode : str) (recs : list BatchRecord)
    (count : Z) :
  extract_batch lower es k bs sim mode = Ok (recs, count) ->
  Forall (fun r =>
            length (r_similar_strings r) <= 5
            /\ ~ In (r_msgid r) (r_similar_strings r)
            /\ length (r_references r) <= 3
            /\ (r_similar_strings r = []
                \/ exists g ms, dict_get sim g = Some ms
                                /\ incl (r_similar_strings r) ms))
    recs.
Proof.
  unfold extract_batch.
  destruct (match filter_entries es mode with
            | [] => Ok 0%Z
            | _ :: _ =>
                floordiv (Z.of_nat (length (filter_entries es mode)) + bs - 1)
                  bs
            end) as [t|]; cbn [bind]; [|discriminate].
  destruct ((k <? 1) || (t <? k))%Z.
  - intros H. injection H as <- _. constructor.
  - rewrite TranslateFacts.build_records_ok. cbn [bind].
    intros H. injection H as <- _. apply records_from_details.
Qed.

Lemma record_details_witness :
  exists recs count,
    extract_batch (fun s => s) [Samples.cancel_entry] 1 1 [] (lit "all")
    = Ok (recs, count)
    /\ Forall (fun r => length (r_references r) <= 3) recs.
Proof.
  eexists. eexists. split; [vm_compute; reflexivity|].
  eapply Forall_impl;
    [|refine (record_details (fun s => s) [Samples.cancel_entry] 1 1 []
                (lit "all") _ _ _); vm_compute; reflexivity].
  intros r H. exact (proj1 (proj2 (proj2 H))).
Defined.
End ExtractFacts.

(** ** Importing and applying, in general *)

Module MergeFacts.

Import Translate PyFacts Notions MoreNotions.

Lemma In_set_add (s : list str) (x k : str) :
  In k (set_add s x) <-> In k s \/ k = x.
Proof.
  rewrite <- !mem_In, mem_set_add, orb_true_iff, str_eqb_eq. reflexivity.
Qed.

Lemma import_item_ok (idx : Dict POEntry) (L : list Item)
    (st : ImportState) (it : Item) :
  In it L -> import_ok idx L st -> import_ok idx L (import_item idx st it).
Proof.
  intros Hin (A & B). unfold import_item.
  destruct (item_msgid it) as [m|] eqn:Em; [|split; assumption].
  destruct (truthy m); cbn [negb]; [|split; assumption].
  destruct (dict_get idx m) as [e|] eqn:L1; [|split; assumption].
  destruct (is_verified e) eqn:V.
  - split; [exact A|]. cbn [skipped_verified]. intros k Hk.
    apply In_set_add in Hk. destruct Hk as [Hk | ->]; [apply B, Hk | eauto].
  - destruct (item_msgstr it) as [t|] eqn:Es; [|split; assumption].
    split; [|exact B]. cbn [translations]. intros k t' Hk.
    destruct (str_eqb m k) eqn:E.
    + apply str_eqb_eq in E. subst k. rewrite dict_get_set_same in Hk.
      injection Hk as <-. split; [eauto|]. exists it. auto.
    + apply str_eqb_neq in E. rewrite dict_get_set_other in Hk by assumption.
      apply A, Hk.
Qed.

Lemma import_fold_ok (idx : Dict POEntry) (L items : list Item) :
  (forall it, In it items -> In it L) ->
  forall st, import_ok idx L st ->
    import_ok idx L (fold_left (import_item idx) items st).
Proof.
  induction items as [|it items IH]; intros HL st Inv; [exact Inv|].
  cbn [fold_left]. apply IH; [intros; apply HL; right; assumption|].
  apply import_item_ok; [apply HL; left; reflexivity | exact Inv].
Qed.

(** X9.  What an import returns: every id of the mapping is non-empty,
    is the id of an entry of the file that is not verified, and maps to
    the translation of an imported item with that id; every skipped id
    is the id of a verified entry of the file; and no id is both in the
    mapping and among the skipped ones. *)
Theorem import_results (data : ImportData) (es : list POEntry) :
  (forall k t,
     dict_get (translations (import_translations data es)) k = Some t ->
     k <> []
     /\ (exists e, In e es /\ msgid e = k /\ is_verified e = false)
     /\ exists it, In it (import_items data) /\ item_msgid it = Some k
                   /\ item_msgstr it = Some t)
  /\ (forall k,
        In k (skipped_verified (import_translations data es)) ->
        (exists e, In e es /\ msgid e = k /\ is_verified e = true)
        /\ dict_get (translations (import_translations data es)) k = None).
Proof.
  assert (Inv : import_ok (build_msgid_to_entry es) (import_items data)
                  (import_translations data es)).
  { unfold import_translations. apply import_fold_ok; [auto|].
    split; [intros k t H; discriminate | intros k H; contradiction]. }
  destruct Inv as (A & B). split.
  - intros k t H. destruct (A k t H) as ((e & L & V) & I).
    destruct (TranslateFacts.lookup_sound es k e L) as (Hin & Hm & T).
    split; [destruct k; [discriminate | discriminate]|].
    split; [eauto | exact I].
  - intros k H. destruct (B k H) as (e & L & V).
    destruct (TranslateFacts.lookup_sound es k e L) as (Hin & Hm & T).
    split; [eauto|].
    destruct (dict_get (translations (import_translations data es)) k)
      as [t|] eqn:G; [|reflexivity].
    destruct (A k t G) as ((e' & L' & V') & _). congruence.
Qed.

Lemma import_results_witness :
  dict_get
    (translations
       (import_translations Samples.save_import [Samples.save_untranslated]))
    (lit "Save") = Some (lit "Sauver")
  /\ exists e, In e [Samples.save_untranslated] /\ msgid e = lit "Save"
               /\ is_verified e = false.
Proof.
  assert (H : dict_get
                (translations
                   (import_translations Samples.save_import
                      [Samples.save_untranslated]))
                (lit "Save") = Some (lit "Sauver")) by reflexivity.
  split; [exact H|].
  exact (proj1 (proj2 (proj1 (import_results Samples.save_import
                                [Samples.save_untranslated]) _ _ H))).
Defined.


Lemma import_item_keeps (idx : Dict POEntry) (st : ImportState) (it : Item)
    (m : str) :
  (item_msgid it = Some m -> item_msgstr it = None) ->
  dict_get (translations (import_item idx st it)) m
  = dict_get (translations st) m.
Proof.
  intros H. unfold import_item.
  destruct (item_msgid it) as [k|]; [|reflexivity].
  destruct (truthy k); cbn [negb]; [|reflexivity].
  destruct (dict_get idx k); [|reflexivity].
  destruct (is_verified p); [reflexivity|].
  destruct (item_msgstr it) as [t|] eqn:Es; [|reflexivity].
  cbn [translations]. apply dict_get_set_other.
  intros ->. specialize (H eq_refl). discriminate.
Qed.

Lemma import_fold_keeps (idx : Dict POEntry) (items : list Item) (m : str) :
  (forall it, In it items -> item_msgid it = Some m ->
              item_msgstr it = None) ->
  forall st,
    dict_get (translations (fold_left (import_item idx) items st)) m
    = dict_get (translations st) m.
Proof.
  induction items as [|it items IH]; intros H st; [reflexivity|].
  cbn [fold_left]. rewrite IH by (intros; apply H; [right|]; assumption).
  apply import_item_keeps. apply H. left. reflexivity.
Qed.

(** X10.  Within one imported list the last item that gives a
    translation for an id wins: when an item for an id that resolves to
    an entry that is not verified gives the translation [t], and no
    later item of the list gives a translation for that id, the mapping
    holds [t] under the id, whatever came before. *)
Theorem later_item_wins (es : list POEntry) (l1 l2 : list Item) (it : Item)
    (m t : str) (e : POEntry) (other : option (list Item)) :
  item_msgid it = Some m ->
  item_msgstr it = Some t ->
  dict_get (build_msgid_to_entry es) m = Some e ->
  is_verified e = false ->
  (forall it', In it' l2 -> item_msgid it' = Some m ->
               item_msgstr it' = None) ->
  dict_get
    (translations
       (import_translations
          {| data_translations := Some (l1 ++ it :: l2);
             data_entries := other |} es)) m
  = Some t.
Proof.
  intros Hm Ht L V Hl2. unfold import_translations, import_items.
  cbn [data_translations]. rewrite fold_left_app. cbn [fold_left].
  rewrite import_fold_keeps by assumption.
  destruct (TranslateFacts.lookup_sound es m e L) as (_ & _ & T).
  unfold import_item at 1. rewrite Hm, T, L, V, Ht. cbn [negb translations].
  apply dict_get_set_same.
Qed.

Lemma later_item_wins_witness :
  dict_get
    (translations
       (import_translations
          {| data_translations :=
               Some ([{| item_msgid := Some (lit "Save");
                         item_msgstr := Some (lit "Garder") |}]
                     ++ {| item_msgid := Some (lit "Save");
                           item_msgstr := Some (lit "Sauver") |}
                     :: [{| item_msgid := Some (lit "Save");
                            item_msgstr := None |}]);
             data_entries := None |} [Samples.save_untranslated]))
    (lit "Save")
  = Some (lit "Sauver").
Proof.
  apply (later_item_wins [Samples.save_untranslated]
           [{| item_msgid := Some (lit "Save");
               item_msgstr := Some (lit "Garder") |}]
           [{| item_msgid := Some (lit "Save"); item_msgstr := None |}]
           {| item_msgid := Some (lit "Save");
              item_msgstr := Some (lit "Sauver") |}
           (lit "Save") (lit "Sauver") Samples.save_untranslated None
           eq_refl eq_refl eq_refl eq_refl).
  intros it' [<- | []] _. reflexivity.
Defined.

(** *** Merging the files of one apply *)

Lemma dict_set_keys (V : Type) (d : Dict V) (k : str) (v : V) :
  dict_keys (dict_set d k v)
  = if dict_mem d k then dict_keys d else dict_keys d ++ [k].
Proof.
  unfold dict_mem, dict_keys. induction d as [|[k' v'] d IH]; [reflexivity|].
  cbn [dict_set dict_get]. destruct (str_eqb k k') eqn:E; [reflexivity|].
  cbn [map fst]. rewrite IH. destruct (dict_get d k); reflexivity.
Qed.

Lemma dict_set_nodup (V : Type) (d : Dict V) (k : str) (v : V) :
  NoDup (dict_keys d) -> NoDup (dict_keys (dict_set d k v)).
Proof.
  intros H. rewrite dict_set_keys. unfold dict_mem.
  destruct (dict_get d k) eqn:G; [exact H|].
  apply NoDup_app; [exact H | repeat constructor; intros [] |].
  intros x Hx [<- | []]. apply dict_get_In_keys in Hx. congruence.
Qed.

Lemma import_item_nodup (idx : Dict POEntry) (st : ImportState) (it : Item) :
  NoDup (dict_keys (translations st)) ->
  NoDup (dict_keys (translations (import_item idx st it))).
Proof.
  intros H. unfold import_item.
  destruct (item_msgid it) as [k|]; [|exact H].
  destruct (truthy k); cbn [negb]; [|exact H].
  destruct (dict_get idx k); [|exact H].
  destruct (is_verified p); [exact H|].
  destruct (item_msgstr it); [|exact H].
  cbn [translations]. apply dict_set_nodup, H.
Qed.

Lemma import_translations_nodup (data : ImportData) (es : list POEntry) :
  NoDup (dict_keys (translations (import_translations data es))).
Proof.
  unfold import_translations.
  set (st0 := {| translations := []; errors := []; skipped_verified := [] |}).
  assert (H0 : NoDup (dict_keys (translations st0))) by constructor.
  revert H0. generalize st0.
  induction (import_items data) as [|it items IH]; intros st H; [exact H|].
  cbn [fold_left]. apply IH, import_item_nodup, H.
Qed.

Lemma dict_update_get (V : Type) (d' : Dict V) (k : str) :
  NoDup (dict_keys d') ->
  forall d,
    dict_get (dict_update d d') k
    = match dict_get d' k with
      | Some v => Some v
      | None => dict_get d k
      end.
Proof.
  unfold dict_update. induction d' as [|[k1 v1] r IH]; intros ND d;
    [reflexivity|].
  cbn [fold_left fst snd dict_get].
  unfold dict_keys in ND. cbn [map fst] in ND.
  apply NoDup_cons_iff in ND. destruct ND as [Hk ND].
  rewrite IH by exact ND. destruct (str_eqb k k1) eqn:E.
  - apply str_eqb_eq in E. subst k1.
    destruct (dict_get r k) eqn:G.
    + exfalso. apply Hk. apply dict_get_In_keys. congruence.
    + apply dict_get_set_same.
  - apply str_eqb_neq in E.
    destruct (dict_get r k); [reflexivity|].
    apply dict_get_set_other. congruence.
Qed.

(** X11.  When several files are merged for one apply, the file read
    later wins: after one more file, the merged mapping holds under an
    id the translation of that file when it has one, and what the files
    before it gave otherwise. *)
Theorem later_file_wins (fs : list ImportData) (f : ImportData)
    (es : list POEntry) (k : str) :
  dict_get (translations (import_all (fs ++ [f]) es)) k
  = match dict_get (translations (import_translations f es)) k with
    | Some t => Some t
    | None => dict_get (translations (import_all fs es)) k
    end.
Proof.
  unfold import_all. rewrite fold_left_app. cbn [fold_left translations].
  apply dict_update_get, import_translations_nodup.
Qed.

(** *** apply_translations *)

Lemma apply_translations_count (es : list POEntry) (tr : Dict str) :
  snd (apply_translations es tr)
  = length (filter (fun e => dict_mem tr (msgid e) && negb (is_verified e))
              es).
Proof.
  induction es as [|e es IH]; [reflexivity|].
  cbn [apply_translations filter].
  destruct (apply_translations es tr) as [r n]. cbn [snd] in IH.
  unfold apply_entry, dict_mem.
  destruct (dict_get tr (msgid e)); [destruct (is_verified e)|];
    cbn [snd andb negb length]; rewrite IH; reflexivity.
Qed.

(** X12.  [apply_translations] writes translations and nothing else:
    the entries keep their order, and their comments, references, flags,
    ids, plural forms, line numbers and header flags; the translation of
    an entry becomes the one the mapping holds for its id when the entry
    is not verified, and stays as it is otherwise; and the count
    returned is the number of entries written. *)
Theorem apply_effect (es : list POEntry) (tr : Dict str) :
  map (fun e => (comments e, references e, flags e, msgid e, msgid_plural e,
                 msgstr_plural e, line_number e, is_header e))
    (fst (apply_translations es tr))
  = map (fun e => (comments e, references e, flags e, msgid e,
                   msgid_plural e, msgstr_plural e, line_number e,
                   is_header e)) es
  /\ map msgstr (fst (apply_translations es tr))
     = map (fun e =>
              match dict_get tr (msgid e) with
              | Some t => if is_verified e then msgstr e else t
              | None => msgstr e
              end) es
  /\ snd (apply_translations es tr)
     = length (filter (fun e => dict_mem tr (msgid e)
                                && negb (is_verified e)) es)
  /\ snd (apply_translations es tr) <= length es.
Proof.
  rewrite TranslateFacts.apply_translations_map, !map_map.
  split; [|split; [|split]].
  - apply map_ext. intros e. unfold apply_entry.
    destruct (dict_get tr (msgid e)); [destruct (is_verified e)|];
      reflexivity.
  - apply map_ext. intros e. unfold apply_entry.
    destruct (dict_get tr (msgid e)); [destruct (is_verified e)|];
      reflexivity.
  - apply apply_translations_count.
  - rewrite apply_translations_count. apply filter_length_le.
Qed.

(** X13.  Applying the same mapping a second time changes no entry. *)
Theorem apply_twice (es : list POEntry) (tr : Dict str) :
  fst (apply_translations (fst (apply_translations es tr)) tr)
  = fst (apply_translations es tr).
Proof.
  rewrite !TranslateFacts.apply_translations_map, map_map.
  apply map_ext. intros e. unfold apply_entry.
  destruct (dict_get tr (msgid e)) as [t|] eqn:G.
  - destruct (is_verified e) eqn:V; cbn [fst].
    + rewrite G, V. reflexivity.
    + cbn [msgid set_msgstr]. rewrite G.
      destruct (is_verified (set_msgstr e t)); reflexivity.
  - cbn [fst]. rewrite G. reflexivity.
Qed.
End MergeFacts.

(** ** Marking an entry fuzzy in memory *)

Module FuzzyFacts.

Import Translate PyFacts Notions MoreNotions.

Lemma split_char_cons (sep : char) (s : str) :
  exists w ws, split_char sep s = w :: ws.
Proof.
  induction s as [|c s (w & ws & IH)]; cbn [split_char]; [eauto|].
  destruct (N.eqb c sep); [eauto|]. rewrite IH. eauto.
Qed.

Lemma split_char_app (sep : char) (a b : str) :
  split_char sep (a ++ sep :: b) = split_char sep a ++ split_char sep b.
Proof.
  induction a as [|c a IH]; cbn [app split_char].
  - rewrite N.eqb_refl. reflexivity.
  - destruct (N.eqb c sep); [rewrite IH; reflexivity|].
    rewrite IH. destruct (split_char_cons sep a) as (w & ws & E).
    rewrite E. reflexivity.
Qed.

Lemma fuzzy_appended (c : str) :
  startswith (lit "#,") c = true ->
  startswith (lit "#,") (c ++ lit ", fuzzy") = true
  /\ In (lit "fuzzy") (comment_flags (c ++ lit ", fuzzy")).
Proof.
  intros H. apply startswith_prefix in H. destruct H as (r & ->).
  split.
  - rewrite <- app_assoc. apply startswith_app.
  - unfold comment_flags.
    change (skipn 2 ((lit "#," ++ r) ++ lit ", fuzzy"))
      with (r ++ 44%N :: lit " fuzzy").
    rewrite split_char_app, map_app, in_app_iff. right. left. reflexivity.
Qed.

Lemma add_fuzzy_flags (e : POEntry) :
  mem (lit "fuzzy") (flags (add_fuzzy e)) = true.
Proof.
  unfold add_fuzzy. destruct (mem (lit "fuzzy") (flags e)) eqn:M;
    cbn [negb]; [exact M|]. cbv zeta.
  assert (F : mem (lit "fuzzy") (flags e ++ [lit "fuzzy"]) = true).
  { unfold mem. rewrite existsb_app. apply orb_true_r. }
  destruct (existsb _ _); cbn [flags set_comments set_flags]; exact F.
Qed.

(** X14.  [add_fuzzy] leaves an entry fuzzy and not verified, with the
    fields other than the flags and the comments as they were; applied
    again, or to an entry that is fuzzy already, it changes nothing; and
    on an entry that was not fuzzy the comments afterwards hold a flags
    line that lists fuzzy, which is what the writer reads. *)
Theorem add_fuzzy_effect (e : POEntry) :
  is_fuzzy (add_fuzzy e) = true
  /\ is_verified (add_fuzzy e) = false
  /\ add_fuzzy (add_fuzzy e) = add_fuzzy e
  /\ (is_fuzzy e = true -> add_fuzzy e = e)
  /\ (references (add_fuzzy e), msgid (add_fuzzy e),
      msgid_plural (add_fuzzy e), msgstr (add_fuzzy e),
      msgstr_plural (add_fuzzy e), line_number (add_fuzzy e),
      is_header (add_fuzzy e))
     = (references e, msgid e, msgid_plural e, msgstr e, msgstr_plural e,
        line_number e, is_header e)
  /\ (is_fuzzy e = false ->
      exists c, In c (comments (add_fuzzy e))
                /\ startswith (lit "#,") c = true
                /\ In (lit "fuzzy") (comment_flags c)).
Proof.
  pose proof (add_fuzzy_flags e) as F.
  split; [exact F|].
  split; [unfold is_verified, is_fuzzy; rewrite F; apply andb_false_r|].
  split; [unfold add_fuzzy at 1; rewrite F; reflexivity|].
  split; [unfold is_fuzzy, add_fuzzy; intros ->; reflexivity|].
  split.
  - unfold add_fuzzy. destruct (negb _); [|reflexivity]. cbv zeta.
    destruct (existsb _ _); reflexivity.
  - unfold is_fuzzy. intros Hz. unfold add_fuzzy. rewrite Hz. cbn [negb].
    cbv zeta. cbn [comments set_flags].
    destruct (existsb (startswith (lit "#,")) (comments e)) eqn:Hx;
      cbn [comments set_comments].
    + apply existsb_exists in Hx. destruct Hx as (c0 & Hin & Hs).
      destruct (fuzzy_appended c0 Hs) as (S1 & S2).
      exists (c0 ++ lit ", fuzzy"). split; [|split; assumption].
      apply in_map_iff. exists c0. rewrite Hs. auto.
    + exists (lit "#, fuzzy"). split; [|split; [reflexivity|left; reflexivity]].
      unfold list_insert. rewrite in_app_iff. right. left. reflexivity.
Qed.

Lemma add_fuzzy_effect_witness :
  is_fuzzy Samples.noted_entry = false
  /\ exists c, In c (comments (add_fuzzy Samples.noted_entry))
               /\ startswith (lit "#,") c = true
               /\ In (lit "fuzzy") (comment_flags c).
Proof.
  split; [reflexivity|].
  exact (proj2 (proj2 (proj2 (proj2 (proj2
           (add_fuzzy_effect Samples.noted_entry))))) eq_refl).
Defined.

End FuzzyFacts.

(** ** Grouping: similar strings and duplicate translations *)

Module GroupFacts.

Import PyFacts Notions MoreNotions.

Lemma dict_get_append (V : Type) (d : Dict (list V)) (k k' : str) (v : V) :
  dict_get (dict_append d k v) k'
  = if str_eqb k' k
    then Some (match dict_get d k with Some l => l ++ [v] | None => [v] end)
    else dict_get d k'.
Proof.
  unfold dict_append. destruct (str_eqb k' k) eqn:E.
  - apply str_eqb_eq in E. subst k'.
    destruct (dict_get d k); apply dict_get_set_same.
  - apply str_eqb_neq in E.
    destruct (dict_get d k); apply dict_get_set_other; congruence.
Qed.

Lemma dict_append_nodup (V : Type) (d : Dict (list V)) (k : str) (v : V) :
  NoDup (dict_keys d) -> NoDup (dict_keys (dict_append d k v)).
Proof.
  unfold dict_append. destruct (dict_get d k);
    apply MergeFacts.dict_set_nodup.
Qed.

Lemma dict_get_In (V : Type) (d : Dict V) (k : str) (v : V) :
  dict_get d k = Some v -> In (k, v) d.
Proof.
  induction d as [|[k' v'] d IH]; cbn [dict_get]; [discriminate|].
  destruct (str_eqb k k') eqn:E.
  - apply str_eqb_eq in E. intros [= ->]. subst. left. reflexivity.
  - intros H. right. exact (IH H).
Qed.

Lemma In_dict_get (V : Type) (d : Dict V) (k : str) (v : V) :
  NoDup (dict_keys d) -> In (k, v) d -> dict_get d k = Some v.
Proof.
  unfold dict_keys.
  induction d as [|[k' v'] d IH]; cbn [map fst dict_get In]; [tauto|].
  intros ND [E | H].
  - injection E as -> ->. rewrite str_eqb_refl. reflexivity.
  - inversion ND as [|? ? Hn ND']; subst.
    destruct (str_eqb k k') eqn:E.
    + apply str_eqb_eq in E. subst k'. exfalso. apply Hn.
      exact (in_map fst _ _ H).
    + exact (IH ND' H).
Qed.

Lemma some_snoc (V : Type) (l : list V) (v : V) :
  match l ++ [v] with [] => None | x :: r => Some (x :: r) end
  = Some (l ++ [v]).
Proof. destruct l; reflexivity. Qed.

Lemma append_grouped (V : Type) (d : Dict (list V)) (k : str) (v : V)
    (l : list V) :
  dict_get d k = match l with [] => None | x :: r => Some (x :: r) end ->
  Some (match dict_get d k with Some l' => l' ++ [v] | None => [v] end)
  = match l ++ [v] with [] => None | x :: r => Some (x :: r) end.
Proof.
  intros ->. rewrite some_snoc. destruct l; reflexivity.
Qed.


Lemma similar_group_names (m g : str) :
  Translate.similar_group m = Some g -> In g group_names.
Proof.
  unfold Translate.similar_group, group_names.
  repeat match goal with
         | |- context [if ?c then _ else _] => destruct c
         end;
    intros E; try discriminate E; injection E as <-; cbn [In]; tauto.
Qed.

Lemma find_similar_get (es : list Translate.POEntry) (g : str) :
  dict_get (Translate.find_similar_strings es) g
  = match group_ids g es with [] => None | x :: r => Some (x :: r) end.
Proof.
  induction es as [|e es IH] using rev_ind; [reflexivity|].
  unfold Translate.find_similar_strings. rewrite fold_left_app.
  cbn [fold_left]. fold (Translate.find_similar_strings es).
  unfold group_ids. rewrite filter_app, map_app. fold (group_ids g es).
  cbn [filter]. unfold Translate.similar_step.
  destruct (Translate.is_header e || negb (truthy (Translate.msgid e)));
    cbn [negb andb map]; [rewrite app_nil_r; exact IH|].
  destruct (Translate.similar_group (Translate.msgid e)) as [g'|];
    [|cbn [map]; rewrite app_nil_r; exact IH].
  rewrite dict_get_append. destruct (str_eqb g g') eqn:E.
  - apply str_eqb_eq in E. subst g'. cbn [map]. apply append_grouped.
    exact IH.
  - cbn [map]. rewrite app_nil_r. exact IH.
Qed.

Lemma find_similar_nodup (es : list Translate.POEntry) :
  NoDup (dict_keys (Translate.find_similar_strings es)).
Proof.
  induction es as [|e es IH] using rev_ind; [constructor|].
  unfold Translate.find_similar_strings. rewrite fold_left_app.
  cbn [fold_left]. fold (Translate.find_similar_strings es).
  unfold Translate.similar_step.
  destruct (_ || _); [exact IH|].
  destruct (Translate.similar_group _); [|exact IH].
  apply dict_append_nodup, IH.
Qed.

Lemma group_ids_In (g m : str) (es : list Translate.POEntry) :
  In m (group_ids g es) ->
  m <> [] /\ Translate.similar_group m = Some g
  /\ exists e, In e es /\ Translate.msgid e = m
               /\ Translate.is_header e = false.
Proof.
  unfold group_ids. intros H. apply in_map_iff in H.
  destruct H as (e & <- & H). apply filter_In in H. destruct H as (Hin & H).
  apply andb_true_iff in H. destruct H as (H1 & H2).
  apply negb_true_iff, orb_false_iff in H1. destruct H1 as (Hh & Ht).
  apply negb_false_iff in Ht.
  destruct (Translate.similar_group (Translate.msgid e)) as [g'|];
    [|discriminate]. apply str_eqb_eq in H2. subst g'.
  split; [intros E; rewrite E in Ht; discriminate|].
  split; [reflexivity|]. exists e. auto.
Qed.

Lemma find_similar_members (es : list Translate.POEntry) (g : str)
    (l : list str) :
  dict_get (Translate.find_similar_strings es) g = Some l ->
  l = group_ids g es /\ l <> [].
Proof.
  rewrite find_similar_get. destruct (group_ids g es); [discriminate|].
  intros [= <-]. split; [reflexivity | discriminate].
Qed.

(** X15.  What [find_similar_strings] returns: under each group name the
    ids of the entries that pass the guard (no header, an id) and fall
    under the rule of the group, in the order of the file, and no group
    without an id; the names are among the five of the code, each once;
    and no id is filed under two groups. *)
Theorem similar_groups (es : list Translate.POEntry) :
  (forall g,
     dict_get (Translate.find_similar_strings es) g
     = match group_ids g es with [] => None | x :: r => Some (x :: r) end)
  /\ NoDup (dict_keys (Translate.find_similar_strings es))
  /\ (forall g, In g (dict_keys (Translate.find_similar_strings es)) ->
                In g group_names)
  /\ (forall g1 g2 l1 l2 m,
        dict_get (Translate.find_similar_strings es) g1 = Some l1 ->
        dict_get (Translate.find_similar_strings es) g2 = Some l2 ->
        In m l1 -> In m l2 -> g1 = g2).
Proof.
  split; [intros g; apply find_similar_get|].
  split; [apply find_similar_nodup|]. split.
  - intros g Hg. apply dict_get_In_keys in Hg.
    destruct (dict_get (Translate.find_similar_strings es) g) as [l|] eqn:G;
      [|congruence].
    apply find_similar_members in G. destruct G as (-> & Hne).
    destruct (group_ids g es) as [|m r] eqn:Hl; [congruence|].
    assert (Hm : In m (group_ids g es)) by (rewrite Hl; left; reflexivity).
    apply group_ids_In in Hm. destruct Hm as (_ & Hm & _).
    exact (similar_group_names _ _ Hm).
  - intros g1 g2 l1 l2 m G1 G2 H1 H2.
    apply find_similar_members in G1, G2.
    destruct G1 as (-> & _), G2 as (-> & _).
    apply group_ids_In in H1, H2.
    destruct H1 as (_ & H1 & _), H2 as (_ & H2 & _). congruence.
Qed.

Lemma similar_groups_witness :
  dict_get (Translate.find_similar_strings Samples.gesture_entries)
    (lit "KOAssistant: gestures")
  = Some [lit "KOAssistant: Chat"; lit "KOAssistant: Translate"]
  /\ In (lit "KOAssistant: gestures") group_names.
Proof.
  split; [reflexivity|].
  apply (proj1 (proj2 (proj2 (similar_groups Samples.gesture_entries)))).
  apply dict_get_In_keys. discriminate.
Defined.
End GroupFacts.

(** ** The duplicate check *)

Module DuplicateFacts.

Import Validate PyFacts Notions MoreNotions.

Lemma fold_set_add_In (l s : list str) (x : str) :
  In x (fold_left set_add l s) <-> In x s \/ In x l.
Proof.
  revert s. induction l as [|a l IH]; intros s; cbn [fold_left In].
  - tauto.
  - rewrite IH, MergeFacts.In_set_add. intuition congruence.
Qed.

Lemma fold_set_add_nodup (l s : list str) :
  NoDup s -> NoDup (fold_left set_add l s).
Proof.
  revert s. induction l as [|a l IH]; intros s Hs; cbn [fold_left];
    [exact Hs|].
  apply IH. unfold set_add. destruct (mem a s) eqn:M; [exact Hs|].
  apply NoDup_app; [exact Hs | repeat constructor; intros [] |].
  intros x Hx [<- | []]. apply mem_In in Hx. congruence.
Qed.

Lemma two_in_length (A : Type) (l : list A) (x y : A) :
  In x l -> In y l -> x <> y -> 1 < length l.
Proof.
  destruct l as [|a [|b l]]; cbn [In length]; intros Hx Hy Hne.
  - contradiction.
  - destruct Hx as [<- | []], Hy as [<- | []]. congruence.
  - lia.
Qed.

(** A set of strings has more than one element exactly when the list it
    was made from holds two different strings. *)
Lemma set_of_two (l : list str) :
  (1 <? length (set_of l)) = true
  <-> exists x y, In x l /\ In y l /\ x <> y.
Proof.
  rewrite Nat.ltb_lt. unfold set_of. split.
  - intros H.
    pose proof (fold_set_add_nodup l [] (NoDup_nil _)) as ND.
    pose proof (fun x => proj1 (fold_set_add_In l [] x)) as Hin.
    destruct (fold_left set_add l []) as [|a [|b r]];
      cbn [length] in H; [lia | lia |].
    exists a, b. split; [|split].
    + destruct (Hin a (or_introl eq_refl)) as [[] | Ha]. exact Ha.
    + destruct (Hin b (or_intror (or_introl eq_refl))) as [[] | Hb].
      exact Hb.
    + inversion ND as [|? ? Hn _]; subst. intros ->. apply Hn. left.
      reflexivity.
  - intros (x & y & Hx & Hy & Hne).
    apply (two_in_length _ _ x y); [| |exact Hne];
      apply fold_set_add_In; right; assumption.
Qed.

Lemma dup_groups_get (es : list POEntry) (s : str) :
  dict_get (fold_left dup_step es []) s
  = match same_translation s es with
    | [] => None
    | x :: r => Some (x :: r)
    end.
Proof.
  induction es as [|e es IH] using rev_ind; [reflexivity|].
  rewrite fold_left_app. cbn [fold_left].
  unfold same_translation. rewrite filter_app, map_app.
  fold (same_translation s es). cbn [filter]. unfold dup_step.
  destruct (truthy (msgstr e) && truthy (msgid e));
    cbn [andb map]; [|rewrite app_nil_r; exact IH].
  destruct (10 <? length (msgstr e));
    cbn [andb map]; [|rewrite app_nil_r; exact IH].
  rewrite GroupFacts.dict_get_append. destruct (str_eqb s (msgstr e)) eqn:E.
  - apply str_eqb_eq in E. subst s. cbn [map].
    apply GroupFacts.append_grouped. exact IH.
  - cbn [map]. rewrite app_nil_r. exact IH.
Qed.

Lemma dup_groups_nodup (es : list POEntry) :
  NoDup (dict_keys (fold_left dup_step es [])).
Proof.
  induction es as [|e es IH] using rev_ind; [constructor|].
  rewrite fold_left_app. cbn [fold_left]. unfold dup_step.
  destruct (_ && _); [|exact IH].
  destruct (10 <? _); [|exact IH].
  apply GroupFacts.dict_append_nodup, IH.
Qed.

Lemma same_translation_In (s m : str) (n : N) (es : list POEntry) :
  In (m, n) (same_translation s es)
  <-> exists e, In e es /\ msgid e = m /\ line_number e = n
                /\ msgstr e = s /\ m <> [] /\ 10 < length s.
Proof.
  unfold same_translation. rewrite in_map_iff. split.
  - intros (e & E & H). injection E as <- <-. apply filter_In in H.
    destruct H as (Hin & H).
    apply andb_true_iff in H. destruct H as (H & Hs).
    apply andb_true_iff in H. destruct H as (H & Hl).
    apply andb_true_iff in H. destruct H as (_ & Hm).
    apply str_eqb_eq in Hs. subst s. apply Nat.ltb_lt in Hl.
    exists e. repeat split; try assumption.
    intros E. rewrite E in Hm. discriminate.
  - intros (e & Hin & <- & <- & <- & Hm & Hl). exists e.
    split; [reflexivity|]. apply filter_In. split; [exact Hin|].
    rewrite str_eqb_refl, andb_true_r. apply Nat.ltb_lt in Hl. rewrite Hl.
    rewrite andb_true_r.
    destruct (msgid e); [congruence|].
    destruct (msgstr e); [cbn in Hl; discriminate|]. reflexivity.
Qed.

(** The items of the groups that the second loop reports, against the
    entries. *)
Lemma reported_pairs (es : list POEntry) :
  (exists item, In item (fold_left dup_step es [])
                /\ dup_reported item = true)
  <-> exists e1 e2, In e1 es /\ In e2 es /\ duplicate_pair e1 e2.
Proof.
  split.
  - intros ([s l] & Hin & Hr).
    apply (GroupFacts.In_dict_get _ _ _ _ (dup_groups_nodup es)) in Hin.
    rewrite dup_groups_get in Hin.
    assert (Hl : l = same_translation s es).
    { destruct (same_translation s es); [discriminate|].
      injection Hin as <-. reflexivity. }
    unfold dup_reported in Hr. cbn [snd] in Hr.
    apply andb_true_iff in Hr. destruct Hr as (_ & Hr).
    apply set_of_two in Hr. destruct Hr as (x & y & Hx & Hy & Hne).
    apply in_map_iff in Hx, Hy.
    destruct Hx as ([x' nx] & <- & Hx), Hy as ([y' ny] & <- & Hy).
    cbn [fst] in Hne. rewrite Hl in Hx, Hy.
    apply same_translation_In in Hx, Hy.
    destruct Hx as (e1 & I1 & M1 & _ & S1 & N1 & L1).
    destruct Hy as (e2 & I2 & M2 & _ & S2 & N2 & _).
    exists e1, e2. unfold duplicate_pair.
    rewrite M1, M2, S1, S2. auto 10.
  - intros (e1 & e2 & I1 & I2 & S & L & N1 & N2 & Hne).
    set (s := msgstr e1).
    assert (H1 : In (msgid e1, line_number e1) (same_translation s es)).
    { apply same_translation_In. exists e1. auto 10. }
    assert (H2 : In (msgid e2, line_number e2) (same_translation s es)).
    { apply same_translation_In. exists e2. unfold s. rewrite S.
      rewrite S in L. auto 10. }
    exists (s, same_translation s es). split.
    + apply GroupFacts.dict_get_In. rewrite dup_groups_get.
      destruct (same_translation s es); [contradiction | reflexivity].
    + unfold dup_reported. cbn [snd]. apply andb_true_iff. split.
      * apply Nat.ltb_lt.
        apply (two_in_length _ _ _ _ H1 H2). congruence.
      * apply set_of_two. exists (msgid e1), (msgid e2).
        split; [|split; [|exact Hne]].
        -- exact (in_map fst _ _ H1).
        -- exact (in_map fst _ _ H2).
Qed.

Lemma dup_warn_cases (repr : list str -> str) (r : ValidationResult)
    (item : str * list (str * N)) :
  exists w,
    dup_warn repr r item
    = if dup_reported item
      then add_warning r (lit "DUPLICATE_TRANSLATION") w 0
      else r.
Proof.
  unfold dup_warn, dup_reported. cbv zeta.
  destruct (1 <? length (snd item)); cbn [andb]; [|exists []; reflexivity].
  destruct (1 <? length (set_of (map fst (snd item))));
    [eexists; reflexivity | exists []; reflexivity].
Qed.

Lemma duplicate_issue_tagged (w : str) :
  startswith (lit "[DUPLICATE_TRANSLATION] ")
    (format_issue (lit "DUPLICATE_TRANSLATION") w 0) = true.
Proof.
  apply startswith_prefix. exists w. reflexivity.
Qed.

Lemma dup_warn_fold (repr : list str -> str)
    (items : Dict (list (str * N))) (r : ValidationResult) :
  errors (fold_left (dup_warn repr) items r) = errors r
  /\ info (fold_left (dup_warn repr) items r) = info r
  /\ exists ws,
       warnings (fold_left (dup_warn repr) items r) = warnings r ++ ws
       /\ Forall (fun w => startswith (lit "[DUPLICATE_TRANSLATION] ") w
                           = true) ws
       /\ (ws <> [] <-> exists item, In item items
                                     /\ dup_reported item = true).
Proof.
  revert r. induction items as [|item items IH]; intros r; cbn [fold_left].
  - split; [reflexivity|]. split; [reflexivity|]. exists [].
    rewrite app_nil_r. split; [reflexivity|]. split; [constructor|].
    split; [congruence | intros (? & [] & _)].
  - destruct (IH (dup_warn repr r item)) as (E & I & ws & W & T & P).
    destruct (dup_warn_cases repr r item) as (w & C).
    rewrite E, I, W, C. clear E I W C.
    destruct (dup_reported item) eqn:D; cbn [errors info warnings add_warning].
    + split; [reflexivity|]. split; [reflexivity|].
      exists (format_issue (lit "DUPLICATE_TRANSLATION") w 0 :: ws).
      rewrite <- app_assoc. split; [reflexivity|].
      split; [constructor; [apply duplicate_issue_tagged | exact T]|].
      split; [intros _; exists item; split; [left; reflexivity | exact D]
             | discriminate].
    + split; [reflexivity|]. split; [reflexivity|]. exists ws.
      split; [reflexivity|]. split; [exact T|]. rewrite P. split.
      * intros (i & Hi & Di). exists i. split; [right; exact Hi | exact Di].
      * intros (i & [<- | Hi] & Di); [congruence|]. exists i. auto.
Qed.

(** X16.  [check_duplicates] only warns: it leaves the errors and the
    notes as they are and appends warnings tagged DUPLICATE_TRANSLATION;
    and it appends at least one exactly when two entries with different
    ids, both with an id, have one translation of more than ten
    characters. *)
Theorem duplicates_report (repr : list str -> str) (es : list POEntry)
    (r : ValidationResult) :
  errors (check_duplicates repr es r) = errors r
  /\ info (check_duplicates repr es r) = info r
  /\ exists ws,
       warnings (check_duplicates repr es r) = warnings r ++ ws
       /\ Forall (fun w => startswith (lit "[DUPLICATE_TRANSLATION] ") w
                           = true) ws
       /\ (ws <> [] <-> exists e1 e2, In e1 es /\ In e2 es
                                      /\ duplicate_pair e1 e2).
Proof.
  unfold check_duplicates.
  destruct (dup_warn_fold repr (fold_left dup_step es []) r)
    as (E & I & ws & W & T & P).
  split; [exact E|]. split; [exact I|]. exists ws.
  split; [exact W|]. split; [exact T|].
  rewrite P. apply reported_pairs.
Qed.


Lemma duplicates_report_witness :
  exists e1 e2,
    In e1 Samples.same_translation_entries
    /\ In e2 Samples.same_translation_entries /\ duplicate_pair e1 e2.
Proof.
  destruct (duplicates_report (fun _ => []) Samples.same_translation_entries
              new_ValidationResult) as (_ & _ & ws & W & _ & P).
  apply P. intros ->. vm_compute in W. discriminate W.
Defined.
End DuplicateFacts.

(** ** The report on a language *)

Module ReportFacts.

Import Validate PyFacts Notions MoreNotions.

Lemma appends_id (P : str -> Prop) : appends P (fun r => r).
Proof.
  exists []. split; [constructor|]. intros r. rewrite app_nil_r. reflexivity.
Qed.

Lemma appends_add_error (P : str -> Prop) (c m : str) (line : N) :
  P (format_issue c m line) -> appends P (fun r => add_error r c m line).
Proof.
  intros H. exists [format_issue c m line].
  split; [constructor; [exact H | constructor]|]. reflexivity.
Qed.

Lemma appends_add_warning (P : str -> Prop) (c m : str) (line : N) :
  appends P (fun r => add_warning r c m line).
Proof.
  exists []. split; [constructor|]. intros r. rewrite app_nil_r. reflexivity.
Qed.

Lemma appends_comp (P : str -> Prop)
    (f g : ValidationResult -> ValidationResult) :
  appends P f -> appends P g -> appends P (fun r => g (f r)).
Proof.
  intros (l1 & T1 & H1) (l2 & T2 & H2). exists (l1 ++ l2).
  split; [apply Forall_app; auto|]. intros r.
  rewrite H2, H1, app_assoc. reflexivity.
Qed.

Lemma appends_fold (X : Type) (P : str -> Prop)
    (step : ValidationResult -> X -> ValidationResult) (xs : list X) :
  (forall x, appends P (fun r => step r x)) ->
  appends P (fun r => fold_left step xs r).
Proof.
  intros H. induction xs as [|x xs IH]; cbn [fold_left]; [apply appends_id|].
  exact (appends_comp P (fun r => step r x) (fun r => fold_left step xs r)
           (H x) IH).
Qed.

Lemma entry_issue_tagged (c m : str) (line : N) :
  In c [lit "PLACEHOLDER_MISMATCH"; lit "WRONG_PLACEHOLDER_FORMAT";
        lit "BRAND_NAME_TRANSLATED"] ->
  entry_error_tag (format_issue c m line).
Proof.
  unfold entry_error_tag.
  intros [<- | [<- | [<- | []]]]; [left | right; left | right; right];
    apply startswith_prefix; exists (line_prefix line ++ m); reflexivity.
Qed.

Lemma check_placeholder_appends (e : POEntry) (i : N) :
  appends entry_error_tag (fun r => check_placeholder e r i).
Proof.
  unfold check_placeholder. cbv zeta. destruct (negb _); [|apply appends_id].
  apply appends_add_error, entry_issue_tagged. left. reflexivity.
Qed.

Lemma check_wrong_format_appends (e : POEntry) :
  appends entry_error_tag (check_wrong_format e).
Proof.
  unfold check_wrong_format. cbv zeta.
  destruct (re_search numbered_at (msgid e)); [|apply appends_id].
  destruct (findall_go printf_at 2 0 (msgstr e)); [apply appends_id|].
  apply appends_add_error, entry_issue_tagged. right. left. reflexivity.
Qed.

Lemma check_brand_appends (e : POEntry) (b : str) :
  appends entry_error_tag (fun r => check_brand e r b).
Proof.
  unfold check_brand. destruct (_ && _); [|apply appends_id].
  destruct (find _ _); [|apply appends_add_warning].
  apply appends_add_error, entry_issue_tagged. right. right. left.
  reflexivity.
Qed.

Lemma check_term_appends re (e : POEntry) (t : str) :
  appends entry_error_tag (fun r => check_term re e r t).
Proof.
  unfold check_term. destruct (_ && _);
    [apply appends_add_warning | apply appends_id].
Qed.

Lemma check_newlines_appends (e : POEntry) :
  appends entry_error_tag (check_newlines e).
Proof.
  unfold check_newlines. cbv zeta. destruct (negb _);
    [apply appends_add_warning | apply appends_id].
Qed.

Lemma validate_entry_appends re (e : POEntry) (lang : str) :
  appends entry_error_tag (fun r => validate_entry re e r lang).
Proof.
  unfold validate_entry. cbv zeta.
  destruct (negb (truthy (msgid e))); [apply appends_id|].
  destruct (negb (truthy (msgstr e))); [apply appends_add_warning|].
  apply (appends_comp _
           (fun r =>
              fold_left (check_term re e) TECHNICAL_TERMS
                (fold_left (check_brand e) BRAND_NAMES
                   (check_wrong_format e
                      (fold_left (check_placeholder e)
                         [1; 2; 3; 4; 5; 6; 7; 8; 9]%N r))))
           (check_newlines e)); [|apply check_newlines_appends].
  apply (appends_comp _
           (fun r =>
              fold_left (check_brand e) BRAND_NAMES
                (check_wrong_format e
                   (fold_left (check_placeholder e)
                      [1; 2; 3; 4; 5; 6; 7; 8; 9]%N r)))
           (fun r => fold_left (check_term re e) TECHNICAL_TERMS r));
    [|apply appends_fold, check_term_appends].
  apply (appends_comp _
           (fun r =>
              check_wrong_format e
                (fold_left (check_placeholder e)
                   [1; 2; 3; 4; 5; 6; 7; 8; 9]%N r))
           (fun r => fold_left (check_brand e) BRAND_NAMES r));
    [|apply appends_fold, check_brand_appends].
  apply (appends_comp _
           (fun r =>
              fold_left (check_placeholder e)
                [1; 2; 3; 4; 5; 6; 7; 8; 9]%N r)
           (check_wrong_format e));
    [|apply check_wrong_format_appends].
  apply appends_fold, check_placeholder_appends.
Qed.

(** The errors an entry adds do not depend on the result it is added
    to. *)
Lemma validate_entry_split re (e : POEntry) (lang : str)
    (r : ValidationResult) :
  errors (validate_entry re e r lang)
  = errors r ++ errors (validate_entry re e new_ValidationResult lang)
  /\ Forall entry_error_tag
       (errors (validate_entry re e new_ValidationResult lang)).
Proof.
  destruct (validate_entry_appends re e lang) as (l & T & H).
  rewrite (H r), (H new_ValidationResult). split; [reflexivity | exact T].
Qed.

Lemma validate_entries_errors re (lang : str) (es : list POEntry) :
  forall r,
    errors (fold_left (fun r e => validate_entry re e r lang) es r)
    = errors r
      ++ concat (map (fun e => errors (validate_entry re e
                                         new_ValidationResult lang)) es).
Proof.
  induction es as [|e es IH]; intros r; cbn [fold_left map concat].
  - rewrite app_nil_r. reflexivity.
  - rewrite IH, (proj1 (validate_entry_split re e lang r)), app_assoc.
    reflexivity.
Qed.

Lemma passed_concat (A : Type) (f : A -> ValidationResult) (l : list A)
    (r : ValidationResult) :
  errors r = concat (map (fun a => errors (f a)) l) ->
  passed r = forallb (fun a => passed (f a)) l.
Proof.
  unfold passed. intros ->. induction l as [|a l IH]; [reflexivity|].
  cbn [map concat forallb]. destruct (errors (f a)); [exact IH | reflexivity].
Qed.

Lemma entry_tag_not_parse (m : str) :
  entry_error_tag m -> startswith (lit "[PARSE_ERROR]") m = false.
Proof.
  intros [H | [H | H]]; apply startswith_prefix in H;
    destruct H as (t & ->); reflexivity.
Qed.

(** X17.  The errors of the report on a language, for a file the parser
    reads: they are the errors of its entries, each validated by itself,
    in the order of the file; each is tagged PLACEHOLDER_MISMATCH,
    WRONG_PLACEHOLDER_FORMAT or BRAND_NAME_TRANSLATED, none PARSE_ERROR;
    and the language passes exactly when every entry passes by
    itself. *)
Theorem language_errors re (repr : list str -> str) (ex : exn -> str)
    (lang text : str) (es : list POEntry) :
  parse_po_file text = Ok es ->
  errors (validate_language re repr ex lang text)
  = concat (map (fun e => errors (validate_entry re e new_ValidationResult
                                    lang)) es)
  /\ Forall (fun m => entry_error_tag m
                      /\ startswith (lit "[PARSE_ERROR]") m = false)
       (errors (validate_language re repr ex lang text))
  /\ passed (validate_language re repr ex lang text)
     = forallb (fun e => passed (validate_entry re e new_ValidationResult
                                   lang)) es.
Proof.
  intros P.
  assert (E : errors (validate_language re repr ex lang text)
              = concat (map (fun e => errors (validate_entry re e
                                                new_ValidationResult lang))
                          es)).
  { unfold validate_language. rewrite P. cbv zeta. unfold check_duplicates.
    rewrite (proj1 (DuplicateFacts.dup_warn_fold repr _ _)).
    rewrite validate_entries_errors. reflexivity. }
  split; [exact E|]. split; [|apply passed_concat; exact E].
  rewrite E. apply Forall_forall. intros m Hm. apply in_concat in Hm.
  destruct Hm as (l & Hl & Hm). apply in_map_iff in Hl.
  destruct Hl as (e & <- & _).
  pose proof (proj2 (validate_entry_split re e lang new_ValidationResult))
    as T.
  rewrite Forall_forall in T. specialize (T m Hm).
  split; [exact T | apply entry_tag_not_parse, T].
Qed.

Lemma language_errors_witness :
  passed (validate_language (fun _ _ => false) (fun _ => []) (fun _ => [])
            (lit "fr") Samples.three_entries_text)
  = false.
Proof.
  refine (eq_trans
            (proj2 (proj2 (language_errors (fun _ _ => false) (fun _ => [])
                             (fun _ => []) (lit "fr")
                             Samples.three_entries_text _ _))) _).
  - vm_compute. reflexivity.
  - vm_compute. reflexivity.
Defined.


(** *** The notes of the report *)

Lemma validator_flush_ids (es : list POEntry) (ce : option POEntry) :
  Forall (fun e => msgid e <> []) es ->
  Forall (fun e => msgid e <> []) (flush es ce).
Proof.
  intros H. unfold flush. destruct ce as [e|]; [|exact H].
  destruct (truthy (msgid e)) eqn:T; [|exact H].
  apply Forall_app. split; [exact H|]. constructor; [|constructor].
  intros E. rewrite E in T. discriminate.
Qed.

Lemma validator_parse_line_entries (st : pstate) (raw : str) :
  ok_then (fun st' => entries st' = entries st
                      \/ entries st' = flush (entries st) (current_entry st))
    (parse_line st raw).
Proof.
  unfold parse_line. cbv zeta.
  set (e := entry_of st (line_no st + 1)).
  set (line := rstrip_char LF raw).
  destruct (negb (truthy (strip line))); [right; reflexivity|].
  destruct (startswith (lit "#") line); [left; reflexivity|].
  destruct (startswith (lit "msgid ") line); [left; reflexivity|].
  destruct (startswith (lit "msgid_plural ") line); [left; reflexivity|].
  destruct (startswith (lit "msgstr ") line); [left; reflexivity|].
  destruct (startswith (lit "msgstr[") line).
  { destruct (Translate.match_msgstr_plural line) as [[g1 g2]|];
      [|left; reflexivity].
    apply DecodeFacts.ok_then_bind. destruct (int g1); [|exact I].
    apply DecodeFacts.ok_then_bind. destruct (list_set _ _ _); [|exact I].
    left. reflexivity. }
  destruct (Translate.quoted line); [|left; reflexivity].
  apply DecodeFacts.ok_then_bind.
  destruct (continue_field e (current_field st) _); [|exact I].
  left. reflexivity.
Qed.

Lemma validator_parse_lines_ids (ls : list str) :
  forall st,
    Forall (fun e => msgid e <> []) (entries st) ->
    ok_then (fun st' => Forall (fun e => msgid e <> []) (entries st'))
      (parse_lines st ls).
Proof.
  induction ls as [|l ls IH]; intros st Inv; [exact Inv|].
  cbn [parse_lines]. apply DecodeFacts.ok_then_bind.
  pose proof (validator_parse_line_entries st l) as H.
  destruct (parse_line st l) as [st1|]; [|exact I].
  apply IH. destruct H as [-> | ->];
    [exact Inv | apply validator_flush_ids, Inv].
Qed.

Lemma validator_entries_ids (text : str) (es : list POEntry) :
  parse_po_file text = Ok es -> Forall (fun e => msgid e <> []) es.
Proof.
  unfold parse_po_file.
  pose proof (validator_parse_lines_ids (Translate.readlines text)
                init_pstate (Forall_nil _)) as P.
  destruct (parse_lines init_pstate (Translate.readlines text)) as [st|];
    cbn [bind]; [|discriminate].
  intros H. injection H as <-. apply validator_flush_ids, P.
Qed.

Lemma fold_info (X : Type)
    (step : ValidationResult -> X -> ValidationResult) (xs : list X) :
  (forall r x, info (step r x) = info r) ->
  forall r, info (fold_left step xs r) = info r.
Proof.
  intros H. induction xs as [|x xs IH]; intros r; cbn [fold_left];
    [reflexivity|]. rewrite IH. apply H.
Qed.

Lemma validate_entry_info re (e : POEntry) (lang : str)
    (r : ValidationResult) :
  info (validate_entry re e r lang) = info r.
Proof.
  unfold validate_entry. cbv zeta.
  destruct (negb (truthy (msgid e))); [reflexivity|].
  destruct (negb (truthy (msgstr e))); [reflexivity|].
  unfold check_newlines. cbv zeta.
  assert (H : info (fold_left (check_term re e) TECHNICAL_TERMS
                      (fold_left (check_brand e) BRAND_NAMES
                         (check_wrong_format e
                            (fold_left (check_placeholder e)
                               [1; 2; 3; 4; 5; 6; 7; 8; 9]%N r))))
              = info r).
  { rewrite fold_info.
    2:{ intros r' t. unfold check_term. destruct (_ && _); reflexivity. }
    rewrite fold_info.
    2:{ intros r' b. unfold check_brand. destruct (_ && _); [|reflexivity].
        destruct (find _ _); reflexivity. }
    unfold check_wrong_format. cbv zeta.
    assert (P : info (fold_left (check_placeholder e)
                        [1; 2; 3; 4; 5; 6; 7; 8; 9]%N r) = info r).
    { apply fold_info. intros r' i. unfold check_placeholder. cbv zeta.
      destruct (negb _); reflexivity. }
    destruct (re_search numbered_at (msgid e)); [|exact P].
    destruct (findall_go printf_at 2 0 (msgstr e)); exact P. }
  destruct (negb _); exact H.
Qed.

Lemma count_translated (es : list POEntry) :
  Forall (fun e => msgid e <> []) es ->
  filter (fun e => truthy (msgstr e) && truthy (msgid e)) es
  = filter (fun e => truthy (msgstr e)) es
  /\ filter (fun e => negb (truthy (msgstr e)) && truthy (msgid e)) es
     = filter (fun e => negb (truthy (msgstr e))) es.
Proof.
  intros H. rewrite Forall_forall in H.
  split; apply filter_ext_in; intros e He; specialize (H e He);
    destruct (msgid e); [congruence| |congruence|]; cbn [truthy];
    apply andb_true_r.
Qed.

(** X18.  The notes of the report on a language, for a file the parser
    reads: the parser returns no entry without an id, so the header is
    not counted; there are two notes, the number of entries and the
    numbers of translated, fuzzy and empty ones; and translated and
    empty add up to the number of entries. *)
Theorem language_notes re (repr : list str -> str) (ex : exn -> str)
    (lang text : str) (es : list POEntry) :
  parse_po_file text = Ok es ->
  let translated := length (filter (fun e => truthy (msgstr e)) es) in
  let empty := length (filter (fun e => negb (truthy (msgstr e))) es) in
  Forall (fun e => msgid e <> []) es
  /\ info (validate_language re repr ex lang text)
     = [lit "[PARSE] Parsed " ++ str_of_N (N.of_nat (length es))
        ++ lit " entries";
        lit "[STATS] Translated: " ++ str_of_N (N.of_nat translated)
        ++ lit ", Fuzzy: "
        ++ str_of_N (N.of_nat (length (filter fuzzy es)))
        ++ lit ", Empty: " ++ str_of_N (N.of_nat empty)]
  /\ translated + empty = length es
  /\ length (filter fuzzy es) <= length es.
Proof.
  intros P translated empty.
  pose proof (validator_entries_ids text es P) as Ids.
  split; [exact Ids|]. split; [|split].
  - unfold validate_language. rewrite P. cbv zeta. unfold check_duplicates.
    rewrite (proj1 (proj2 (DuplicateFacts.dup_warn_fold repr _ _))).
    rewrite fold_info by (intros r e; apply validate_entry_info).
    destruct (count_translated es Ids) as (-> & ->). reflexivity.
  - exact (filter_length (fun e => truthy (msgstr e)) es).
  - apply filter_length_le.
Qed.

Lemma language_notes_witness :
  info (validate_language (fun _ _ => false) (fun _ => []) (fun _ => [])
          (lit "fr") Samples.three_entries_text)
  = [lit "[PARSE] Parsed 2 entries";
     lit "[STATS] Translated: 1, Fuzzy: 0, Empty: 1"].
Proof.
  refine (eq_trans
            (proj1 (proj2 (language_notes (fun _ _ => false) (fun _ => [])
                             (fun _ => []) (lit "fr")
                             Samples.three_entries_text _ _))) _).
  - vm_compute. reflexivity.
  - vm_compute. reflexivity.
Defined.
End ReportFacts.

(** ** The two readers agree *)

Module AgreeFacts.

Import Translate PyFacts Notions MoreNotions.

Lemma core_fields (et : POEntry) (ev : Validate.POEntry) :
  validate_core ev = translate_core et ->
  Validate.comments ev = comments et
  /\ Validate.msgid ev = msgid et
  /\ Validate.msgid_plural ev = msgid_plural et
  /\ Validate.msgstr ev = msgstr et
  /\ Validate.msgstr_plural ev = msgstr_plural et
  /\ Validate.line_number ev = line_number et.
Proof.
  unfold validate_core, translate_core. intros H. injection H.
  intros. repeat split; assumption.
Qed.

Lemma some_eq (A : Type) (a b : A) : Some a = Some b -> a = b.
Proof. congruence. Qed.

Ltac core :=
  unfold validate_core, translate_core;
  cbn [Validate.comments Validate.msgid Validate.msgid_plural
       Validate.msgstr Validate.msgstr_plural Validate.line_number
       Validate.set_comments Validate.set_msgid Validate.set_msgid_plural
       Validate.set_msgstr Validate.set_msgstr_plural Validate.set_fuzzy
       Validate.set_references Validate.set_line_number
       comments msgid msgid_plural msgstr msgstr_plural line_number
       set_comments set_msgid set_msgid_plural set_msgstr
       set_msgstr_plural set_flags set_references set_is_header
       set_line_number];
  congruence.

Lemma flush_related (t : pstate) (v : Validate.pstate) :
  parsers_related t v ->
  map validate_core
    (Validate.flush (Validate.entries v) (Validate.current_entry v))
  = map translate_core
      (filter (fun e => truthy (msgid e))
         (flush (entries t) (current_entry t))).
Proof.
  intros (HE & HC & _). unfold flush, Validate.flush.
  destruct (current_entry t) as [et|], (Validate.current_entry v) as [ev|];
    cbn [option_map] in HC; try discriminate HC; [|exact HE].
  apply some_eq in HC.
  destruct (core_fields _ _ HC) as (_ & C2 & _). rewrite C2.
  destruct (truthy (msgid et)) eqn:T; cbn [orb].
  - rewrite filter_app, !map_app, HE. cbn [filter]. rewrite T. cbn [map].
    rewrite HC. reflexivity.
  - destruct (is_header et); [|exact HE].
    rewrite filter_app. cbn [filter]. rewrite T, app_nil_r. exact HE.
Qed.

Lemma related_next (t : pstate) (v : Validate.pstate) (et : POEntry)
    (ev : Validate.POEntry) (f : option str) (n : N) :
  parsers_related t v ->
  validate_core ev = translate_core et ->
  parsers_related
    {| entries := entries t; current_entry := Some et; current_field := f;
       line_no := n |}
    {| Validate.entries := Validate.entries v;
       Validate.current_entry := Some ev; Validate.current_field := f;
       Validate.line_no := n |}.
Proof.
  intros (HE & _) H. split; [exact HE|]. split; [|split; reflexivity].
  cbn [option_map Validate.current_entry current_entry]. rewrite H.
  reflexivity.
Qed.

Lemma continue_related (et : POEntry) (ev : Validate.POEntry)
    (f : option str) (value : str) :
  validate_core ev = translate_core et ->
  related_res (fun a b => validate_core b = translate_core a)
    (continue_field et f value) (Validate.continue_field ev f value).
Proof.
  intros H. destruct (core_fields _ _ H) as (C1 & C2 & C3 & C4 & C5 & C6).
  unfold continue_field, Validate.continue_field.
  destruct f as [f|]; [|exact H].
  destruct (str_eqb f (lit "msgid")); [cbn [related_res]; core|].
  destruct (str_eqb f (lit "msgid_plural")); [cbn [related_res]; core|].
  destruct (str_eqb f (lit "msgstr")); [cbn [related_res]; core|].
  destruct (truthy f && startswith (lit "msgstr[") f); [|exact H].
  destruct (int (slice f 7 (-1))) as [idx|]; cbn [bind related_res];
    [|reflexivity].
  rewrite C5.
  destruct (list_get (msgstr_plural et) (N.to_nat idx)) as [old|];
    cbn [bind related_res]; [|reflexivity].
  destruct (list_set (msgstr_plural et) (N.to_nat idx) (old ++ value));
    cbn [bind related_res]; [core | reflexivity].
Qed.

Lemma plural_line (line : str) :
  startswith (lit "msgstr[") line = false ->
  match_msgstr_plural line = None.
Proof. intros H. unfold match_msgstr_plural. rewrite H. reflexivity. Qed.

Lemma plural_not_quoted (line : str) :
  startswith (lit "msgstr[") line = true -> quoted line = false.
Proof.
  intros H. apply startswith_prefix in H. destruct H as (r & ->).
  reflexivity.
Qed.

Lemma parse_line_related (t : pstate) (v : Validate.pstate) (raw : str) :
  parsers_related t v ->
  related_res parsers_related (parse_line t raw)
    (Validate.parse_line v raw).
Proof.
  intros R. pose proof R as (HE & HC & HF & HL).
  assert (Hcore : validate_core (Validate.entry_of v (line_no t + 1))
                  = translate_core (entry_of t (line_no t + 1))).
  { unfold Validate.entry_of, entry_of.
    destruct (current_entry t), (Validate.current_entry v);
      cbn [option_map] in HC; try discriminate HC; [|reflexivity].
    exact (some_eq _ _ _ HC). }
  pose proof (flush_related t v R) as HFl.
  unfold parse_line, Validate.parse_line. cbv zeta. rewrite HL, HF.
  set (et := entry_of t (line_no t + 1)) in *.
  set (ev := Validate.entry_of v (line_no t + 1)) in *.
  set (line := rstrip_char LF raw).
  destruct (core_fields et ev Hcore) as (C1 & C2 & C3 & C4 & C5 & C6).
  destruct (negb (truthy (strip line))).
  { cbn [related_res]. split; [exact HFl|]. repeat split. }
  destruct (startswith (lit "#") line).
  { cbn [related_res]. apply related_next; [exact R|].
    destruct (startswith (lit "#:") line);
      [|destruct (startswith (lit "#,") line)];
      destruct (startswith (lit "#, ") line && contains (lit "fuzzy") line);
      destruct (startswith (lit "#: ") line); core. }
  destruct (startswith (lit "msgid ") line).
  { cbn [related_res]. apply related_next; [exact R|].
    unfold Validate.unescape_po_string, unescape_po_string.
    destruct (quoted _); [|exact Hcore].
    destruct (negb _ && _); core. }
  destruct (startswith (lit "msgid_plural ") line).
  { cbn [related_res]. apply related_next; [exact R|].
    unfold Validate.unescape_po_string, unescape_po_string.
    destruct (quoted _); [core | exact Hcore]. }
  destruct (startswith (lit "msgstr ") line).
  { cbn [related_res]. apply related_next; [exact R|].
    unfold Validate.unescape_po_string, unescape_po_string.
    destruct (quoted _); [core | exact Hcore]. }
  destruct (startswith (lit "msgstr[") line) eqn:S.
  { pose proof (plural_not_quoted line S) as Q.
    destruct (match_msgstr_plural line) as [[g1 g2]|].
    - destruct (int g1) as [idx|]; cbn [bind related_res]; [|reflexivity].
      rewrite C5. unfold Validate.unescape_po_string, unescape_po_string.
      destruct (list_set _ _ _); cbn [bind related_res]; [|reflexivity].
      apply related_next; [exact R | core].
    - rewrite Q. cbn [related_res]. apply related_next; assumption. }
  rewrite (plural_line line S).
  destruct (quoted line);
    [|cbn [related_res]; apply related_next; assumption].
  pose proof (continue_related et ev (current_field t)
                (unescape_po_string (slice_1_m1 line)) Hcore) as K.
  unfold Validate.unescape_po_string, unescape_po_string in *.
  destruct (continue_field et _ _), (Validate.continue_field ev _ _);
    cbn [related_res bind] in *; try contradiction; [|exact K].
  apply related_next; assumption.
Qed.

Lemma parse_lines_related (ls : list str) :
  forall t v, parsers_related t v ->
    related_res parsers_related (parse_lines t ls)
      (Validate.parse_lines v ls).
Proof.
  induction ls as [|l ls IH]; intros t v R; [exact R|].
  cbn [parse_lines Validate.parse_lines].
  pose proof (parse_line_related t v l R) as H.
  destruct (parse_line t l), (Validate.parse_line v l);
    cbn [related_res bind] in *; try contradiction; [|exact H].
  apply IH, H.
Qed.

Lemma parse_po_file_related (text : str) :
  related_res
    (fun tes ves =>
       map validate_core ves
       = map translate_core (filter (fun e => truthy (msgid e)) tes))
    (parse_po_file text) (Validate.parse_po_file text).
Proof.
  unfold parse_po_file, Validate.parse_po_file.
  assert (R0 : parsers_related init_pstate Validate.init_pstate)
    by (repeat split).
  pose proof (parse_lines_related (readlines text) _ _ R0) as H.
  destruct (parse_lines init_pstate (readlines text)),
    (Validate.parse_lines Validate.init_pstate (readlines text));
    cbn [related_res bind] in *; try contradiction; [|exact H].
  apply flush_related, H.
Qed.

(** X19.  The reader of the validator and the reader of the translation
    tool agree on a file: when the tool reads entries from a text, the
    validator reads from it the entries that have an id, in the same
    order, with the same comment lines, id, plural id, translation,
    plural forms and first line. *)
Theorem parsers_agree (text : str) (tes : list POEntry) :
  parse_po_file text = Ok tes ->
  exists ves,
    Validate.parse_po_file text = Ok ves
    /\ map validate_core ves
       = map translate_core (filter (fun e => truthy (msgid e)) tes).
Proof.
  intros P. pose proof (parse_po_file_related text) as H.
  rewrite P in H. destruct (Validate.parse_po_file text) as [ves|];
    cbn [related_res] in H; [|contradiction].
  exists ves. split; [reflexivity | exact H].
Qed.

Lemma parsers_agree_witness :
  exists ves,
    Validate.parse_po_file Samples.three_entries_text = Ok ves
    /\ map Validate.msgid ves = [lit "Cache size: %1 MB"; lit "Open"].
Proof.
  destruct (parsers_agree Samples.three_entries_text
              (match parse_po_file Samples.three_entries_text with
               | Ok l => l
               | Raise _ => []
               end)) as (ves & P & H); [vm_compute; reflexivity|].
  exists ves. split; [exact P|].
  apply (f_equal (map (fun c => snd (fst (fst (fst (fst c))))))) in H.
  rewrite !map_map in H. cbn [validate_core fst snd] in H.
  refine (eq_trans H _). vm_compute. reflexivity.
Defined.

End AgreeFacts.

(** ** Writing a file and reading it back *)

Module RoundTripFacts.

Import Translate PyFacts Notions MoreNotions.

(** *** Lines *)

Lemma no_lf_forallb (s : str) :
  forallb (fun c => negb (c =? LF)%N) s = true -> ~ In LF s.
Proof.
  intros H Hin. rewrite forallb_forall in H. specialize (H _ Hin).
  rewrite N.eqb_refl in H. discriminate.
Qed.

Lemma readlines_go_line (l : str) :
  ~ In LF l ->
  forall cur rest,
    readlines_go cur (l ++ LF :: rest)
    = (rev cur ++ l ++ [LF]) :: readlines_go [] rest.
Proof.
  induction l as [|a l IH]; intros Hl cur rest.
  - cbn [app readlines_go]. rewrite N.eqb_refl. reflexivity.
  - cbn [app readlines_go].
    destruct (N.eqb_spec a LF) as [->|_]; [exfalso; apply Hl; left; auto|].
    rewrite IH by (intros H; apply Hl; right; exact H).
    cbn [rev]. rewrite <- app_assoc. reflexivity.
Qed.

Lemma runs_nil (st : pstate) : runs st [] st.
Proof. intros rest. reflexivity. Qed.

Lemma runs_app (st st1 st2 : pstate) (a b : str) :
  runs st a st1 -> runs st1 b st2 -> runs st (a ++ b) st2.
Proof.
  intros H1 H2 rest. rewrite <- app_assoc, H1. apply H2.
Qed.

Lemma runs_line (st st' : pstate) (l : str) :
  ~ In LF l -> parse_line st (l ++ [LF]) = Ok st' ->
  runs st (l ++ [LF]) st'.
Proof.
  intros Hl P rest. unfold readlines. rewrite <- app_assoc. cbn [app].
  rewrite readlines_go_line by exact Hl. cbn [rev app parse_lines].
  rewrite P. reflexivity.
Qed.

Lemma rstrip_line (l : str) :
  l <> [] -> ~ In LF l -> rstrip_char LF (l ++ [LF]) = l.
Proof.
  intros Hne Hl. destruct (exists_last Hne) as (l' & c & ->).
  unfold rstrip_char. rewrite !rev_app_distr. cbn [rev app lstrip_char].
  rewrite N.eqb_refl.
  destruct (N.eqb_spec c LF) as [->|_];
    [exfalso; apply Hl, in_or_app; right; left; reflexivity|].
  cbn [rev]. rewrite rev_involutive. reflexivity.
Qed.

Lemma strip_framed (a b : char) (m : str) :
  isspace a = false -> isspace b = false ->
  strip (a :: m ++ [b]) = a :: m ++ [b].
Proof.
  intros Ha Hb. unfold strip, rstrip. cbn [lstrip]. rewrite Ha.
  change (a :: m ++ [b]) with ((a :: m) ++ [b]).
  rewrite rev_app_distr. cbn [rev app lstrip]. rewrite Hb.
  cbn [rev]. rewrite rev_app_distr, rev_involutive. reflexivity.
Qed.

Lemma strip_qt (x : str) : strip (qt x) = qt x.
Proof. apply (strip_framed DQUOTE DQUOTE x); reflexivity. Qed.

Lemma quoted_qt (x : str) : quoted (qt x) = true.
Proof.
  unfold quoted, qt, endswith. rewrite !rev_app_distr. cbn [rev app].
  cbn [startswith]. rewrite N.eqb_refl. reflexivity.
Qed.

Lemma slice_qt (x : str) : slice_1_m1 (qt x) = x.
Proof. unfold slice_1_m1, qt. cbn [app tl]. apply removelast_last. Qed.

Lemma qt_no_lf (x : str) : ~ In LF x -> ~ In LF (qt x).
Proof.
  intros H. unfold qt. rewrite !in_app_iff. cbn [In].
  intros [[E | []] | [Hx | [E | []]]]; try discriminate E. exact (H Hx).
Qed.

Local Open Scope N_scope.
Local Open Scope list_scope.


(** *** One line at a time *)

Lemma at_entry_any (E : list POEntry) (st : pstate)
    (t : list str * str * str * str * list str) (h : bool) (n : N) :
  at_entry E st t h ->
  entry_text (entry_of st n) = t /\ is_header (entry_of st n) = h.
Proof.
  unfold at_entry, entry_of. intros (_ & HT & HH).
  destruct (current_entry st); auto.
Qed.

Lemma reads_at (E : list POEntry) (st : pstate)
    (t : list str * str * str * str * list str) (h : bool) :
  reads E st t h -> at_entry E st t h.
Proof.
  unfold at_entry, entry_of. intros (HE & e & -> & HT & HH). auto.
Qed.

Lemma text_fields (e : POEntry) (cs : list str) (m mp s : str)
    (pl : list str) :
  entry_text e = (cs, m, mp, s, pl) ->
  comments e = cs /\ msgid e = m /\ msgid_plural e = mp /\ msgstr e = s
  /\ msgstr_plural e = pl.
Proof.
  unfold entry_text. intros H. injection H. intros. repeat split; assumption.
Qed.

Ltac fields :=
  unfold entry_text;
  cbn [comments msgid msgid_plural msgstr msgstr_plural is_header
       set_comments set_msgid set_msgid_plural set_msgstr
       set_msgstr_plural set_flags set_references set_is_header];
  cbv beta iota; first [congruence | subst; reflexivity].

Ltac prefix_no_lf Hx :=
  rewrite in_app_iff; intros [H | H]; revert H;
  [apply no_lf_forallb; reflexivity | apply qt_no_lf, Hx].

Lemma run_comment (E : list POEntry) (st : pstate) (cs : list str)
    (m mp s : str) (pl : list str) (h : bool) (c : str) :
  at_entry E st (cs, m, mp, s, pl) h ->
  startswith (lit "#") c = true -> ~ In LF c ->
  exists st',
    runs st (c ++ [LF]) st'
    /\ reads E st' (cs ++ [c], m, mp, s, pl) h
    /\ current_field st' = current_field st.
Proof.
  intros A Hc Hl.
  destruct (at_entry_any _ _ _ _ (line_no st + 1) A) as (HT & HH).
  destruct A as (HE & _).
  apply text_fields in HT. destruct HT as (C1 & C2 & C3 & C4 & C5).
  assert (Hne : c <> []) by (intros ->; discriminate Hc).
  assert (Hb : truthy (strip c) = true).
  { destruct c as [|a c]; [congruence|]. cbn [startswith] in Hc.
    apply andb_true_iff in Hc. destruct Hc as (Hc & _).
    apply N.eqb_eq in Hc. subst a.
    apply (nonblank 35); [reflexivity | left; reflexivity]. }
  eexists. split; [|split].
  - apply runs_line; [exact Hl|].
    unfold parse_line. cbv zeta. rewrite rstrip_line by assumption.
    rewrite Hb, Hc. cbn [negb]. reflexivity.
  - split; [exact HE|]. eexists. split; [reflexivity|].
    cbn [current_entry].
    destruct (startswith (lit "#:") c);
      [|destruct (startswith (lit "#,") c)]; split; fields.
  - reflexivity.
Qed.

Lemma run_msgid (E : list POEntry) (st : pstate) (cs : list str)
    (m mp s : str) (pl : list str) (h : bool) (x : str) :
  at_entry E st (cs, m, mp, s, pl) h -> ~ In LF x ->
  exists st',
    runs st (lit "msgid " ++ qt x ++ [LF]) st'
    /\ reads E st' (cs, unescape_po_string x, mp, s, pl)
         (if negb (truthy (unescape_po_string x))
             && match E with [] => true | _ => false end
          then true else h)
    /\ current_field st' = Some (lit "msgid").
Proof.
  intros A Hx.
  destruct (at_entry_any _ _ _ _ (line_no st + 1) A) as (HT & HH).
  destruct A as (HE & _).
  apply text_fields in HT. destruct HT as (C1 & C2 & C3 & C4 & C5).
  eexists. split; [|split].
  - rewrite app_assoc. apply runs_line; [prefix_no_lf Hx|].
    unfold parse_line. cbv zeta.
    rewrite rstrip_line; [|discriminate | prefix_no_lf Hx].
    rewrite (nonblank 109) by (try reflexivity; left; reflexivity).
    cbn [negb].
    change (startswith (lit "#") (lit "msgid " ++ qt x)) with false.
    change (startswith (lit "msgid ") (lit "msgid " ++ qt x)) with true.
    cbv iota.
    change (skipn 6 (lit "msgid " ++ qt x)) with (qt x).
    rewrite strip_qt, quoted_qt, slice_qt. reflexivity.
  - split; [exact HE|]. eexists. split; [reflexivity|].
    cbn [current_entry msgid set_msgid]. rewrite HE.
    destruct (negb (truthy (unescape_po_string x))
              && match E with [] => true | _ => false end); split; fields.
  - reflexivity.
Qed.

Lemma run_msgid_plural (E : list POEntry) (st : pstate) (cs : list str)
    (m mp s : str) (pl : list str) (h : bool) (x : str) :
  at_entry E st (cs, m, mp, s, pl) h -> ~ In LF x ->
  exists st',
    runs st (lit "msgid_plural " ++ qt x ++ [LF]) st'
    /\ reads E st' (cs, m, unescape_po_string x, s, pl) h
    /\ current_field st' = Some (lit "msgid_plural").
Proof.
  intros A Hx.
  destruct (at_entry_any _ _ _ _ (line_no st + 1) A) as (HT & HH).
  destruct A as (HE & _).
  apply text_fields in HT. destruct HT as (C1 & C2 & C3 & C4 & C5).
  eexists. split; [|split].
  - rewrite app_assoc. apply runs_line; [prefix_no_lf Hx|].
    unfold parse_line. cbv zeta.
    rewrite rstrip_line; [|discriminate | prefix_no_lf Hx].
    rewrite (nonblank 109) by (try reflexivity; left; reflexivity).
    cbn [negb].
    change (startswith (lit "#") (lit "msgid_plural " ++ qt x)) with false.
    change (startswith (lit "msgid ") (lit "msgid_plural " ++ qt x))
      with false.
    change (startswith (lit "msgid_plural ") (lit "msgid_plural " ++ qt x))
      with true.
    cbv iota.
    change (skipn 13 (lit "msgid_plural " ++ qt x)) with (qt x).
    rewrite strip_qt, quoted_qt, slice_qt. reflexivity.
  - split; [exact HE|]. eexists. split; [reflexivity|]. split; fields.
  - reflexivity.
Qed.

Lemma run_msgstr (E : list POEntry) (st : pstate) (cs : list str)
    (m mp s : str) (pl : list str) (h : bool) (x : str) :
  at_entry E st (cs, m, mp, s, pl) h -> ~ In LF x ->
  exists st',
    runs st (lit "msgstr " ++ qt x ++ [LF]) st'
    /\ reads E st' (cs, m, mp, unescape_po_string x, pl) h
    /\ current_field st' = Some (lit "msgstr").
Proof.
  intros A Hx.
  destruct (at_entry_any _ _ _ _ (line_no st + 1) A) as (HT & HH).
  destruct A as (HE & _).
  apply text_fields in HT. destruct HT as (C1 & C2 & C3 & C4 & C5).
  eexists. split; [|split].
  - rewrite app_assoc. apply runs_line; [prefix_no_lf Hx|].
    unfold parse_line. cbv zeta.
    rewrite rstrip_line; [|discriminate | prefix_no_lf Hx].
    rewrite (nonblank 109) by (try reflexivity; left; reflexivity).
    cbn [negb].
    change (startswith (lit "#") (lit "msgstr " ++ qt x)) with false.
    change (startswith (lit "msgid ") (lit "msgstr " ++ qt x)) with false.
    change (startswith (lit "msgid_plural ") (lit "msgstr " ++ qt x))
      with false.
    change (startswith (lit "msgstr ") (lit "msgstr " ++ qt x)) with true.
    cbv iota.
    change (skipn 7 (lit "msgstr " ++ qt x)) with (qt x).
    rewrite strip_qt, quoted_qt, slice_qt. reflexivity.
  - split; [exact HE|]. eexists. split; [reflexivity|]. split; fields.
  - reflexivity.
Qed.

(** A continuation line, read into the id or into the translation. *)
Lemma run_continuation (E : list POEntry) (st : pstate) (cs : list str)
    (m mp s : str) (pl : list str) (h : bool) (x : str) (of_id : bool) :
  at_entry E st (cs, m, mp, s, pl) h -> ~ In LF x ->
  current_field st = Some (if of_id then lit "msgid" else lit "msgstr") ->
  exists st',
    runs st (qt x ++ [LF]) st'
    /\ reads E st'
         (if of_id then (cs, m ++ unescape_po_string x, mp, s, pl)
          else (cs, m, mp, s ++ unescape_po_string x, pl)) h
    /\ current_field st' = current_field st.
Proof.
  intros A Hx Hf.
  destruct (at_entry_any _ _ _ _ (line_no st + 1) A) as (HT & HH).
  destruct A as (HE & _).
  apply text_fields in HT. destruct HT as (C1 & C2 & C3 & C4 & C5).
  assert (P : exists e',
             parse_line st (qt x ++ [LF])
             = Ok {| entries := entries st; current_entry := Some e';
                     current_field := current_field st;
                     line_no := line_no st + 1 |}
             /\ e' = if of_id
                     then set_msgid (entry_of st (line_no st + 1))
                            (m ++ unescape_po_string x)
                     else set_msgstr (entry_of st (line_no st + 1))
                            (s ++ unescape_po_string x)).
  { unfold parse_line. cbv zeta.
    rewrite rstrip_line; [|discriminate | apply qt_no_lf, Hx].
    rewrite strip_qt. change (truthy (qt x)) with true. cbn [negb].
    change (startswith (lit "#") (qt x)) with false.
    change (startswith (lit "msgid ") (qt x)) with false.
    change (startswith (lit "msgid_plural ") (qt x)) with false.
    change (startswith (lit "msgstr ") (qt x)) with false.
    cbv iota.
    change (match_msgstr_plural (qt x)) with (@None (str * str)).
    cbv iota.
    rewrite quoted_qt, slice_qt, Hf. unfold continue_field.
    rewrite C2, C4. destruct of_id; eexists; split; reflexivity. }
  destruct P as (e' & P & He').
  eexists. split; [|split].
  - apply runs_line; [apply qt_no_lf, Hx | exact P].
  - split; [exact HE|]. exists e'. split; [reflexivity|]. subst e'.
    destruct of_id; split; fields.
  - reflexivity.
Qed.

Lemma run_blank (E : list POEntry) (st : pstate)
    (t : list str * str * str * str * list str) (h : bool) :
  reads E st t h ->
  truthy (snd (fst (fst (fst t)))) || h = true ->
  exists st' e,
    runs st [LF] st'
    /\ entries st' = E ++ [e] /\ current_entry st' = None
    /\ entry_text e = t.
Proof.
  intros (HE & e & Hc & HT & HH) Hk.
  exists {| entries := E ++ [e]; current_entry := None;
            current_field := None; line_no := line_no st + 1 |}, e.
  split; [|auto].
  apply (runs_line st _ []); [intros []|].
  unfold parse_line. cbv zeta.
  change (truthy (strip (rstrip_char LF ([] ++ [LF])))) with false.
  cbn [negb]. rewrite Hc, HE. unfold flush.
  replace (truthy (msgid e) || is_header e) with true; [reflexivity|].
  rewrite <- Hk, <- HT, HH. reflexivity.
Qed.

(** *** The plural forms *)

Lemma digits_fuel_decimal (fuel : nat) :
  forall n, forallb isdecimal (digits_fuel fuel n) = true.
Proof.
  assert (D : forall d, d < 10 -> isdecimal (48 + d) = true).
  { intros d Hd. unfold isdecimal. rewrite decimal_value_ascii by exact Hd.
    reflexivity. }
  induction fuel as [|f IH]; intros n; [reflexivity|].
  cbn [digits_fuel]. destruct (N.ltb_spec n 10) as [Hlt | Hge].
  - cbn [forallb]. rewrite D by exact Hlt. reflexivity.
  - rewrite forallb_app, IH. cbn [forallb andb].
    rewrite D by (apply N.mod_lt; discriminate). reflexivity.
Qed.

Lemma str_of_N_decimal (n : N) : forallb isdecimal (str_of_N n) = true.
Proof. apply digits_fuel_decimal. Qed.

Lemma str_of_N_no_lf (n : N) : ~ In LF (str_of_N n).
Proof.
  intros H. pose proof (str_of_N_decimal n) as D.
  rewrite forallb_forall in D. specialize (D _ H). discriminate D.
Qed.

Lemma take_while_prefix (f : char -> bool) (a b : str) (c : char) :
  forallb f a = true -> f c = false -> take_while f (a ++ c :: b) = a.
Proof.
  intros Ha Hc. induction a as [|x a IH]; cbn [app take_while].
  - rewrite Hc. reflexivity.
  - cbn [forallb] in Ha. apply andb_true_iff in Ha. destruct Ha as (Hx & Ha).
    rewrite Hx, IH by exact Ha. reflexivity.
Qed.

Lemma take_while_whole (f : char -> bool) (a : str) :
  forallb f a = true -> take_while f a = a.
Proof.
  induction a as [|x a IH]; [reflexivity|]. cbn [forallb take_while].
  intros H. apply andb_true_iff in H. destruct H as (Hx & Ha).
  rewrite Hx, IH by exact Ha. reflexivity.
Qed.

Lemma upto_last_snoc (c : char) (x : str) :
  upto_last c (x ++ [c]) = Some x.
Proof.
  induction x as [|a x IH]; cbn [app upto_last].
  - rewrite N.eqb_refl. reflexivity.
  - rewrite IH. reflexivity.
Qed.

Lemma no_lf_line (x : str) :
  ~ In LF x -> forallb (fun c => negb (c =? LF)) x = true.
Proof.
  intros H. apply forallb_forall. intros c Hc.
  destruct (N.eqb_spec c LF) as [->|_]; [contradiction | reflexivity].
Qed.

Lemma match_plural_line (n : N) (x : str) :
  ~ In LF x ->
  match_msgstr_plural
    (lit "msgstr[" ++ str_of_N n ++ lit "] " ++ qt x)
  = Some (str_of_N n, x).
Proof.
  intros Hx. unfold match_msgstr_plural.
  change (startswith (lit "msgstr[")
            (lit "msgstr[" ++ str_of_N n ++ lit "] " ++ qt x)) with true.
  cbv iota.
  change (skipn 7 (lit "msgstr[" ++ str_of_N n ++ lit "] " ++ qt x))
    with (str_of_N n ++ 93 :: 32 :: qt x).
  cbv zeta.
  assert (T : take_while isdecimal (str_of_N n ++ 93 :: 32 :: qt x)
              = str_of_N n)
    by (apply take_while_prefix; [apply str_of_N_decimal | reflexivity]).
  rewrite T. clear T.
  rewrite skipn_app, skipn_all, Nat.sub_diag, skipn_O. cbn [app].
  pose proof (str_of_N_nonempty n) as Hne.
  destruct (str_of_N n) as [|d ds] eqn:D; [congruence|].
  change (startswith (lit "] " ++ [DQUOTE]) (93 :: 32 :: qt x)) with true.
  cbv iota.
  change (skipn 3 (93 :: 32 :: qt x)) with (x ++ [DQUOTE]).
  rewrite take_while_whole.
  2:{ rewrite forallb_app, no_lf_line by exact Hx. reflexivity. }
  rewrite upto_last_snoc. reflexivity.
Qed.

Lemma list_set_last (A : Type) (l : list A) (a v : A) :
  list_set (l ++ [a]) (length l) v = Ok (l ++ [v]).
Proof.
  induction l as [|x l IH]; [reflexivity|].
  cbn [app length list_set]. rewrite IH. reflexivity.
Qed.

Lemma run_plural (E : list POEntry) (st : pstate) (cs : list str)
    (m mp s : str) (pl : list str) (h : bool) (x : str) :
  at_entry E st (cs, m, mp, s, pl) h -> ~ In LF x ->
  N.of_nat (length pl) < 10 ^ N.of_nat int_max_str_digits ->
  exists st',
    runs st
      (lit "msgstr[" ++ str_of_N (N.of_nat (length pl)) ++ lit "] "
       ++ qt x ++ [LF]) st'
    /\ reads E st' (cs, m, mp, s, pl ++ [unescape_po_string x]) h.
Proof.
  intros A Hx Hd. apply str_of_N_within in Hd.
  destruct (at_entry_any _ _ _ _ (line_no st + 1) A) as (HT & HH).
  destruct A as (HE & _).
  apply text_fields in HT. destruct HT as (C1 & C2 & C3 & C4 & C5).
  set (n := N.of_nat (length pl)) in *.
  set (L := lit "msgstr[" ++ str_of_N n ++ lit "] " ++ qt x).
  assert (HL : ~ In LF L).
  { unfold L. rewrite !in_app_iff.
    intros [H | [H | [H | H]]]; revert H;
      [apply no_lf_forallb; reflexivity | apply str_of_N_no_lf
      | apply no_lf_forallb; reflexivity | apply qt_no_lf, Hx]. }
  eexists. split.
  - replace (lit "msgstr[" ++ str_of_N n ++ lit "] " ++ qt x ++ [LF])
      with (L ++ [LF]) by (unfold L; rewrite <- !app_assoc; reflexivity).
    apply runs_line; [exact HL|].
    unfold parse_line. cbv zeta.
    rewrite rstrip_line; [|discriminate | exact HL].
    rewrite (nonblank 109) by (try reflexivity; left; reflexivity).
    cbn [negb].
    change (startswith (lit "#") L) with false.
    change (startswith (lit "msgid ") L) with false.
    change (startswith (lit "msgid_plural ") L) with false.
    change (startswith (lit "msgstr ") L) with false.
    cbv iota. unfold L at 1. rewrite match_plural_line by exact Hx.
    rewrite (int_str_of_N n Hd). cbn [bind]. rewrite C5. unfold pad_plural.
    unfold n at 1 2. rewrite Nnat.Nat2N.id.
    replace (S (length pl) - length pl)%nat with 1%nat by lia.
    cbn [repeat]. rewrite list_set_last. cbn [bind]. reflexivity.
  - split; [exact HE|]. eexists. split; [reflexivity|]. split; fields.
Qed.

(** *** The fields *)

Lemma escape_no_lf (x : str) : ~ In LF (escape_po_string x).
Proof.
  rewrite EscapeFacts.escape_by_char. intros H. apply in_flat_map in H.
  destruct H as (c & _ & Hc). unfold esc_char in Hc.
  pose proof (EscapeFacts.kind_of_spec c) as K.
  destruct (kind_of c); unfold BSLASH, DQUOTE, LF, TAB in *; cbn in Hc;
    intuition congruence.
Qed.

Lemma unescape_escape (x : str) :
  backslashes_plain x = true ->
  unescape_po_string (escape_po_string x) = x.
Proof.
  intros H. unfold unescape_po_string. rewrite EscapeFacts.escape_by_char.
  rewrite EscapeFacts.unescape_pass1 by exact H.
  rewrite EscapeFacts.unescape_pass2 by exact H.
  rewrite EscapeFacts.unescape_pass3. apply EscapeFacts.unescape_pass4.
Qed.

Lemma escape_line_end (p : str) :
  escape_po_string p ++ BSLASH :: lit "n" = escape_po_string (p ++ [LF]).
Proof.
  rewrite !EscapeFacts.escape_by_char, flat_map_app. reflexivity.
Qed.

Lemma backslashes_plain_mid (a b : str) (c : char) :
  backslashes_plain (a ++ c :: b) = true ->
  backslashes_plain (a ++ [c]) = true /\ backslashes_plain b = true.
Proof.
  induction a as [|x a IH]; cbn [app backslashes_plain]; intros H;
    apply andb_true_iff in H; destruct H as (H1 & H2).
  - split; [|exact H2]. rewrite andb_false_r. reflexivity.
  - destruct (IH H2) as (I1 & I2). split; [|exact I2].
    rewrite I1, andb_true_r. destruct a; exact H1.
Qed.

Lemma contains_char (c : char) (s : str) :
  ~ In c s -> contains [c] s = false.
Proof.
  induction s as [|a s IH]; [reflexivity|]. intros H.
  cbn [contains startswith].
  destruct (N.eqb_spec c a) as [->|_]; [exfalso; apply H; left; auto|].
  apply IH. intros Hs. apply H. right. exact Hs.
Qed.

Lemma split_char_whole (c : char) (s : str) :
  ~ In c s -> split_char c s = [s].
Proof.
  induction s as [|a s IH]; [reflexivity|]. intros H. cbn [split_char].
  destruct (N.eqb_spec a c) as [->|_]; [exfalso; apply H; left; auto|].
  rewrite IH by (intros Hs; apply H; right; exact Hs). reflexivity.
Qed.

Lemma join_split (c : char) (s : str) : join [c] (split_char c s) = s.
Proof.
  induction s as [|a s IH]; [reflexivity|]. cbn [split_char].
  destruct (FuzzyFacts.split_char_cons c s) as (w & ws & E).
  rewrite E in *.
  destruct (N.eqb_spec a c) as [->|_];
    destruct ws as [|y r]; cbn [join app] in *; rewrite IH; reflexivity.
Qed.

Lemma rewrite_comment_kept (c : str) :
  comment_kept c -> rewrite_comment false false c = c ++ [LF].
Proof.
  intros (_ & _ & H). unfold rewrite_comment.
  destruct (startswith (lit "#,") c); [|reflexivity].
  cbv zeta. cbn [andb]. cbv iota. specialize (H eq_refl).
  unfold comment_flags in *.
  destruct (FuzzyFacts.split_char_cons 44 (skipn 2 c)) as (w & ws & E).
  rewrite E in *. cbn [map] in *. rewrite app_assoc, H. reflexivity.
Qed.

Lemma run_comments (E : list POEntry) (m mp s : str) (pl : list str)
    (h : bool) (cs' : list str) :
  Forall (fun c => comment_kept c /\ stored c) cs' ->
  forall st cs,
    at_entry E st (cs, m, mp, s, pl) h ->
    exists st',
      runs st (concat (map (rewrite_comment false false) cs')) st'
      /\ at_entry E st' (cs ++ cs', m, mp, s, pl) h.
Proof.
  induction cs' as [|c cs' IH]; intros F st cs A.
  - exists st. split; [apply runs_nil|]. rewrite app_nil_r. exact A.
  - inversion F as [|? ? (K & _) F']; subst. cbn [map concat].
    rewrite (rewrite_comment_kept c K). destruct K as (K1 & K2 & _).
    destruct (run_comment E st cs m mp s pl h c A K1 K2)
      as (st1 & R1 & A1 & _).
    destruct (IH F' st1 (cs ++ [c]) (reads_at _ _ _ _ A1)) as (st2 & R2 & A2).
    exists st2. split; [exact (runs_app _ _ _ _ _ R1 R2)|].
    rewrite <- app_assoc in A2. exact A2.
Qed.

Lemma run_write_msgid (E : list POEntry) (st : pstate) (cs : list str)
    (m0 mp s : str) (pl : list str) (h : bool) (m : str) :
  at_entry E st (cs, m0, mp, s, pl) h ->
  ~ In LF m -> backslashes_plain m = true ->
  exists st' h',
    runs st (write_msgid m) st'
    /\ reads E st' (cs, m, mp, s, pl) h'
    /\ (m = [] -> E = [] -> h' = true).
Proof.
  intros A Hm Hp. unfold write_msgid.
  rewrite (contains_char LF m Hm). cbn [orb].
  destruct (70 <? length m)%nat eqn:L.
  - cbv zeta. rewrite (split_char_whole LF m Hm).
    cbn [last write_msgid_parts]. rewrite str_eqb_refl. cbn [negb].
    assert (T : truthy m = true).
    { destruct m; [discriminate L | reflexivity]. }
    rewrite T, app_nil_r.
    destruct (run_msgid E st cs m0 mp s pl h [] A (fun H => H))
      as (st1 & R1 & A1 & F1).
    change (unescape_po_string []) with (@nil char) in A1.
    destruct (run_continuation E st1 cs [] mp s pl _ (escape_po_string m)
                true (reads_at _ _ _ _ A1) (escape_no_lf m) F1)
      as (st2 & R2 & A2 & _).
    rewrite (unescape_escape m Hp) in A2. cbn [app] in A2.
    exists st2. eexists. split; [|split; [exact A2|]].
    + rewrite !app_assoc. rewrite <- (app_assoc (lit "msgid ")).
      exact (runs_app _ _ _ _ _ R1 R2).
    + intros ->. discriminate T.
  - destruct (run_msgid E st cs m0 mp s pl h (escape_po_string m) A
                (escape_no_lf m)) as (st1 & R1 & A1 & _).
    rewrite (unescape_escape m Hp) in A1.
    exists st1. eexists. split; [exact R1|]. split; [exact A1|].
    intros -> ->. reflexivity.
Qed.

Lemma last_part_test (i : nat) : (i <? i + 1 - 1)%nat = false.
Proof. apply Nat.ltb_ge. lia. Qed.

Lemma inner_part_test (i k : nat) : (i <? i + S (S k) - 1)%nat = true.
Proof. apply Nat.ltb_lt. lia. Qed.

Lemma run_format_parts (E : list POEntry) (cs : list str) (m mp : str)
    (pl : list str) (h : bool) (parts : list str) :
  forall st s0 i,
    reads E st (cs, m, mp, s0, pl) h ->
    current_field st = Some (lit "msgstr") ->
    backslashes_plain (join [LF] parts) = true ->
    exists st',
      runs st
        (concat (map (fun l => l ++ [LF])
                   (format_parts parts i (i + length parts)))) st'
      /\ reads E st' (cs, m, mp, s0 ++ join [LF] parts, pl) h
      /\ current_field st' = Some (lit "msgstr").
Proof.
  induction parts as [|p parts IH]; intros st s0 i A Hf Hp.
  - exists st. split; [apply runs_nil|]. cbn [join]. rewrite app_nil_r. auto.
  - destruct parts as [|q r].
    + cbn [format_parts length join] in *. rewrite last_part_test.
      rewrite app_nil_r.
      destruct p as [|a p].
      * exists st. split; [apply runs_nil|]. rewrite app_nil_r. auto.
      * cbn [truthy map concat]. rewrite app_nil_r.
        destruct (run_continuation E st cs m mp s0 pl h
                    (escape_po_string (a :: p)) false (reads_at _ _ _ _ A)
                    (escape_no_lf _) Hf) as (st1 & R1 & A1 & F1).
        rewrite (unescape_escape _ Hp) in A1.
        exists st1. split; [exact R1|]. split; [exact A1|]. congruence.
    + change (join [LF] (p :: q :: r)) with (p ++ LF :: join [LF] (q :: r))
        in *.
      destruct (backslashes_plain_mid _ _ _ Hp) as (P1 & P2).
      change (format_parts (p :: q :: r) i (i + length (p :: q :: r)))
        with ((if (i <? i + S (S (length r)) - 1)%nat
               then [qt (escape_po_string p ++ BSLASH :: lit "n")]
               else if truthy p then [qt (escape_po_string p)] else [])
              ++ format_parts (q :: r) (S i) (i + S (S (length r)))).
      rewrite inner_part_test. cbn [app map concat].
      rewrite escape_line_end.
      destruct (run_continuation E st cs m mp s0 pl h
                  (escape_po_string (p ++ [LF])) false (reads_at _ _ _ _ A)
                  (escape_no_lf _) Hf) as (st1 & R1 & A1 & F1).
      rewrite (unescape_escape _ P1) in A1. rewrite Hf in F1.
      destruct (IH st1 (s0 ++ p ++ [LF]) (S i) A1 F1 P2)
        as (st2 & R2 & A2 & F2).
      exists st2. split; [|split; [|exact F2]].
      * replace (i + S (S (length r)))%nat
          with (S i + length (q :: r))%nat by (cbn [length]; lia).
        exact (runs_app _ _ _ _ _ R1 R2).
      * rewrite <- !app_assoc in A2. exact A2.
Qed.

Lemma run_msgstr_field (E : list POEntry) (st : pstate) (cs : list str)
    (m mp s0 : str) (pl : list str) (h : bool) (s : str) :
  at_entry E st (cs, m, mp, s0, pl) h ->
  backslashes_plain s = true ->
  exists st',
    runs st
      (concat (map (fun l => l ++ [LF]) (format_msgstr_for_po s))) st'
    /\ reads E st' (cs, m, mp, s, pl) h.
Proof.
  intros A Hp. unfold format_msgstr_for_po.
  destruct (run_msgstr E st cs m mp s0 pl h [] A (fun H => H))
    as (st0 & R0 & A0 & F0).
  change (unescape_po_string []) with (@nil char) in A0.
  destruct s as [|a s].
  { cbn [truthy negb map concat]. rewrite app_nil_r, <- app_assoc.
    exists st0. auto. }
  cbn [truthy negb]. destruct (contains [LF] (a :: s)).
  - cbv zeta. cbn [map concat].
    destruct (run_format_parts E cs m mp pl h (split_char LF (a :: s))
                st0 [] 0%nat A0 F0) as (st1 & R1 & A1 & _).
    { rewrite join_split. exact Hp. }
    rewrite join_split in A1. cbn [app Nat.add] in *.
    exists st1. split; [|exact A1].
    rewrite <- app_assoc. exact (runs_app _ _ _ _ _ R0 R1).
  - cbn [map concat]. rewrite app_nil_r, <- app_assoc.
    destruct (run_msgstr E st cs m mp s0 pl h (escape_po_string (a :: s)) A
                (escape_no_lf _)) as (st1 & R1 & A1 & _).
    rewrite (unescape_escape _ Hp) in A1. exists st1. auto.
Qed.

Lemma run_plurals (E : list POEntry) (cs : list str) (m mp s : str)
    (h : bool) (pl : list str) :
  Forall (fun x => backslashes_plain x = true /\ stored x) pl ->
  forall st pl0,
    N.of_nat (length pl0 + length pl) <= 10 ^ N.of_nat int_max_str_digits ->
    reads E st (cs, m, mp, s, pl0) h ->
    exists st',
      runs st (write_plurals (N.of_nat (length pl0)) pl) st'
      /\ reads E st' (cs, m, mp, s, pl0 ++ pl) h.
Proof.
  induction pl as [|x pl IH]; intros F st pl0 B A.
  - exists st. split; [apply runs_nil|]. rewrite app_nil_r. exact A.
  - inversion F as [|? ? (Hx & _) F']; subst. cbn [write_plurals].
    cbn [length] in B.
    destruct (run_plural E st cs m mp s pl0 h (escape_po_string x)
                (reads_at _ _ _ _ A) (escape_no_lf x)) as (st1 & R1 & A1);
      [lia|].
    rewrite (unescape_escape x Hx) in A1.
    destruct (IH F' st1 (pl0 ++ [x])) as (st2 & R2 & A2);
      [rewrite length_app; cbn [length]; lia | exact A1 |].
    exists st2. split.
    + replace (N.of_nat (length pl0) + 1)
        with (N.of_nat (length (pl0 ++ [x])))
        by (rewrite length_app; cbn [length]; lia).
      rewrite !app_assoc. rewrite !app_assoc in R1.
      exact (runs_app _ _ _ _ _ R1 R2).
    + rewrite <- app_assoc in A2. exact A2.
Qed.

(** *** Entries and files *)

Lemma run_entry (E : list POEntry) (st : pstate) (e : POEntry) :
  at_entry E st ([], [], [], [], []) false ->
  round_trip_entry e ->
  exists st' h',
    runs st (write_entry [] [] e) st'
    /\ reads E st' (entry_text e) h'
    /\ (msgid e = [] -> E = [] -> h' = true).
Proof.
  intros A (Fc & Hl & Fs & Hn).
  inversion Fs as [|? ? (P1 & _) Fs1]; subst.
  inversion Fs1 as [|? ? (P2 & _) Fs2]; subst.
  inversion Fs2 as [|? ? (P3 & _) Fs3]; subst.
  rewrite TranslateFacts.write_entry_spec.
  change (mem (msgid e) []) with false. cbn [andb app].
  unfold entry_body.
  destruct (run_comments E [] [] [] [] false (comments e) Fc st [] A)
    as (st1 & R1 & A1).
  cbn [app] in A1.
  destruct (run_write_msgid E st1 (comments e) [] [] [] [] false (msgid e)
              A1 Hl P1) as (st2 & h' & R2 & A2 & H2).
  assert (M : exists st3,
             runs st2
               (if truthy (msgid_plural e)
                then lit "msgid_plural "
                     ++ qt (escape_po_string (msgid_plural e)) ++ [LF]
                else []) st3
             /\ reads E st3
                  (comments e, msgid e, msgid_plural e, [], []) h').
  { destruct (msgid_plural e) as [|a mp] eqn:MP.
    - exists st2. split; [apply runs_nil | exact A2].
    - cbn [truthy].
      destruct (run_msgid_plural E st2 (comments e) (msgid e) [] [] [] h'
                  (escape_po_string (a :: mp)) (reads_at _ _ _ _ A2)
                  (escape_no_lf _)) as (st3 & R3 & A3 & _).
      rewrite (unescape_escape _ P2) in A3. exists st3. auto. }
  destruct M as (st3 & R3 & A3).
  destruct (run_msgstr_field E st3 (comments e) (msgid e) (msgid_plural e)
              [] [] h' (msgstr e) (reads_at _ _ _ _ A3) P3)
    as (st4 & R4 & A4).
  destruct (run_plurals E (comments e) (msgid e) (msgid_plural e) (msgstr e)
              h' (msgstr_plural e) Fs3 st4 [] Hn A4) as (st5 & R5 & A5).
  cbn [app length N.of_nat] in R5, A5.
  exists st5, h'. split; [|split; [exact A5 | exact H2]].
  exact (runs_app _ _ _ _ _ R1
           (runs_app _ _ _ _ _ R2
              (runs_app _ _ _ _ _ R3 (runs_app _ _ _ _ _ R4 R5)))).
Qed.

Lemma flush_open (E : list POEntry) (st : pstate) (e : POEntry)
    (h : bool) :
  reads E st (entry_text e) h ->
  (msgid e = [] -> h = true) ->
  exists e', flush (entries st) (current_entry st) = E ++ [e']
             /\ entry_text e' = entry_text e.
Proof.
  intros (HE & e' & Hc & HT & HH) Hk. exists e'. split; [|exact HT].
  rewrite Hc, HE. unfold flush.
  assert (Hm : msgid e' = msgid e).
  { unfold entry_text in HT. injection HT. auto. }
  rewrite Hm, HH. destruct (msgid e) as [|a m]; [|reflexivity].
  rewrite (Hk eq_refl). reflexivity.
Qed.

Lemma run_entries (es : list POEntry) :
  forall E st,
    at_entry E st ([], [], [], [], []) false ->
    Forall round_trip_entry es ->
    (E <> [] -> Forall (fun e => msgid e <> []) es) ->
    Forall (fun e => msgid e <> []) (tl es) ->
    exists st' es',
      runs st (write_entries [] [] es) st'
      /\ flush (entries st') (current_entry st') = E ++ es'
      /\ map entry_text es' = map entry_text es.
Proof.
  induction es as [|e es IH]; intros E st A F H1 H2.
  - exists st, []. split; [apply runs_nil|]. split; [|reflexivity].
    destruct A as (HE & HT & HH). rewrite app_nil_r. unfold flush, entry_of in *.
    destruct (current_entry st) as [e0|]; [|exact HE].
    assert (Hm : msgid e0 = []) by (unfold entry_text in HT; congruence).
    rewrite Hm, HH. exact HE.
  - inversion F as [|? ? Fe F']; subst.
    destruct (run_entry E st e A Fe) as (st1 & h' & R1 & A1 & K1).
    assert (Hk : msgid e = [] -> h' = true).
    { intros Hm. apply K1; [exact Hm|]. destruct E as [|x E]; [reflexivity|].
      assert (Hx : x :: E <> []) by discriminate.
      specialize (H1 Hx). inversion H1; subst. contradiction. }
    destruct es as [|e2 r].
    + cbn [write_entries].
      destruct (flush_open E st1 e h' A1 Hk) as (e' & Hfl & HT).
      exists st1, [e']. split; [exact R1|]. split; [exact Hfl|].
      cbn [map]. rewrite HT. reflexivity.
    + change (write_entries [] [] (e :: e2 :: r))
        with (write_entry [] [] e ++ [LF] ++ write_entries [] [] (e2 :: r)).
      destruct (run_blank E st1 (entry_text e) h' A1) as (st2 & e' & R2 & HE2 & HC2 & HT2).
      { unfold entry_text. cbn [fst snd].
        destruct (msgid e); [rewrite Hk by reflexivity|]; reflexivity. }
      cbn [tl] in H2.
      destruct (IH (E ++ [e']) st2) as (st3 & es' & R3 & Hfl & HM).
      * split; [exact HE2|]. unfold entry_of. rewrite HC2. split; reflexivity.
      * exact F'.
      * intros _. exact H2.
      * inversion H2; assumption.
      * exists st3, (e' :: es'). split; [|split].
        -- exact (runs_app _ _ _ _ _ R1 (runs_app _ _ _ _ _ R2 R3)).
        -- rewrite Hfl, <- app_assoc. reflexivity.
        -- cbn [map]. rewrite HT2, HM. reflexivity.
Qed.

(** X20.  A file written by [write_po_file], with no fuzzy marks to add
    or remove, is read back by [parse_po_file] entry for entry: the
    entries come back in the same order with the same comment lines, id,
    plural id, translation and plural forms.  This holds when the ids
    hold no line feed, only the first entry may lack an id, no backslash
    of a text is directly followed by the letter n or t, the comment
    lines start with the comment sign and hold no line feed, the flags
    lines have the form the writer gives them, and nothing holds a
    carriage return. *)
Theorem written_file_read_back (es : list POEntry) :
  Forall round_trip_entry es ->
  Forall (fun e => msgid e <> []) (tl es) ->
  exists es',
    parse_po_file (write_po_file es [] []) = Ok es'
    /\ map entry_text es' = map entry_text es.
Proof.
  intros F H.
  destruct (run_entries es [] init_pstate) as (st & es' & R & Hfl & HM).
  - repeat split.
  - exact F.
  - intros Hne. contradiction Hne. reflexivity.
  - exact H.
  - exists es'. split; [|exact HM].
    unfold parse_po_file, write_po_file. specialize (R []).
    rewrite app_nil_r in R. rewrite R. cbn [readlines readlines_go parse_lines bind].
    rewrite Hfl. reflexivity.
Qed.

Lemma not_in_forallb (c : char) (s : str) :
  forallb (fun x => negb (x =? c)) s = true -> ~ In c s.
Proof.
  intros H Hin. rewrite forallb_forall in H. specialize (H _ Hin).
  rewrite N.eqb_refl in H. discriminate.
Qed.

Lemma written_file_read_back_witness :
  exists es',
    parse_po_file (write_po_file Samples.round_trip_entries [] []) = Ok es'
    /\ map entry_text es' = map entry_text Samples.round_trip_entries.
Proof.
  apply written_file_read_back.
  - unfold Samples.round_trip_entries, round_trip_entry, comment_kept,
      stored.
    cbn [comments msgid msgid_plural msgstr msgstr_plural].
    repeat first [ apply Forall_nil | apply Forall_cons | split
                 | apply not_in_forallb; reflexivity
                 | vm_compute; discriminate
                 | let H := fresh in intro H; discriminate H
                 | intros _ | reflexivity ].
  - cbn [tl Samples.round_trip_entries].
    repeat first [ apply Forall_nil | apply Forall_cons | discriminate ].
Defined.

End RoundTripFacts.
